(** * xv6 spin locks and the lock-statistics device (spinlock.c)

    A shallow embedding of [spinlock.c].  The file is embedded in the
    build with [LOCKSTAT] switched on; [SPINLOCK_DEBUG] stays a
    parameter, so every definition covers both the debugging and the
    plain build.  Sequential behaviour is given by state passing in a
    small outcome monad; mutual exclusion is stated over an interleaving
    step relation whose steps are the atomic actions of [acquire],
    [tryacquire] and [release]. *)

From stdpp Require Import gmap strings list fin_maps.
From Stdlib Require Import ZArith Lia.

Set Default Proof Using "Type".

(** ** Machine integers *)

(** [u32] and [u64] are the values of the C types after wrap-around;
    [to_int] is the conversion of a 32-bit pattern to [int] that takes
    place at a [return] of an unsigned expression. *)
Definition u32 (z : Z) : Z := (z mod 2 ^ 32)%Z.
Definition u64 (z : Z) : Z := (z mod 2 ^ 64)%Z.
Definition to_int (z : Z) : Z :=
  let w := u32 z in if (w <? 2 ^ 31)%Z then w else (w - 2 ^ 32)%Z.

(** ** Data *)

Definition cpuid := nat.
(** Address of a [struct klockstat] obtained from [kmalloc]. *)
Definition ptr := positive.

(** Per-CPU interrupt nesting state (fields of [struct cpu]). *)
Record cpu_t := mk_cpu {
  ncli : nat;        (* depth of pushcli nesting *)
  intena : bool;     (* were interrupts enabled before pushcli? *)
  iflag : bool       (* the interrupt-enable flag of the processor *)
}.

(** [struct cpulockstat]: only [acquires] is touched by spinlock.c.  The
    header that declares it is not part of the sources; the counter is
    taken to be a [u64]. *)
Record cpulockstat := mk_cpulockstat { acquires : Z }.

(** [struct lockstat]: the record handed to readers of the device. *)
Record lockstat := mk_lockstat {
  ls_name : string;
  ls_cpu : list cpulockstat
}.

(** [struct klockstat]: the kernel side of a statistics record.  The
    [link] field is represented by membership in [lockstat_list]. *)
Record klockstat := mk_klockstat {
  active : Z;
  s : lockstat
}.

(** [struct spinlock]. *)
Record spinlock := mk_spinlock {
  lk_locked : Z;             (* u32 locked *)
  lk_name : string;          (* const char *name *)
  lk_cpu : option cpuid;     (* struct cpu *cpu, None for the null pointer *)
  lk_pcs : list Z;           (* uptr pcs[] *)
  lk_stat : option ptr       (* struct klockstat *stat *)
}.

(** The kernel state spinlock.c reads and writes.  [xchgs] counts the
    atomic exchanges executed so far; it is the only field that has no
    counterpart in the C program. *)
Record kstate := mk_kstate {
  cpus : cpuid -> cpu_t;
  lockstat_enable : Z;
  lockstat_list : list ptr;
  lockstat_lock : spinlock;
  kmem : gmap ptr klockstat;
  xchgs : nat
}.

Definition set_locked (v : Z) (lk : spinlock) : spinlock :=
  mk_spinlock v (lk_name lk) (lk_cpu lk) (lk_pcs lk) (lk_stat lk).
Definition set_name (v : string) (lk : spinlock) : spinlock :=
  mk_spinlock (lk_locked lk) v (lk_cpu lk) (lk_pcs lk) (lk_stat lk).
Definition set_cpu (v : option cpuid) (lk : spinlock) : spinlock :=
  mk_spinlock (lk_locked lk) (lk_name lk) v (lk_pcs lk) (lk_stat lk).
Definition set_pcs (v : list Z) (lk : spinlock) : spinlock :=
  mk_spinlock (lk_locked lk) (lk_name lk) (lk_cpu lk) v (lk_stat lk).
Definition set_stat (v : option ptr) (lk : spinlock) : spinlock :=
  mk_spinlock (lk_locked lk) (lk_name lk) (lk_cpu lk) (lk_pcs lk) v.

Definition set_cpus (v : cpuid -> cpu_t) (st : kstate) : kstate :=
  mk_kstate v (lockstat_enable st) (lockstat_list st) (lockstat_lock st)
            (kmem st) (xchgs st).
Definition set_enable (v : Z) (st : kstate) : kstate :=
  mk_kstate (cpus st) v (lockstat_list st) (lockstat_lock st)
            (kmem st) (xchgs st).
Definition set_list (v : list ptr) (st : kstate) : kstate :=
  mk_kstate (cpus st) (lockstat_enable st) v (lockstat_lock st)
            (kmem st) (xchgs st).
Definition set_lockstat_lock (v : spinlock) (st : kstate) : kstate :=
  mk_kstate (cpus st) (lockstat_enable st) (lockstat_list st) v
            (kmem st) (xchgs st).
Definition set_kmem (v : gmap ptr klockstat) (st : kstate) : kstate :=
  mk_kstate (cpus st) (lockstat_enable st) (lockstat_list st)
            (lockstat_lock st) v (xchgs st).
Definition set_xchgs (v : nat) (st : kstate) : kstate :=
  mk_kstate (cpus st) (lockstat_enable st) (lockstat_list st)
            (lockstat_lock st) (kmem st) v.

Definition upd_cpu (c : cpuid) (k : cpu_t) (f : cpuid -> cpu_t) : cpuid -> cpu_t :=
  fun c' => if Nat.eqb c' c then k else f c'.

(** ** Outcomes

    [Done] is a normal return.  [Panic] is a call of [panic], which never
    returns.  [Spin] says that the busy-wait loop of [acquire] used up
    its fuel.  [Fault] is undefined behaviour of the C program: a
    dereference of a pointer that addresses no live record, or an index
    outside an array. *)
Inductive outcome (A : Type) : Type :=
| Done (a : A)
| Panic (msg : string)
| Spin
| Fault.
Arguments Done {A} a.
Arguments Panic {A} msg.
Arguments Spin {A}.
Arguments Fault {A}.

Definition bind {A B : Type} (m : outcome A) (f : A -> outcome B) : outcome B :=
  match m with
  | Done a => f a
  | Panic msg => Panic msg
  | Spin => Spin
  | Fault => Fault
  end.

#[export] Instance outcome_mbind : MBind outcome := fun A B f m => bind m f.
#[export] Instance outcome_mret : MRet outcome := fun A a => Done a.
#[export] Instance outcome_fmap : FMap outcome :=
  fun A B f m => bind m (fun a => Done (f a)).

(** ** Services spinlock.c calls but does not define *)

(** Modelled from the spec: [xchg32] is not in spinlock.c.  It is the
    atomic exchange of the specification: it stores the new value in the
    word and returns the value the word held before.  The result is the
    previous value, the new content of the word and the state with one
    more exchange counted. *)
Definition xchg32 (word newval : Z) (st : kstate) : Z * Z * kstate :=
  (word, u32 newval, set_xchgs (S (xchgs st)) st).

(** Modelled from the spec: [pushcli] is not in spinlock.c.  At depth 0
    it saves the interrupt-enable flag, it masks interrupts in every case
    and it adds one to the depth. *)
Definition pushcli (c : cpuid) (st : kstate) : kstate :=
  let k := cpus st c in
  let saved := if Nat.eqb (ncli k) 0 then iflag k else intena k in
  set_cpus (upd_cpu c (mk_cpu (S (ncli k)) saved false) (cpus st)) st.

(** Modelled from the spec: [popcli] is not in spinlock.c.  One more pop
    than pushes is fatal; otherwise the depth drops by one and, when it
    reaches 0, interrupts are enabled again if they were enabled before
    the first push. *)
Definition popcli (c : cpuid) (st : kstate) : outcome kstate :=
  let k := cpus st c in
  match ncli k with
  | O => Panic "popcli"
  | S d =>
      let fl := if Nat.eqb d 0 then (intena k || iflag k)%bool else iflag k in
      Done (set_cpus (upd_cpu c (mk_cpu d (intena k) fl) (cpus st)) st)
  end.

(** Modelled from the spec: [safestrcpy] is not in spinlock.c.  The
    statistics record keeps a bounded-length copy of the name: at most
    [n - 1] characters fit before the terminating NUL. *)
Fixpoint strtake (k : nat) (t : string) : string :=
  match k, t with
  | S k', String a t' => String a (strtake k' t')
  | _, _ => EmptyString
  end.
Definition safestrcpy (t : string) (n : nat) : string := strtake (Nat.pred n) t.

(** Modelled from the spec: the list macros of <sys/queue.h> are not in
    spinlock.c.  The registry is the list of its nodes, head first;
    [LIST_INSERT_HEAD] is a cons, and [LIST_REMOVE] unlinks the one node
    [p], leaving the others in their order. *)
Definition LIST_REMOVE (p : ptr) (l : list ptr) : list ptr :=
  filter (fun q => q <> p) l.

(** Modelled from the spec: the command codes [LOCKSTAT_START],
    [LOCKSTAT_STOP] and [LOCKSTAT_CLEAR] come from a header that is not
    part of the sources; the specification gives them as 0, 1 and 2. *)
Definition LOCKSTAT_START : Z := 0.
Definition LOCKSTAT_STOP : Z := 1.
Definition LOCKSTAT_CLEAR : Z := 2.

(** The character constant ['0']. *)
Definition ascii_zero : Z := 48.

Section Spinlock.

(** Build parameters.  [SPINLOCK_DEBUG] is the preprocessor switch;
    [NCPU] is the length of the per-CPU array of a record, [NAMESZ] the
    size of its name field and [sz] is [sizeof(struct lockstat)]: the
    headers that fix them are not part of the sources. *)
Variable SPINLOCK_DEBUG : bool.
Variable NCPU : nat.
Variable NAMESZ : nat.
Variable sz : Z.

(** [getcallerpcs] captures the return addresses of the caller; the
    captured chain is whatever this function yields for the CPU. *)
Variable getcallerpcs : cpuid -> list Z.

(** [kmalloc] either fails ([None], the null pointer) or yields the
    address of a block for a record. *)
Variable kmalloc : gmap ptr klockstat -> option ptr.

(** ** The lock *)

(** [holding]: [lock->locked && lock->cpu == mycpu()]. *)
Definition holding (lock : spinlock) (c : cpuid) : bool :=
  negb (lk_locked lock =? 0)%Z && bool_decide (lk_cpu lock = Some c).

(** [locking]: the debugging build refuses a lock the CPU holds already.
    [mtlock] only emits a trace record. *)
Definition locking (c : cpuid) (lk : spinlock) : outcome unit :=
  if SPINLOCK_DEBUG && holding lk c then Panic "acquire" else Done tt.

(** [lk->stat->s.cpu[cpunum()].acquires++] *)
Definition count_acquire (c : cpuid) (p : ptr) (st : kstate) : outcome kstate :=
  match kmem st !! p with
  | None => Fault
  | Some k =>
      match ls_cpu (s k) !! c with
      | None => Fault
      | Some e =>
          let e' := mk_cpulockstat (u64 (acquires e + 1)) in
          let k' := mk_klockstat (active k)
                      (mk_lockstat (ls_name (s k)) (<[c := e']> (ls_cpu (s k)))) in
          Done (set_kmem (<[p := k']> (kmem st)) st)
      end
  end.

(** [locked]: bookkeeping after the exchange has won the lock
    ([mtacquired] only emits a trace record). *)
Definition locked (c : cpuid) (lk : spinlock) (st : kstate)
  : outcome (spinlock * kstate) :=
  let lk1 := if SPINLOCK_DEBUG
             then set_pcs (getcallerpcs c) (set_cpu (Some c) lk)
             else lk in
  if negb (lockstat_enable st =? 0)%Z then
    match lk_stat lk1 with
    | Some p => st' ← count_acquire c p st; Done (lk1, st')
    | None => Done (lk1, st)
    end
  else Done (lk1, st).

(** [releasing]: the debugging build refuses to release a lock the CPU
    does not hold, then clears the owner record ([mtunlock] only emits a
    trace record, [cprintf] only prints). *)
Definition releasing (c : cpuid) (lk : spinlock) : outcome spinlock :=
  if SPINLOCK_DEBUG then
    if negb (holding lk c) then Panic "release"
    else Done (set_cpu None (set_pcs (<[0%nat := 0%Z]> (lk_pcs lk)) lk))
  else Done lk.

(** [initlock]: a free lock without statistics; the debugging build also
    records the name and clears the owner. *)
Definition initlock (lk : spinlock) (name : string) : spinlock :=
  let lk1 := if SPINLOCK_DEBUG then set_cpu None (set_name name lk) else lk in
  set_locked 0 (set_stat None lk1).

(** [tryacquire], run by CPU [c]: one exchange, then either [popcli] and
    0 or [locked] and 1. *)
Definition tryacquire (c : cpuid) (lk : spinlock) (st : kstate)
  : outcome (Z * spinlock * kstate) :=
  let st1 := pushcli c st in
  _ ← locking c lk;
  let '(old, w, st2) := xchg32 (lk_locked lk) 1 st1 in
  let lk1 := set_locked w lk in
  if negb (old =? 0)%Z then
    st3 ← popcli c st2; Done (0%Z, lk1, st3)
  else
    '(lk2, st3) ← locked c lk1 st2; Done (1%Z, lk2, st3).

(** The loop [while(xchg32(&lk->locked, 1) != 0) ;] of [acquire]. *)
Fixpoint acquire_loop (fuel : nat) (lk : spinlock) (st : kstate)
  : outcome (spinlock * kstate) :=
  match fuel with
  | O => Spin
  | S fuel' =>
      let '(old, w, st1) := xchg32 (lk_locked lk) 1 st in
      let lk1 := set_locked w lk in
      if negb (old =? 0)%Z then acquire_loop fuel' lk1 st1
      else Done (lk1, st1)
  end.

(** [acquire], run by CPU [c] with [fuel] turns of the loop at most. *)
Definition acquire (fuel : nat) (c : cpuid) (lk : spinlock) (st : kstate)
  : outcome (spinlock * kstate) :=
  let st1 := pushcli c st in
  _ ← locking c lk;
  '(lk1, st2) ← acquire_loop fuel lk st1;
  locked c lk1 st2.

(** [release], run by CPU [c]. *)
Definition release (c : cpuid) (lk : spinlock) (st : kstate)
  : outcome (spinlock * kstate) :=
  lk1 ← releasing c lk;
  let '(_, w, st1) := xchg32 (lk_locked lk1) 0 st in
  st2 ← popcli c st1;
  Done (set_locked w lk1, st2).

(** ** Lock statistics *)

(** [&lockstat_lock]: run an operation on the registry lock, which lives
    in the kernel state, and store the lock back. *)
Definition on_lockstat_lock
    (f : spinlock -> kstate -> outcome (spinlock * kstate)) (st : kstate)
  : outcome kstate :=
  '(l, st1) ← f (lockstat_lock st) st; Done (set_lockstat_lock l st1).

(** [memset] of the whole new record: every byte of it is zero. *)
Definition zero_klockstat : klockstat :=
  mk_klockstat 0 (mk_lockstat EmptyString (replicate NCPU (mk_cpulockstat 0))).

(** [memset(&stat->s.cpu, 0, sizeof(stat->s.cpu))] *)
Definition zero_cpu (k : klockstat) : klockstat :=
  mk_klockstat (active k)
    (mk_lockstat (ls_name (s k))
       (replicate (length (ls_cpu (s k))) (mk_cpulockstat 0))).

(** [lockstat_init]: attach a fresh record to the lock and link it at
    the head of the registry. *)
Definition lockstat_init (fuel : nat) (c : cpuid) (lk : spinlock) (st : kstate)
  : outcome (spinlock * kstate) :=
  match lk_stat lk with
  | Some _ => Panic "initlockstat"
  | None =>
      match kmalloc (kmem st) with
      | None => Done (set_stat None lk, st)
      | Some p =>
          let lk1 := set_stat (Some p) lk in
          let k1 := mk_klockstat 1 (s zero_klockstat) in
          let k2 := mk_klockstat (active k1)
                      (mk_lockstat (safestrcpy (lk_name lk1) NAMESZ)
                                   (ls_cpu (s k1))) in
          let st1 := set_kmem (<[p := k2]> (kmem st)) st in
          st2 ← on_lockstat_lock (acquire fuel c) st1;
          let st3 := set_list (p :: lockstat_list st2) st2 in
          st4 ← on_lockstat_lock (release c) st3;
          Done (lk1, st4)
      end
  end.

(** [lockstat_stop]: mark the record inactive and drop the link; the
    record stays in the registry. *)
Definition lockstat_stop (lk : spinlock) (st : kstate)
  : outcome (spinlock * kstate) :=
  match lk_stat lk with
  | Some p =>
      match kmem st !! p with
      | None => Fault
      | Some k =>
          Done (set_stat None lk,
                set_kmem (<[p := mk_klockstat 0 (s k)]> (kmem st)) st)
      end
  | None => Done (lk, st)
  end.

(** The body of [LIST_FOREACH_SAFE] in [lockstat_clear], run over the
    nodes that were linked when the loop started.  [kmfree] gives the
    block back: the address holds no record any more. *)
Fixpoint lockstat_clear_loop (l : list ptr) (st : kstate) : outcome kstate :=
  match l with
  | [] => Done st
  | p :: tmp =>
      match kmem st !! p with
      | None => Fault
      | Some k =>
          if (active k =? 0)%Z then
            lockstat_clear_loop tmp
              (set_kmem (delete p (kmem st))
                 (set_list (LIST_REMOVE p (lockstat_list st)) st))
          else
            lockstat_clear_loop tmp
              (set_kmem (<[p := zero_cpu k]> (kmem st)) st)
      end
  end.

(** [lockstat_clear]: the sweep, under the registry lock. *)
Definition lockstat_clear (fuel : nat) (c : cpuid) (st : kstate)
  : outcome kstate :=
  st1 ← on_lockstat_lock (acquire fuel c) st;
  st2 ← lockstat_clear_loop (lockstat_list st1) st1;
  on_lockstat_lock (release c) st2.

(** The destination of a read: [dst] is the distance the pointer has
    moved, [out] the records [memmove] has written, first one first. *)
Record rdbuf := mk_rdbuf { dst : Z; out : list lockstat }.

(** The body of [LIST_FOREACH] in [lockstat_read]; the result carries
    the buffer and the final values of [n] and [cur]. *)
Fixpoint lockstat_read_loop (l : list ptr) (m : gmap ptr klockstat)
    (off : Z) (b : rdbuf) (n cur : Z) : outcome (rdbuf * Z * Z) :=
  match l with
  | [] => Done (b, n, cur)
  | p :: l' =>
      if (n <? sz)%Z then Done (b, n, cur)
      else if (off <=? cur)%Z then
        match m !! p with
        | None => Fault
        | Some k =>
            lockstat_read_loop l' m off
              (mk_rdbuf (dst b + sz) (out b ++ [s k]))
              (u32 (n - sz)) (u32 (cur + sz))
        end
      else lockstat_read_loop l' m off b n (u32 (cur + sz))
  end.

(** [lockstat_read]; the inode argument is not used.  The result is the
    [int] returned, what was written to the destination, and the state. *)
Definition lockstat_read (fuel : nat) (c : cpuid) (off n : Z) (st : kstate)
  : outcome (Z * rdbuf * kstate) :=
  if (negb (off mod sz =? 0) || (n <? sz))%Z then
    Done ((-1)%Z, mk_rdbuf 0 [], st)
  else
    st1 ← on_lockstat_lock (acquire fuel c) st;
    '(b, _, cur) ← lockstat_read_loop (lockstat_list st1) (kmem st1) off
                      (mk_rdbuf 0 []) n 0%Z;
    st2 ← on_lockstat_lock (release c) st1;
    Done (to_int (if (off <=? cur)%Z then u32 (cur - off) else 0%Z), b, st2).

(** [lockstat_write]; the inode argument and [off] are not used, and
    only [buf[0]] is read. *)
Definition lockstat_write (fuel : nat) (c : cpuid) (buf : list Z) (off n : Z)
    (st : kstate) : outcome (Z * kstate) :=
  match buf with
  | [] => Fault
  | b0 :: _ =>
      let cmd := (b0 - ascii_zero)%Z in
      if (cmd =? LOCKSTAT_START)%Z then Done (to_int n, set_enable 1 st)
      else if (cmd =? LOCKSTAT_STOP)%Z then Done (to_int n, set_enable 0 st)
      else if (cmd =? LOCKSTAT_CLEAR)%Z then
        st1 ← lockstat_clear fuel c st; Done (to_int n, st1)
      else Done ((-1)%Z, st)
  end.

(** [initlockstat] only stores [lockstat_write] and [lockstat_read] in
    the device switch table, which the sources do not contain; a write
    to or a read of the device is a call of the function. *)

(** ** Concurrent callers of one lock

    Several CPUs run [acquire], [tryacquire] and [release] on one lock.
    A configuration holds the lock, the kernel state and, for each CPU,
    the point its call has reached.  Every step is one atomic action of
    one CPU: the exchange is atomic by the contract of [xchg32], and the
    code around it touches fields that only the CPU at that point
    writes.  A CPU calls [release] only after its own [acquire] or
    successful [tryacquire] has returned. *)
Inductive pc : Type :=
| Outside      (* in no call on this lock, not holding it *)
| AcqSpin      (* acquire: pushcli and locking done, at the exchange *)
| TrySpin      (* tryacquire: pushcli and locking done, at the exchange *)
| TryFailed    (* tryacquire: the exchange read nonzero, at popcli *)
| Won          (* the exchange read 0, at locked *)
| Critical     (* acquire or tryacquire has returned, release not begun *)
| RelChecked   (* release: releasing done, at the exchange *)
| RelCleared.  (* release: the exchange done, at popcli *)

Record conf := mk_conf {
  the_lock : spinlock;
  kernel : kstate;
  at_pc : cpuid -> pc
}.

Definition upd_pc (c : cpuid) (x : pc) (f : cpuid -> pc) : cpuid -> pc :=
  fun c' => if Nat.eqb c' c then x else f c'.

Inductive step : conf -> conf -> Prop :=
| step_acquire_call c lk st f :
    f c = Outside ->
    locking c lk = Done tt ->
    step (mk_conf lk st f) (mk_conf lk (pushcli c st) (upd_pc c AcqSpin f))
| step_acquire_xchg c lk st f old w st' :
    f c = AcqSpin ->
    xchg32 (lk_locked lk) 1 st = (old, w, st') ->
    step (mk_conf lk st f)
         (mk_conf (set_locked w lk) st'
            (upd_pc c (if negb (old =? 0)%Z then AcqSpin else Won) f))
| step_try_call c lk st f :
    f c = Outside ->
    locking c lk = Done tt ->
    step (mk_conf lk st f) (mk_conf lk (pushcli c st) (upd_pc c TrySpin f))
| step_try_xchg c lk st f old w st' :
    f c = TrySpin ->
    xchg32 (lk_locked lk) 1 st = (old, w, st') ->
    step (mk_conf lk st f)
         (mk_conf (set_locked w lk) st'
            (upd_pc c (if negb (old =? 0)%Z then TryFailed else Won) f))
| step_try_popcli c lk st f st' :
    f c = TryFailed ->
    popcli c st = Done st' ->
    step (mk_conf lk st f) (mk_conf lk st' (upd_pc c Outside f))
| step_locked c lk st f lk' st' :
    f c = Won ->
    locked c lk st = Done (lk', st') ->
    step (mk_conf lk st f) (mk_conf lk' st' (upd_pc c Critical f))
| step_release_call c lk st f lk' :
    f c = Critical ->
    releasing c lk = Done lk' ->
    step (mk_conf lk st f) (mk_conf lk' st (upd_pc c RelChecked f))
| step_release_xchg c lk st f old w st' :
    f c = RelChecked ->
    xchg32 (lk_locked lk) 0 st = (old, w, st') ->
    step (mk_conf lk st f) (mk_conf (set_locked w lk) st' (upd_pc c RelCleared f))
| step_release_popcli c lk st f st' :
    f c = RelCleared ->
    popcli c st = Done st' ->
    step (mk_conf lk st f) (mk_conf lk st' (upd_pc c Outside f)).

(** A run starts with the lock free and every CPU outside. *)
Definition initial (x : conf) : Prop :=
  lk_locked (the_lock x) = 0%Z /\ forall c, at_pc x c = Outside.

Inductive reachable : conf -> Prop :=
| reach_init x : initial x -> reachable x
| reach_step x y : reachable x -> step x y -> reachable y.

(** The CPUs that own the lock: from the winning exchange up to the
    exchange of [release]. *)
Definition owns (x : pc) : bool :=
  match x with
  | Won | Critical | RelChecked => true
  | _ => false
  end.

Definition lock_inv (x : conf) : Prop :=
  (forall c1 c2, owns (at_pc x c1) = true -> owns (at_pc x c2) = true -> c1 = c2)
  /\ (forall c, owns (at_pc x c) = true -> lk_locked (the_lock x) <> 0%Z).

(** ** Compositions of calls

    What a client of the file does with it: it reads the device, it
    takes and gives back a lock a number of times, it issues calls one
    after the other. *)

(** The records of the registry, head first: the [struct lockstat] part
    of every linked node. *)
Definition registry_records (st : kstate) : list lockstat :=
  omap (fun p => s <$> kmem st !! p) (lockstat_list st).

(** [rounds] times [acquire] and then [release] of one lock by CPU [c]. *)
Fixpoint acquire_release (rounds fuel : nat) (c : cpuid) (lk : spinlock)
    (st : kstate) : outcome (spinlock * kstate) :=
  match rounds with
  | O => Done (lk, st)
  | S rounds' =>
      '(lk1, st1) ← acquire fuel c lk st;
      '(lk2, st2) ← release c lk1 st1;
      acquire_release rounds' fuel c lk2 st2
  end.

(** Client locks live in memory and a program names them by address:
    the store of a world holds the [struct spinlock] at each address in
    use. *)
Definition lockid := nat.

Record world := mk_world {
  locks : gmap lockid spinlock;
  kern : kstate
}.

(** A call of one of the functions of the file, with its arguments. *)
Inductive call : Type :=
| call_initlock (l : lockid) (name : string)
| call_acquire (fuel : nat) (c : cpuid) (l : lockid)
| call_tryacquire (c : cpuid) (l : lockid)
| call_release (c : cpuid) (l : lockid)
| call_lockstat_init (fuel : nat) (c : cpuid) (l : lockid)
| call_lockstat_stop (l : lockid)
| call_lockstat_clear (fuel : nat) (c : cpuid)
| call_lockstat_read (fuel : nat) (c : cpuid) (off n : Z)
| call_lockstat_write (fuel : nat) (c : cpuid) (buf : list Z) (off n : Z).

(** Run a function on the lock at address [l] and store the lock back;
    an address that holds no lock is a wild pointer. *)
Definition on_lock (l : lockid)
    (f : spinlock -> kstate -> outcome (spinlock * kstate)) (w : world)
  : outcome world :=
  match locks w !! l with
  | None => Fault
  | Some lk =>
      '(lk', st') ← f lk (kern w);
      Done (mk_world (<[l := lk']> (locks w)) st')
  end.

(** Run a function that takes no lock argument. *)
Definition on_kernel (f : kstate -> outcome kstate) (w : world) : outcome world :=
  st' ← f (kern w); Done (mk_world (locks w) st').

(** The world a call leaves behind (results are dropped). *)
Definition do_call (k : call) (w : world) : outcome world :=
  match k with
  | call_initlock l name => on_lock l (fun lk st => Done (initlock lk name, st)) w
  | call_acquire fuel c l => on_lock l (acquire fuel c) w
  | call_tryacquire c l =>
      on_lock l (fun lk st => '(_, lk', st') ← tryacquire c lk st; Done (lk', st')) w
  | call_release c l => on_lock l (release c) w
  | call_lockstat_init fuel c l => on_lock l (lockstat_init fuel c) w
  | call_lockstat_stop l => on_lock l lockstat_stop w
  | call_lockstat_clear fuel c => on_kernel (lockstat_clear fuel c) w
  | call_lockstat_read fuel c off n =>
      on_kernel (fun st => snd <$> lockstat_read fuel c off n st) w
  | call_lockstat_write fuel c buf off n =>
      on_kernel (fun st => snd <$> lockstat_write fuel c buf off n st) w
  end.

(** Calls one after the other; the first that does not return ends the
    run. *)
Fixpoint do_calls (ks : list call) (w : world) : outcome world :=
  match ks with
  | [] => Done w
  | k :: ks' => w1 ← do_call k w; do_calls ks' w1
  end.

(** ** Predicates used in the statements *)

(** The value of a [u32] argument. *)
Definition is_u32 (z : Z) : Prop := (0 <= z < 2 ^ 32)%Z.

(** The statistics link of a lock addresses a live record with a
    counter for the CPU (needed only while collection is on). *)
Definition stat_live (c : cpuid) (lk : spinlock) (st : kstate) : Prop :=
  lockstat_enable st <> 0%Z ->
  forall p, lk_stat lk = Some p ->
    exists k e, kmem st !! p = Some k /\ ls_cpu (s k) !! c = Some e.

(** The statistics data: records, registry and the collection switch. *)
Definition same_stats (st st' : kstate) : Prop :=
  kmem st' = kmem st /\ lockstat_list st' = lockstat_list st
  /\ lockstat_enable st' = lockstat_enable st.

(** The registry lock is free and carries no statistics of its own. *)
Definition registry_idle (st : kstate) : Prop :=
  lk_locked (lockstat_lock st) = 0%Z /\ lk_stat (lockstat_lock st) = None.

(** The CPU holds the registry lock, [d] nesting levels below. *)
Definition registry_held (c : cpuid) (d : nat) (st : kstate) : Prop :=
  lk_locked (lockstat_lock st) = 1%Z /\ lk_stat (lockstat_lock st) = None
  /\ (SPINLOCK_DEBUG = true -> lk_cpu (lockstat_lock st) = Some c)
  /\ ncli (cpus st c) = S d.

(** The registry between two calls: its lock is free, no node is linked
    twice, and every linked node is a live record.  The empty registry
    has these properties and every function of the file that returns
    keeps them ([registry_wf_st0] and the [_wf] lemmas below). *)
Definition registry_wf (st : kstate) : Prop :=
  registry_idle st
  /\ NoDup (lockstat_list st)
  /\ (forall p, p ∈ lockstat_list st -> is_Some (kmem st !! p)).

(** The size of the serialized registry: one record per linked node. *)
Definition registry_bytes (st : kstate) : Z :=
  (Z.of_nat (length (lockstat_list st)) * sz)%Z.

(** What the sweep does to one registered record: an inactive record is
    freed, an active one keeps its name and flag and has its counters
    zeroed. *)
Definition clear_record (k : klockstat) : option klockstat :=
  if (active k =? 0)%Z then None else Some (zero_cpu k).

(** The record at [p] exists and is marked inactive. *)
Definition inactive (m : gmap ptr klockstat) (p : ptr) : bool :=
  match m !! p with
  | Some k => (active k =? 0)%Z
  | None => false
  end.

(** The record [k] after CPU [c] has counted one more acquisition on top
    of the entry [e] it had. *)
Definition counted (c : cpuid) (k : klockstat) (e : cpulockstat) : klockstat :=
  mk_klockstat (active k)
    (mk_lockstat (ls_name (s k))
       (<[c := mk_cpulockstat (u64 (acquires e + 1))]> (ls_cpu (s k)))).

(** [g] is [f] with CPU [c] moved to the point [x]. *)
Definition at_only (c : cpuid) (x : pc) (f g : cpuid -> pc) : Prop :=
  forall c', g c' = if Nat.eqb c' c then x else f c'.

(** Two records agree on what the sweep and the counters rely on: the
    [active] flag, the name and the number of per-CPU entries. *)
Definition rec_like (k k' : klockstat) : Prop :=
  active k' = active k /\ ls_name (s k') = ls_name (s k)
  /\ length (ls_cpu (s k')) = length (ls_cpu (s k)).

(** From the heap [m] to the heap [m']: no record has appeared, a
    record has disappeared only if it was marked inactive, and a record
    that is still there agrees with what it was in the sense of
    [rec_like]. *)
Definition kmem_keeps (m m' : gmap ptr klockstat) : Prop :=
  forall p,
    match m !! p, m' !! p with
    | Some k, Some k' => rec_like k k'
    | Some k, None => active k = 0%Z
    | None, Some _ => False
    | None, None => True
    end.

(** The statistics data from one state to a later one: the heap is kept
    in the sense of [kmem_keeps] and every active record of the registry
    is still linked. *)
Definition stats_keep (st st' : kstate) : Prop :=
  kmem_keeps (kmem st) (kmem st')
  /\ forall q k, q ∈ lockstat_list st -> kmem st !! q = Some k ->
       active k <> 0%Z -> q ∈ lockstat_list st'.

(** A world between two calls: the registry is well formed, every
    record has one entry per CPU, the statistics link of every lock
    addresses a live record that is marked active, and no two locks
    share a record. *)
Definition world_wf (w : world) : Prop :=
  registry_wf (kern w)
  /\ (forall p k, kmem (kern w) !! p = Some k -> length (ls_cpu (s k)) = NCPU)
  /\ (forall l lk p, locks w !! l = Some lk -> lk_stat lk = Some p ->
        exists k, kmem (kern w) !! p = Some k /\ active k <> 0%Z)
  /\ (forall l1 l2 lk1 lk2 p,
        locks w !! l1 = Some lk1 -> locks w !! l2 = Some lk2 ->
        lk_stat lk1 = Some p -> lk_stat lk2 = Some p -> l1 = l2).

(** Every statistics link of the later world was there before. *)
Definition links_shrink (w w' : world) : Prop :=
  forall l lk' p, locks w' !! l = Some lk' -> lk_stat lk' = Some p ->
    exists lk, locks w !! l = Some lk /\ lk_stat lk = Some p.

(** The record at [p], which was [k], is still linked in the registry
    of [w] with its flag, name and number of counters, and no lock is
    linked to it. *)
Definition orphaned (p : ptr) (k : klockstat) (w : world) : Prop :=
  p ∈ lockstat_list (kern w)
  /\ (exists k', kmem (kern w) !! p = Some k' /\ rec_like k k')
  /\ forall l lk, locks w !! l = Some lk -> lk_stat lk <> Some p.

(** The block [kmalloc] hands out is not in use. *)
Definition kmalloc_unused : Prop :=
  forall m p, kmalloc m = Some p -> m !! p = None.

(** The arguments of a call are valid: a lock argument addresses a lock,
    the CPU of an acquisition is one of the [NCPU] CPUs, and the buffer
    of a write holds at least the command byte. *)
Definition call_ok (w : world) (k : call) : Prop :=
  match k with
  | call_initlock l _ | call_release _ l | call_lockstat_init _ _ l
  | call_lockstat_stop l => is_Some (locks w !! l)
  | call_acquire _ c l | call_tryacquire c l => is_Some (locks w !! l) /\ c < NCPU
  | call_lockstat_clear _ _ | call_lockstat_read _ _ _ _ => True
  | call_lockstat_write _ _ buf _ _ => buf <> []
  end.

(** The debugging record and the interrupt nesting in a run of several
    CPUs: in a debugging build the owner recorded in the lock is the CPU
    that is in its critical section, if there is one, and no other CPU;
    and a CPU that is inside a call has pushed interrupts off. *)
Definition owner_inv (x : conf) : Prop :=
  (SPINLOCK_DEBUG = true ->
     forall c, lk_cpu (the_lock x) = Some c <-> at_pc x c = Critical)
  /\ (forall c, at_pc x c <> Outside -> ncli (cpus (kernel x) c) <> 0).

(** ** Sample data *)

(** A kernel at rest: interrupts enabled, no nesting, collection off, an
    empty registry, the registry lock free. *)
Definition idle_cpu : cpu_t := mk_cpu 0 false true.
Definition lockstat_lock0 : spinlock := mk_spinlock 0 "lockstat" None [] None.
Definition st0 : kstate := mk_kstate (fun _ => idle_cpu) 0 [] lockstat_lock0 ∅ 0.

(** A free lock that is not tracked. *)
Definition free_lock : spinlock := mk_spinlock 0 "cons" None [0%Z] None.

(** No caller addresses are captured. *)
Definition no_pcs : cpuid -> list Z := fun _ => [].

(** An allocator that always hands out address 3, and one that is out
    of memory. *)
Definition kmalloc_3 : gmap ptr klockstat -> option ptr := fun _ => Some 3%positive.
Definition kmalloc_fail : gmap ptr klockstat -> option ptr := fun _ => None.

(** A registry of two records on a machine with two CPUs: the record at
    address 1 belongs to a lock that is still tracked, the one at
    address 2 was detached by [lockstat_stop].  Collection is off. *)
Definition rec_live : klockstat :=
  mk_klockstat 1 (mk_lockstat "cons" [mk_cpulockstat 5; mk_cpulockstat 0]).
Definition rec_dead : klockstat :=
  mk_klockstat 0 (mk_lockstat "old" [mk_cpulockstat 7; mk_cpulockstat 9]).
Definition kmem2 : gmap ptr klockstat :=
  <[1%positive := rec_live]> (<[2%positive := rec_dead]> ∅).
Definition st2 : kstate :=
  mk_kstate (fun _ => idle_cpu) 0 [2%positive; 1%positive] lockstat_lock0 kmem2 0.

(** The lock that owns the record at address 1. *)
Definition tracked_lock : spinlock :=
  mk_spinlock 0 "cons" None [0%Z] (Some 1%positive).

(** A run of a debugging build: CPU 0 calls [acquire] on the free lock,
    wins the exchange and returns; then CPU 1 calls [acquire]. *)
Definition run0 : conf := mk_conf free_lock st0 (fun _ => Outside).
Definition run1 : conf :=
  mk_conf free_lock (pushcli 0 st0) (upd_pc 0 AcqSpin (at_pc run0)).
Definition run2 : conf :=
  mk_conf (set_locked 1 free_lock) (set_xchgs 1 (kernel run1))
          (upd_pc 0 Won (at_pc run1)).
Definition run3 : conf :=
  mk_conf (set_pcs [] (set_cpu (Some 0%nat) (the_lock run2))) (kernel run2)
          (upd_pc 0 Critical (at_pc run2)).
Definition run4 : conf :=
  mk_conf (the_lock run3) (pushcli 1 (kernel run3))
          (upd_pc 1 AcqSpin (at_pc run3)).

(** The lock and the kernel after that [acquire] of CPU 0: the lock word
    is 1, CPU 0 is the recorded owner and its nesting depth is 1. *)
Definition held_by_0 : spinlock := the_lock run3.
Definition st_held : kstate := kernel run3.

(** A registry of 2^25 records, all live, at the addresses 1 to 2^25:
    with records of 64 bytes it serializes to 2^31 bytes. *)
Definition big_count : nat := Z.to_nat (2 ^ 25).
Definition big_list : list ptr := Pos.of_succ_nat <$> seq 0 big_count.
Definition big_kmem : gmap ptr klockstat :=
  gset_to_gmap rec_live (list_to_set big_list).
Definition st_big : kstate :=
  mk_kstate (fun _ => idle_cpu) 0 big_list lockstat_lock0 big_kmem 0.

(** An allocator that hands out an address no record lives at. *)
Definition kmalloc_fresh : gmap ptr klockstat -> option ptr :=
  fun m => Some (fresh (dom m)).

(** A world with one lock, at address 0, in a kernel at rest. *)
Definition w0 : world := mk_world {[ 0%nat := free_lock ]} st0.

(** A session on that lock: initialise and track it, switch collection
    on, take and give back the lock, read the device, stop tracking and
    clear. *)
Definition session : list call :=
  [ call_initlock 0 "cons";
    call_lockstat_init 1 0 0;
    call_lockstat_write 1 0 [48%Z] 0 1;
    call_acquire 1 0 0;
    call_release 0 0;
    call_lockstat_read 1 0 0 64;
    call_lockstat_stop 0;
    call_lockstat_write 1 0 [50%Z] 0 1 ].

(** A session that re-initialises the tracked lock instead of stopping
    the tracking, and then clears. *)
Definition leaky_session : list call :=
  [ call_lockstat_init 1 0 0;
    call_initlock 0 "cons";
    call_lockstat_write 1 0 [50%Z] 0 1 ].

(** The same lock in a kernel that has the two-record registry: the
    record at address 1 is active and no lock is linked to it. *)
Definition w_orphan : world := mk_world {[ 0%nat := free_lock ]} st2.

(** The two-record registry with collection switched on. *)
Definition st2_on : kstate := set_enable 1 st2.

(** ** Properties *)

Lemma upd_cpu_same c k f : upd_cpu c k f c = k.
Proof. unfold upd_cpu. by rewrite Nat.eqb_refl. Qed.

Lemma upd_cpu_other c c' k f : c' <> c -> upd_cpu c k f c' = f c'.
Proof.
  intros Hne. unfold upd_cpu.
  destruct (Nat.eqb_spec c' c) as [->|_]; [done | reflexivity].
Qed.

Lemma ncli_pushcli c st : ncli (cpus (pushcli c st) c) = S (ncli (cpus st c)).
Proof. unfold pushcli. simpl. by rewrite upd_cpu_same. Qed.

Lemma popcli_pushed c st d :
  ncli (cpus st c) = S d ->
  exists st', popcli c st = Done st'
    /\ ncli (cpus st' c) = d
    /\ (forall c', c' <> c -> cpus st' c' = cpus st c')
    /\ kmem st' = kmem st /\ xchgs st' = xchgs st
    /\ lockstat_enable st' = lockstat_enable st
    /\ lockstat_list st' = lockstat_list st
    /\ lockstat_lock st' = lockstat_lock st.
Proof.
  intros Hd. unfold popcli. rewrite Hd. eexists. split; [reflexivity |].
  simpl. rewrite upd_cpu_same. simpl.
  repeat split; try reflexivity.
  intros c' Hne. by rewrite upd_cpu_other.
Qed.

Lemma u32_small z : (0 <= z < 2 ^ 32)%Z -> u32 z = z.
Proof. intros H. unfold u32. by apply Z.mod_small. Qed.

Lemma locking_Done c lk :
  (SPINLOCK_DEBUG = true -> holding lk c = false) -> locking c lk = Done tt.
Proof.
  intros H. unfold locking. destruct SPINLOCK_DEBUG; [| reflexivity].
  by rewrite H.
Qed.

Lemma holding_free c lk : lk_locked lk = 0%Z -> holding lk c = false.
Proof. intros H. unfold holding. by rewrite H. Qed.

(** [locked] returns when the statistics link is live; it leaves the
    lock word, the nesting depths and the exchange count alone, and in a
    debugging build it records the CPU as the owner. *)
Lemma locked_Done c lk st :
  stat_live c lk st ->
  exists lk' st', locked c lk st = Done (lk', st')
    /\ lk_locked lk' = lk_locked lk
    /\ lk_stat lk' = lk_stat lk
    /\ lk_name lk' = lk_name lk
    /\ (SPINLOCK_DEBUG = true -> lk_cpu lk' = Some c)
    /\ cpus st' = cpus st /\ xchgs st' = xchgs st
    /\ lockstat_enable st' = lockstat_enable st
    /\ lockstat_list st' = lockstat_list st
    /\ lockstat_lock st' = lockstat_lock st
    /\ ((lockstat_enable st = 0%Z \/ lk_stat lk = None) -> kmem st' = kmem st).
Proof.
  intros Hlive. unfold locked.
  set (lk1 := if SPINLOCK_DEBUG then _ else lk).
  assert (Hlk1 : lk_locked lk1 = lk_locked lk /\ lk_stat lk1 = lk_stat lk
                 /\ lk_name lk1 = lk_name lk
                 /\ (SPINLOCK_DEBUG = true -> lk_cpu lk1 = Some c)).
  { subst lk1. destruct SPINLOCK_DEBUG; simpl; repeat split; done. }
  destruct Hlk1 as (H1 & H2 & H3 & H4).
  destruct (Z.eqb_spec (lockstat_enable st) 0) as [He|He]; simpl.
  { exists lk1, st. repeat split; auto. }
  rewrite H2. destruct (lk_stat lk) as [p|] eqn:Hp.
  - destruct (Hlive He p Hp) as (k & e & Hk & Hc).
    unfold count_acquire. rewrite Hk, Hc. simpl.
    eexists _, _. split; [reflexivity |].
    repeat split; auto. intros [?|?]; [done | discriminate].
  - exists lk1, st. repeat split; auto.
Qed.

(** C2 (as amended): when a debugging build finds that the calling CPU
    holds the lock already, [tryacquire] stops in the fatal error
    "acquire" before any exchange.  In every other case it executes
    exactly one atomic exchange and returns, without a loop.  If the
    exchange reads a nonzero value the result is 0, the lock word stays
    set, and the interrupt nesting depth of the CPU is what it was
    before the call.  If it reads 0 the result is 1, the lock word is 1,
    the depth is one more than before and, in a debugging build, the CPU
    is recorded as the holder. *)
Theorem tryacquire_single_exchange (c : cpuid) (lk : spinlock) (st : kstate) :
  (SPINLOCK_DEBUG = true -> holding lk c = true ->
     tryacquire c lk st = Panic "acquire")
  /\ ((SPINLOCK_DEBUG = true -> holding lk c = false) ->
      (lk_locked lk <> 0%Z ->
         exists st', tryacquire c lk st = Done (0%Z, set_locked 1 lk, st')
           /\ xchgs st' = S (xchgs st)
           /\ ncli (cpus st' c) = ncli (cpus st c)
           /\ kmem st' = kmem st)
      /\ (lk_locked lk = 0%Z -> stat_live c lk st ->
         exists lk' st', tryacquire c lk st = Done (1%Z, lk', st')
           /\ lk_locked lk' = 1%Z
           /\ xchgs st' = S (xchgs st)
           /\ ncli (cpus st' c) = S (ncli (cpus st c))
           /\ (SPINLOCK_DEBUG = true -> holding lk' c = true))).
Proof.
  split.
  { intros Hd Hh. unfold tryacquire, locking. by rewrite Hd, Hh. }
  intros Hdbg. split.
  - intros Hheld. unfold tryacquire.
    rewrite (locking_Done _ _ Hdbg). simpl.
    destruct (Z.eqb_spec (lk_locked lk) 0) as [|_]; [done |]. simpl.
    change (u32 1) with 1%Z.
    match goal with |- context [popcli c ?x] =>
      destruct (popcli_pushed c x (ncli (cpus st c)))
        as (st' & Hpop & Hn & _ & Hm & Hx & _)
    end.
    { simpl. by rewrite upd_cpu_same. }
    exists st'. rewrite Hpop. simpl. repeat split; auto.
  - intros Hfree Hlive. unfold tryacquire.
    rewrite (locking_Done _ _ Hdbg). simpl.
    rewrite Hfree. simpl. change (u32 1) with 1%Z.
    match goal with |- context [locked c ?l ?x] =>
      destruct (locked_Done c l x)
        as (lk' & st' & Hl & Hw & _ & _ & Hown & Hcp & Hx & _)
    end.
    { intros He p Hp. apply (Hlive He p Hp). }
    exists lk', st'. rewrite Hl. simpl. repeat split; auto.
    + rewrite Hcp. simpl. by rewrite upd_cpu_same.
    + intros Hd. unfold holding. rewrite Hw, (Hown Hd). simpl.
      by rewrite bool_decide_eq_true_2.
Qed.

(** *** Sequential [acquire] and [release] *)

(** [initlock] yields a free lock that carries no statistics, whatever
    the lock was before. *)
Lemma initlock_free lk name :
  lk_locked (initlock lk name) = 0%Z /\ lk_stat (initlock lk name) = None
  /\ forall c, holding (initlock lk name) c = false.
Proof. unfold initlock. by destruct SPINLOCK_DEBUG. Qed.

Lemma same_stats_refl st : same_stats st st.
Proof. by repeat split. Qed.

Lemma same_stats_trans st1 st2 st3 :
  same_stats st1 st2 -> same_stats st2 st3 -> same_stats st1 st3.
Proof. intros (?&?&?) (?&?&?). repeat split; congruence. Qed.

(** With nobody else running, a held lock is never won: the loop uses up
    any fuel. *)
Lemma acquire_loop_held fuel lk st :
  lk_locked lk <> 0%Z -> acquire_loop fuel lk st = Spin.
Proof.
  revert lk st. induction fuel as [|fuel IH]; intros lk st Hheld; [reflexivity |].
  simpl. destruct (Z.eqb_spec (lk_locked lk) 0) as [|_]; [done |]. simpl.
  apply IH. simpl. by change (u32 1) with 1%Z.
Qed.

(** On a free lock the first exchange wins. *)
Lemma acquire_loop_free fuel lk st :
  lk_locked lk = 0%Z ->
  acquire_loop (S fuel) lk st = Done (set_locked 1 lk, set_xchgs (S (xchgs st)) st).
Proof. intros Hfree. simpl. rewrite Hfree. reflexivity. Qed.

Lemma acquire_free fuel c lk st :
  lk_locked lk = 0%Z -> stat_live c lk st ->
  exists lk' st', acquire (S fuel) c lk st = Done (lk', st')
    /\ lk_locked lk' = 1%Z
    /\ lk_stat lk' = lk_stat lk
    /\ lk_name lk' = lk_name lk
    /\ (SPINLOCK_DEBUG = true -> lk_cpu lk' = Some c)
    /\ ncli (cpus st' c) = S (ncli (cpus st c))
    /\ xchgs st' = S (xchgs st)
    /\ lockstat_enable st' = lockstat_enable st
    /\ lockstat_list st' = lockstat_list st
    /\ lockstat_lock st' = lockstat_lock st
    /\ ((lockstat_enable st = 0%Z \/ lk_stat lk = None) -> kmem st' = kmem st).
Proof.
  intros Hfree Hlive. unfold acquire.
  rewrite (locking_Done c lk (fun _ => holding_free c lk Hfree)).
  cbn [mbind outcome_mbind bind].
  rewrite (acquire_loop_free fuel _ _ Hfree). cbn [mbind outcome_mbind bind].
  match goal with |- context [locked c ?l ?x] =>
    destruct (locked_Done c l x)
      as (lk' & st' & Hl & Hw & Hs & Hnm & Hown & Hcp & Hx & He & Hli & Hll & Hm)
  end.
  { intros He p Hp. apply (Hlive He p Hp). }
  exists lk', st'. split; [exact Hl |].
  repeat split; auto.
  rewrite Hcp. simpl. by rewrite upd_cpu_same.
Qed.

(** An [acquire] that returns has found the lock free. *)
Lemma acquire_Done_inv fuel c lk st lk' st' :
  acquire fuel c lk st = Done (lk', st') ->
  locking c lk = Done tt /\ lk_locked lk = 0%Z
  /\ locked c (set_locked 1 lk) (set_xchgs (S (xchgs st)) (pushcli c st)) = Done (lk', st').
Proof.
  unfold acquire. destruct (locking c lk) as [[]| | |] eqn:Hl; try discriminate.
  cbn [mbind outcome_mbind bind]. destruct fuel as [|fuel]; [discriminate |].
  destruct (Z.eqb_spec (lk_locked lk) 0) as [Hfree|Hheld].
  - rewrite (acquire_loop_free fuel _ _ Hfree). cbn [mbind outcome_mbind bind].
    intros H. by repeat split.
  - by rewrite (acquire_loop_held (S fuel) lk _ Hheld).
Qed.

Lemma releasing_Done c lk :
  (SPINLOCK_DEBUG = true -> holding lk c = true) ->
  exists lk', releasing c lk = Done lk'
    /\ lk_locked lk' = lk_locked lk /\ lk_stat lk' = lk_stat lk
    /\ lk_name lk' = lk_name lk.
Proof.
  intros H. unfold releasing. destruct SPINLOCK_DEBUG.
  - rewrite H by reflexivity. simpl. eexists. split; [reflexivity |]. by repeat split.
  - exists lk. by repeat split.
Qed.

Lemma release_Done c lk st d :
  (SPINLOCK_DEBUG = true -> holding lk c = true) ->
  ncli (cpus st c) = S d ->
  exists lk' st', release c lk st = Done (lk', st')
    /\ lk_locked lk' = 0%Z
    /\ lk_stat lk' = lk_stat lk
    /\ lk_name lk' = lk_name lk
    /\ ncli (cpus st' c) = d
    /\ xchgs st' = S (xchgs st)
    /\ lockstat_lock st' = lockstat_lock st
    /\ same_stats st st'.
Proof.
  intros Hown Hd. unfold release.
  destruct (releasing_Done c lk Hown) as (lk1 & Hr & Hw & Hs & Hnm).
  rewrite Hr. cbn [mbind outcome_mbind bind xchg32].
  match goal with |- context [popcli c ?x] =>
    destruct (popcli_pushed c x d) as (st' & Hpop & Hn & _ & Hm & Hx & He & Hli & Hll)
  end; [exact Hd |].
  rewrite Hpop. cbn [mbind outcome_mbind bind].
  eexists _, st'. split; [reflexivity |].
  unfold same_stats. simpl. repeat split; auto.
Qed.

(** *** The registry lock *)

Lemma registry_acquire fuel c st :
  registry_idle st ->
  exists st', on_lockstat_lock (acquire (S fuel) c) st = Done st'
    /\ registry_held c (ncli (cpus st c)) st'
    /\ same_stats st st'.
Proof.
  intros [Hfree Hnone]. unfold on_lockstat_lock.
  destruct (acquire_free fuel c (lockstat_lock st) st Hfree)
    as (l & st' & Ha & Hw & Hs & _ & Hown & Hn & _ & He & Hli & _ & Hm).
  { intros _ p Hp. congruence. }
  rewrite Ha. cbn [mbind outcome_mbind bind].
  eexists. split; [reflexivity |].
  unfold registry_held, same_stats. simpl.
  repeat split; auto. congruence.
Qed.

Lemma registry_release c d st :
  registry_held c d st ->
  exists st', on_lockstat_lock (release c) st = Done st'
    /\ registry_idle st'
    /\ ncli (cpus st' c) = d
    /\ same_stats st st'.
Proof.
  intros (Hw & Hnone & Hown & Hd). unfold on_lockstat_lock.
  destruct (release_Done c (lockstat_lock st) st d)
    as (l & st' & Hr & Hw' & Hs & _ & Hn & _ & _ & Hsame); [| exact Hd |].
  { intros Hdbg. unfold holding. rewrite Hw, (Hown Hdbg). simpl.
    by rewrite bool_decide_eq_true_2. }
  rewrite Hr. cbn [mbind outcome_mbind bind].
  eexists. split; [reflexivity |].
  destruct Hsame as (Hm & Hli & He).
  unfold registry_idle, same_stats. simpl.
  repeat split; auto. by rewrite Hs.
Qed.

(** *** [lockstat_clear] *)

Lemma filter_all_true (P : ptr -> Prop) `{!forall x, Decision (P x)} (l : list ptr) :
  (forall x, x ∈ l -> P x) -> filter P l = l.
Proof.
  induction l as [|x l IH]; intros Hall; [reflexivity |].
  rewrite filter_cons_True by (apply Hall; left).
  f_equal. apply IH. intros y Hy. apply Hall. by right.
Qed.

Lemma filter_agree (P Q : ptr -> Prop) `{!forall x, Decision (P x)}
    `{!forall x, Decision (Q x)} (l : list ptr) :
  (forall x, x ∈ l -> P x <-> Q x) -> filter P l = filter Q l.
Proof.
  induction l as [|x l IH]; intros Hpq; [reflexivity |].
  assert (Hl : filter P l = filter Q l).
  { apply IH. intros y Hy. apply Hpq. by right. }
  destruct (decide (P x)) as [HP|HP].
  - rewrite filter_cons_True by done.
    rewrite filter_cons_True by (apply Hpq; [left | done]). by f_equal.
  - rewrite filter_cons_False by done.
    rewrite filter_cons_False; [done |].
    intros HQ. apply HP. apply Hpq; [left | done].
Qed.

Lemma LIST_REMOVE_middle pre p tl :
  p ∉ pre -> p ∉ tl -> LIST_REMOVE p (pre ++ p :: tl) = pre ++ tl.
Proof.
  intros H1 H2. unfold LIST_REMOVE.
  rewrite filter_app, filter_cons_False by (intros H; by apply H).
  rewrite !filter_all_true; [done | |]; intros x Hx ->; done.
Qed.

(** The loop of [lockstat_clear] over the nodes [l] that are still to be
    visited, with the visited survivors [pre] in front of them. *)
Lemma lockstat_clear_loop_spec l : forall pre st,
  lockstat_list st = pre ++ l ->
  NoDup (pre ++ l) ->
  (forall p, p ∈ l -> is_Some (kmem st !! p)) ->
  exists st', lockstat_clear_loop l st = Done st'
    /\ lockstat_list st' = pre ++ filter (fun p => inactive (kmem st) p = false) l
    /\ (forall p, kmem st' !! p =
          if decide (p ∈ l) then kmem st !! p ≫= clear_record
          else kmem st !! p)
    /\ cpus st' = cpus st /\ lockstat_lock st' = lockstat_lock st
    /\ lockstat_enable st' = lockstat_enable st /\ xchgs st' = xchgs st.
Proof.
  induction l as [|p tl IH]; intros pre st Hlist Hnd Hlive.
  { exists st. simpl. rewrite app_nil_r in Hlist. by rewrite app_nil_r. }
  destruct (Hlive p) as [k Hk]; [left |].
  apply NoDup_app in Hnd as Hnd'. destruct Hnd' as (_ & Hdisj & Hnd').
  apply NoDup_cons in Hnd' as [Hp_tl _].
  assert (Hp_pre : p ∉ pre).
  { intros Hin. apply (Hdisj p Hin). left. }
  simpl. rewrite Hk.
  destruct (Z.eqb_spec (active k) 0) as [Hz|Hnz].
  - (* inactive: unlink and free *)
    destruct (IH pre
      (set_kmem (delete p (kmem st)) (set_list (LIST_REMOVE p (lockstat_list st)) st)))
      as (st' & Hrun & Hl' & Hm' & Hrest).
    { simpl. rewrite Hlist. by apply LIST_REMOVE_middle. }
    { apply NoDup_app. apply NoDup_app in Hnd as (Hn1 & Hn2 & Hn3).
      repeat split; [done | | by apply NoDup_cons in Hn3 as [_ ?]].
      intros x Hx Hx'. apply (Hn2 x Hx). by right. }
    { intros q Hq. simpl. rewrite lookup_delete_ne by (intros ->; done).
      apply Hlive. by right. }
    exists st'. split; [exact Hrun |]. simpl in *.
    split; [| split; [| exact Hrest]].
    + rewrite Hl'. f_equal.
      rewrite filter_cons_False by (unfold inactive; rewrite Hk;
        destruct (Z.eqb_spec (active k) 0); done).
      apply filter_agree. intros q Hq. unfold inactive.
      by rewrite lookup_delete_ne by (intros ->; done).
    + intros q. rewrite Hm'. destruct (decide (q = p)) as [->|Hne].
      * rewrite decide_False by done. rewrite decide_True by left.
        rewrite lookup_delete_eq, Hk. simpl. unfold clear_record.
        by destruct (Z.eqb_spec (active k) 0).
      * rewrite lookup_delete_ne by done.
        destruct (decide (q ∈ tl)) as [Hin|Hnin].
        -- by rewrite decide_True by (by right).
        -- rewrite decide_False; [done |].
           intros [->|?]%elem_of_cons; done.
  - (* active: zero the counters *)
    destruct (IH (pre ++ [p]) (set_kmem (<[p := zero_cpu k]> (kmem st)) st))
      as (st' & Hrun & Hl' & Hm' & Hrest).
    { simpl. rewrite Hlist. by rewrite <- app_assoc. }
    { by rewrite <- app_assoc. }
    { intros q Hq. simpl. rewrite lookup_insert_ne by (intros ->; done).
      apply Hlive. by right. }
    exists st'. split; [exact Hrun |]. simpl in *.
    split; [| split; [| exact Hrest]].
    + rewrite Hl', <- app_assoc. simpl. f_equal.
      rewrite filter_cons_True by (unfold inactive; rewrite Hk;
        destruct (Z.eqb_spec (active k) 0); done).
      f_equal. apply filter_agree. intros q Hq. unfold inactive.
      by rewrite lookup_insert_ne by (intros ->; done).
    + intros q. rewrite Hm'. destruct (decide (q = p)) as [->|Hne].
      * rewrite decide_False by done. rewrite decide_True by left.
        rewrite lookup_insert_eq, Hk. simpl. unfold clear_record.
        by destruct (Z.eqb_spec (active k) 0).
      * rewrite lookup_insert_ne by done.
        destruct (decide (q ∈ tl)) as [Hin|Hnin].
        -- by rewrite decide_True by (by right).
        -- rewrite decide_False; [done |].
           intros [->|?]%elem_of_cons; done.
Qed.

(** A whole [lockstat_clear] on a well-formed registry. *)
Lemma lockstat_clear_run fuel c st :
  registry_wf st ->
  exists st', lockstat_clear (S fuel) c st = Done st'
    /\ lockstat_list st'
       = filter (fun p => inactive (kmem st) p = false) (lockstat_list st)
    /\ (forall p, kmem st' !! p =
          if decide (p ∈ lockstat_list st) then kmem st !! p ≫= clear_record
          else kmem st !! p)
    /\ lockstat_enable st' = lockstat_enable st
    /\ registry_wf st'
    /\ ncli (cpus st' c) = ncli (cpus st c).
Proof.
  intros (Hidle & Hnd & Hlive). unfold lockstat_clear.
  destruct (registry_acquire fuel c st Hidle) as (st1 & Ha & Hheld & Hm1 & Hl1 & He1).
  rewrite Ha. cbn [mbind outcome_mbind bind].
  destruct (lockstat_clear_loop_spec (lockstat_list st1) [] st1)
    as (st2 & Hloop & Hl2 & Hm2 & Hc2 & Hk2 & He2 & _).
  { reflexivity. }
  { simpl. by rewrite Hl1. }
  { intros p Hp. rewrite Hm1. apply Hlive. by rewrite <- Hl1. }
  rewrite Hloop. cbn [mbind outcome_mbind bind].
  destruct (registry_release c (ncli (cpus st c)) st2)
    as (st3 & Hr & Hidle3 & Hn3 & Hm3 & Hl3 & He3).
  { destruct Hheld as (H1 & H2 & H3 & H4).
    unfold registry_held. rewrite Hk2, Hc2. by repeat split. }
  exists st3. split; [exact Hr |].
  simpl in Hl2. rewrite Hm1, Hl1 in Hl2.
  rewrite Hl3, Hl2, He3, He2, He1.
  assert (Hlook : forall p, kmem st3 !! p =
            if decide (p ∈ lockstat_list st) then kmem st !! p ≫= clear_record
            else kmem st !! p).
  { intros p. rewrite Hm3, Hm2, Hm1, Hl1. reflexivity. }
  split; [reflexivity |]. split; [exact Hlook |]. split; [reflexivity |].
  split; [| exact Hn3].
  split; [exact Hidle3 |]. rewrite Hl3, Hl2. split; [by apply NoDup_filter |].
  intros p [Hact Hin]%list_elem_of_filter.
  rewrite Hlook, decide_True by done.
  destruct (Hlive p Hin) as [k Hk]. unfold inactive in Hact. rewrite Hk in Hact.
  rewrite Hk. simpl. unfold clear_record. rewrite Hact. by eexists.
Qed.

(** C6: on a well-formed registry (its lock free, no node linked twice,
    every node a live record) [lockstat_clear] returns; it unlinks and
    frees exactly the registered records whose [active] flag is 0, and
    every registered record with a nonzero flag stays linked and keeps
    its flag and name while all its per-CPU counters become zero.
    Records outside the registry and the collection switch are not
    touched. *)
Theorem lockstat_clear_sweeps (fuel : nat) (c : cpuid) (st : kstate) :
  registry_wf st ->
  exists st', lockstat_clear (S fuel) c st = Done st'
    /\ lockstat_list st'
       = filter (fun p => inactive (kmem st) p = false) (lockstat_list st)
    /\ (forall p k, p ∈ lockstat_list st -> kmem st !! p = Some k ->
          active k = 0%Z ->
          (p ∉ lockstat_list st') /\ kmem st' !! p = None)
    /\ (forall p k, p ∈ lockstat_list st -> kmem st !! p = Some k ->
          active k <> 0%Z ->
          p ∈ lockstat_list st'
          /\ kmem st' !! p =
               Some (mk_klockstat (active k)
                       (mk_lockstat (ls_name (s k))
                          (replicate (length (ls_cpu (s k))) (mk_cpulockstat 0)))))
    /\ (forall p, p ∉ lockstat_list st -> kmem st' !! p = kmem st !! p)
    /\ lockstat_enable st' = lockstat_enable st
    /\ registry_wf st'.
Proof.
  intros Hwf.
  destruct (lockstat_clear_run fuel c st Hwf) as (st' & Hrun & Hl & Hlook & He & Hwf' & _).
  exists st'. split; [exact Hrun |]. split; [exact Hl |].
  assert (Hdead : forall p k, p ∈ lockstat_list st -> kmem st !! p = Some k ->
            active k = 0%Z -> (p ∉ lockstat_list st') /\ kmem st' !! p = None).
  { intros p k Hin Hk Hz. split.
    - rewrite Hl. intros Hin'. apply list_elem_of_filter in Hin' as [Hact _].
      unfold inactive in Hact. rewrite Hk in Hact.
      by destruct (Z.eqb_spec (active k) 0).
    - rewrite Hlook, decide_True, Hk by done. simpl. unfold clear_record.
      by destruct (Z.eqb_spec (active k) 0). }
  assert (Hkeep : forall p k, p ∈ lockstat_list st -> kmem st !! p = Some k ->
            active k <> 0%Z ->
            p ∈ lockstat_list st' /\ kmem st' !! p = Some (zero_cpu k)).
  { intros p k Hin Hk Hnz. split.
    - rewrite Hl. apply list_elem_of_filter. split; [| done].
      unfold inactive. rewrite Hk. by destruct (Z.eqb_spec (active k) 0).
    - rewrite Hlook, decide_True, Hk by done. simpl. unfold clear_record.
      by destruct (Z.eqb_spec (active k) 0). }
  split; [exact Hdead |]. split; [exact Hkeep |].
  split; [intros p Hp; by rewrite Hlook, decide_False |].
  split; [exact He | exact Hwf'].
Qed.

(** *** [lockstat_init] and [lockstat_stop] *)

Lemma strtake_all t k : String.length t <= k -> strtake k t = t.
Proof.
  revert k. induction t as [|a t IH]; intros k Hk; destruct k as [|k]; simpl in *;
    try reflexivity; try lia.
  f_equal. apply IH. lia.
Qed.

(** A name that fits the field with its terminating NUL is copied whole. *)
Lemma safestrcpy_fits t n : String.length t < n -> safestrcpy t n = t.
Proof. intros H. unfold safestrcpy. apply strtake_all. lia. Qed.

Lemma set_stat_same lk : set_stat (lk_stat lk) lk = lk.
Proof. by destruct lk. Qed.

(** A [lockstat_init] whose allocation succeeds. *)
Lemma lockstat_init_run fuel c lk st p :
  lk_stat lk = None -> kmalloc (kmem st) = Some p -> registry_idle st ->
  exists st', lockstat_init (S fuel) c lk st = Done (set_stat (Some p) lk, st')
    /\ kmem st' = <[p := mk_klockstat 1
                          (mk_lockstat (safestrcpy (lk_name lk) NAMESZ)
                             (replicate NCPU (mk_cpulockstat 0)))]> (kmem st)
    /\ lockstat_list st' = p :: lockstat_list st
    /\ lockstat_enable st' = lockstat_enable st
    /\ registry_idle st'.
Proof.
  intros Hnone Hp Hidle. unfold lockstat_init. rewrite Hnone, Hp.
  match goal with |- context [on_lockstat_lock (acquire _ _) ?x] =>
    destruct (registry_acquire fuel c x) as (st2 & Ha & Hheld & Hm2 & Hl2 & He2)
  end; [exact Hidle |].
  rewrite Ha. cbn [mbind outcome_mbind bind].
  match goal with |- context [on_lockstat_lock (release _) ?x] =>
    destruct (registry_release c (ncli (cpus st c)) x)
      as (st4 & Hr & Hidle4 & _ & Hm4 & Hl4 & He4)
  end.
  { destruct Hheld as (H1 & H2 & H3 & H4). by repeat split. }
  rewrite Hr. cbn [mbind outcome_mbind bind].
  exists st4. split; [reflexivity |].
  simpl in *. rewrite Hm4, Hm2, Hl4, Hl2, He4, He2.
  split; [reflexivity |]. split; [reflexivity |]. split; [reflexivity | exact Hidle4].
Qed.

(** C7: [lockstat_init] on a lock that has a record attached is the
    fatal error "initlockstat".  On a lock without one: if [kmalloc]
    fails the call returns with the link still null and the whole kernel
    state, registry included, as it was; if [kmalloc] yields [p] (and the
    registry lock is free, so that [acquire] returns) the call returns
    with the lock linked to [p], the record at [p] has [active] 1, the
    bounded copy of the lock's name (the whole name when it fits the
    field) and [NCPU] zero counters, [p] is the new head of the registry
    and no other record changes. *)
Theorem lockstat_init_cases (fuel : nat) (c : cpuid) (lk : spinlock) (st : kstate) :
  (forall q, lk_stat lk = Some q ->
     lockstat_init (S fuel) c lk st = Panic "initlockstat")
  /\ (lk_stat lk = None -> kmalloc (kmem st) = None ->
      lockstat_init (S fuel) c lk st = Done (lk, st))
  /\ (forall p, lk_stat lk = None -> kmalloc (kmem st) = Some p ->
      registry_idle st ->
      exists st', lockstat_init (S fuel) c lk st = Done (set_stat (Some p) lk, st')
        /\ kmem st' !! p =
             Some (mk_klockstat 1
                     (mk_lockstat (safestrcpy (lk_name lk) NAMESZ)
                        (replicate NCPU (mk_cpulockstat 0))))
        /\ (String.length (lk_name lk) < NAMESZ ->
            safestrcpy (lk_name lk) NAMESZ = lk_name lk)
        /\ lockstat_list st' = p :: lockstat_list st
        /\ (forall q, q <> p -> kmem st' !! q = kmem st !! q)
        /\ lockstat_enable st' = lockstat_enable st
        /\ registry_idle st').
Proof.
  split; [| split].
  - intros q Hq. unfold lockstat_init. by rewrite Hq.
  - intros Hnone Hfail. unfold lockstat_init. rewrite Hnone, Hfail.
    by rewrite <- Hnone, set_stat_same.
  - intros p Hnone Hp Hidle.
    destruct (lockstat_init_run fuel c lk st p Hnone Hp Hidle)
      as (st' & Hrun & Hm & Hl & He & Hidle').
    exists st'. split; [exact Hrun |]. rewrite Hm.
    split; [by rewrite lookup_insert_eq |].
    split; [apply safestrcpy_fits |].
    split; [exact Hl |].
    split; [| split; [exact He | exact Hidle']].
    intros q Hq. by rewrite lookup_insert_ne.
Qed.

(** C9: a second [lockstat_stop] right after the first changes neither
    the lock nor the kernel state, and a call on a lock that has no
    record attached changes nothing at all. *)
Theorem lockstat_stop_idempotent (lk : spinlock) (st : kstate) :
  (lockstat_stop lk st ≫= (fun r => lockstat_stop (fst r) (snd r)))
    = lockstat_stop lk st
  /\ (lk_stat lk = None -> lockstat_stop lk st = Done (lk, st)).
Proof.
  unfold lockstat_stop. split.
  - destruct (lk_stat lk) as [p|] eqn:Hp.
    + destruct (kmem st !! p) as [k|]; [| reflexivity]. reflexivity.
    + cbn [mbind outcome_mbind bind fst snd]. by rewrite Hp.
  - by intros ->.
Qed.

(** *** [lockstat_read] *)

(** C4: a read whose offset is not a multiple of the record size, or
    whose length is less than one record, returns -1; nothing is written
    to the destination, and the kernel state is the same (the registry
    lock is not even taken). *)
Theorem lockstat_read_rejects (fuel : nat) (c : cpuid) (off n : Z) (st : kstate) :
  (off mod sz <> 0 \/ n < sz)%Z ->
  lockstat_read fuel c off n st = Done ((-1)%Z, mk_rdbuf 0 [], st).
Proof.
  intros Hbad. unfold lockstat_read.
  destruct (Z.eqb_spec (off mod sz) 0) as [Hal|Hal]; simpl; [| reflexivity].
  destruct (Z.ltb_spec n sz) as [Hlt|Hge]; [reflexivity |].
  destruct Hbad as [Hbad|Hbad]; [done | lia].
Qed.

(** Whatever the cursor does, the loop copies whole records only and
    never more than the [n] bytes asked for: every [memmove] moves [dst]
    by [sz] and takes [sz] off [n]. *)
Lemma lockstat_read_loop_whole l m off : forall b n cur,
  (0 < sz)%Z -> (0 <= n < 2 ^ 32)%Z ->
  (forall p, p ∈ l -> is_Some (m !! p)) ->
  exists b' n' cur', lockstat_read_loop l m off b n cur = Done (b', n', cur')
    /\ (dst b' - dst b = sz * (Z.of_nat (length (out b')) - Z.of_nat (length (out b))))%Z
    /\ (dst b' - dst b = n - n')%Z
    /\ (0 <= n')%Z.
Proof.
  induction l as [|p l IH]; intros b n cur Hsz Hn Hlive.
  { exists b, n, cur. simpl. split; [reflexivity |]. lia. }
  simpl. destruct (Z.ltb_spec n sz) as [Hlt|Hge].
  { exists b, n, cur. split; [reflexivity |]. lia. }
  assert (Hlive' : forall q, q ∈ l -> is_Some (m !! q)).
  { intros q Hq. apply Hlive. by right. }
  destruct (Z.leb_spec off cur) as [Hle|Hgt].
  - destruct (Hlive p) as [k Hk]; [left |]. rewrite Hk.
    assert (Hn' : u32 (n - sz) = (n - sz)%Z) by (apply u32_small; lia).
    rewrite Hn'.
    destruct (IH (mk_rdbuf (dst b + sz) (out b ++ [s k])) (n - sz)%Z (u32 (cur + sz)))
      as (b' & n' & cur' & Hrun & Hd & Hnn & Hpos); [done | lia | done |].
    exists b', n', cur'. split; [exact Hrun |].
    simpl in Hd, Hnn. rewrite length_app in Hd. simpl in Hd. lia.
  - destruct (IH b n (u32 (cur + sz))) as (b' & n' & cur' & Hrun & Hd & Hnn & Hpos);
      [done | lia | done |].
    exists b', n', cur'. split; [exact Hrun |]. lia.
Qed.

(** While the cursor cannot wrap, the distance [dst] has moved is the
    part of the cursor beyond [off], and nothing is copied before the
    cursor has reached [off]. *)
Lemma lockstat_read_loop_counts l m off : forall b n cur j k,
  (0 < sz)%Z -> (0 <= n < 2 ^ 32)%Z ->
  off = (k * sz)%Z -> cur = (j * sz)%Z -> (0 <= j)%Z ->
  (cur + Z.of_nat (length l) * sz < 2 ^ 32)%Z ->
  (forall p, p ∈ l -> is_Some (m !! p)) ->
  dst b = Z.max 0 (cur - off) ->
  ((cur <= off)%Z -> out b = []) ->
  exists b' n' cur', lockstat_read_loop l m off b n cur = Done (b', n', cur')
    /\ dst b' = Z.max 0 (cur' - off)
    /\ ((cur' <= off)%Z -> out b' = [])
    /\ (cur <= cur' <= cur + Z.of_nat (length l) * sz)%Z.
Proof.
  induction l as [|p l IH]; intros b n cur j k Hsz Hn Hoff Hcur Hj Hfit Hlive Hd Ho.
  { exists b, n, cur. simpl. split; [reflexivity |]. repeat split; auto; lia. }
  simpl. simpl length in Hfit. destruct (Z.ltb_spec n sz) as [Hlt|Hge].
  { exists b, n, cur. split; [reflexivity |]. repeat split; auto; lia. }
  assert (Hlive' : forall q, q ∈ l -> is_Some (m !! q)).
  { intros q Hq. apply Hlive. by right. }
  assert (Hc' : u32 (cur + sz) = (cur + sz)%Z) by (apply u32_small; nia).
  rewrite Hc'.
  destruct (Z.leb_spec off cur) as [Hle|Hgt].
  - destruct (Hlive p) as [r Hr]; [left |]. rewrite Hr.
    assert (Hn' : u32 (n - sz) = (n - sz)%Z) by (apply u32_small; lia).
    rewrite Hn'.
    destruct (IH (mk_rdbuf (dst b + sz) (out b ++ [s r])) (n - sz)%Z (cur + sz)%Z (j + 1)%Z k)
      as (b' & n' & cur' & Hrun & Hd' & Ho' & Hrange); try done; try lia.
    { simpl. lia. }
    exists b', n', cur'. split; [exact Hrun |]. repeat split; auto; lia.
  - assert (Hjk : (j < k)%Z).
    { apply (Z.mul_lt_mono_pos_r sz); [done | lia]. }
    assert (Hstep : (cur + sz <= off)%Z).
    { rewrite Hoff, Hcur. replace (j * sz + sz)%Z with ((j + 1) * sz)%Z by lia.
      apply Z.mul_le_mono_nonneg_r; lia. }
    destruct (IH b n (cur + sz)%Z (j + 1)%Z k)
      as (b' & n' & cur' & Hrun & Hd' & Ho' & Hrange); try done; try lia.
    { intros _. apply Ho. lia. }
    exists b', n', cur'. split; [exact Hrun |]. repeat split; auto; lia.
Qed.

(** A read that passes the check runs the loop between [acquire] and
    [release] of the registry lock and leaves the kernel as it found it. *)
Lemma lockstat_read_accepts fuel c off n st b n' cur' :
  (off mod sz = 0)%Z -> (sz <= n)%Z -> registry_idle st ->
  lockstat_read_loop (lockstat_list st) (kmem st) off (mk_rdbuf 0 []) n 0
    = Done (b, n', cur') ->
  exists st', lockstat_read (S fuel) c off n st
      = Done (to_int (if (off <=? cur')%Z then u32 (cur' - off) else 0%Z), b, st')
    /\ same_stats st st' /\ registry_idle st'
    /\ ncli (cpus st' c) = ncli (cpus st c).
Proof.
  intros Hal Hlen Hidle Hloop. unfold lockstat_read.
  rewrite Hal. destruct (Z.ltb_spec n sz) as [|_]; [lia |]. simpl.
  destruct (registry_acquire fuel c st Hidle) as (st1 & Ha & Hheld & Hs1).
  rewrite Ha. cbn [mbind outcome_mbind bind].
  destruct Hs1 as (Hm1 & Hl1 & He1). rewrite Hl1, Hm1, Hloop.
  cbn [mbind outcome_mbind bind].
  destruct (registry_release c (ncli (cpus st c)) st1 Hheld)
    as (st2 & Hr & Hidle2 & Hn2 & Hs2).
  rewrite Hr. cbn [mbind outcome_mbind bind].
  exists st2. split; [reflexivity |].
  split; [| split; [exact Hidle2 | exact Hn2]].
  apply (same_stats_trans st st1 st2); [| exact Hs2]. by repeat split.
Qed.

(** C5 (as amended): a read that passes the check, with [off] and [n]
    values of [u32] and a well-formed registry, returns after copying
    [sz] bytes for each record it writes.  If the serialized registry
    has fewer than 2^31 bytes (so that neither the [u32] cursor nor the
    [int] result wraps) the value returned is the number of bytes
    copied.  If the offset is at or beyond the end of the serialized
    registry the value returned is 0 and nothing is copied. *)
Theorem lockstat_read_returns_copied (fuel : nat) (c : cpuid) (off n : Z)
    (st : kstate) :
  (0 < sz)%Z -> is_u32 off -> is_u32 n ->
  (off mod sz = 0)%Z -> (sz <= n)%Z ->
  registry_wf st ->
  exists ret b st', lockstat_read (S fuel) c off n st = Done (ret, b, st')
    /\ dst b = (sz * Z.of_nat (length (out b)))%Z
    /\ ((registry_bytes st < 2 ^ 31)%Z -> ret = dst b)
    /\ ((registry_bytes st <= off)%Z -> ret = 0%Z /\ dst b = 0%Z /\ out b = [])
    /\ same_stats st st'.
Proof.
  intros Hsz Hoff Hn Hal Hlen (Hidle & _ & Hlive). unfold registry_bytes, is_u32 in *.
  destruct (lockstat_read_loop_whole (lockstat_list st) (kmem st) off
              (mk_rdbuf 0 []) n 0%Z Hsz Hn Hlive)
    as (b & n' & cur' & Hloop & Hwhole & _).
  simpl in Hwhole.
  destruct (lockstat_read_accepts fuel c off n st b n' cur' Hal Hlen Hidle Hloop)
    as (st' & Hrun & Hsame & _).
  eexists _, b, st'. split; [exact Hrun |]. split; [lia |].
  assert (Hcount : (Z.of_nat (length (lockstat_list st)) * sz < 2 ^ 32)%Z ->
            dst b = Z.max 0 (cur' - off) /\ ((cur' <= off)%Z -> out b = [])
            /\ (0 <= cur' <= Z.of_nat (length (lockstat_list st)) * sz)%Z).
  { intros Hfit.
    destruct (lockstat_read_loop_counts (lockstat_list st) (kmem st) off
                (mk_rdbuf 0 []) n 0%Z 0%Z (off / sz)%Z)
      as (b2 & n2 & cur2 & Hloop2 & Hd & Ho & Hrange); try done; try lia.
    { rewrite Z.mul_comm. apply Z.div_exact; lia. }
    { simpl. lia. }
    rewrite Hloop in Hloop2. injection Hloop2 as <- <- <-.
    split; [exact Hd |]. split; [exact Ho | lia]. }
  assert (Hret : (Z.of_nat (length (lockstat_list st)) * sz < 2 ^ 32)%Z ->
            (Z.max 0 (cur' - off) < 2 ^ 31)%Z ->
            to_int (if (off <=? cur')%Z then u32 (cur' - off) else 0%Z) = dst b).
  { intros Hfit Hsmall. destruct (Hcount Hfit) as (Hd & _ & Hrange). rewrite Hd.
    destruct (Z.leb_spec off cur') as [Hle|Hgt].
    - rewrite u32_small by lia. unfold to_int. rewrite u32_small by lia.
      destruct (Z.ltb_spec (cur' - off) (2 ^ 31)); lia.
    - unfold to_int. rewrite u32_small by lia. simpl. lia. }
  split; [| split; [| exact Hsame]].
  - intros Hfit. apply Hret; [lia |].
    destruct (Hcount ltac:(lia)) as (_ & _ & Hrange). lia.
  - intros Hend. destruct (Hcount ltac:(lia)) as (Hd & Ho & Hrange).
    rewrite Hret by lia. rewrite Hd.
    split; [lia |]. split; [lia |]. apply Ho. lia.
Qed.

(** C10: a read that passes the check (with [n] a value of [u32] and a
    well-formed registry) returns
    after copying a whole number of records: the bytes copied are [sz]
    times the number of records written, a multiple of [sz], and never
    more than the [n] bytes asked for, whether or not [n] is a multiple
    of [sz]. *)
Theorem lockstat_read_whole_records (fuel : nat) (c : cpuid) (off n : Z)
    (st : kstate) :
  (0 < sz)%Z -> is_u32 n ->
  (off mod sz = 0)%Z -> (sz <= n)%Z ->
  registry_wf st ->
  exists ret b st', lockstat_read (S fuel) c off n st = Done (ret, b, st')
    /\ dst b = (sz * Z.of_nat (length (out b)))%Z
    /\ (dst b mod sz = 0)%Z
    /\ (dst b <= n)%Z.
Proof.
  intros Hsz Hn Hal Hlen (Hidle & _ & Hlive).
  destruct (lockstat_read_loop_whole (lockstat_list st) (kmem st) off
              (mk_rdbuf 0 []) n 0%Z Hsz Hn Hlive)
    as (b & n' & cur' & Hloop & Hd & Hnn & Hpos).
  destruct (lockstat_read_accepts fuel c off n st b n' cur' Hal Hlen Hidle Hloop)
    as (st' & Hrun & _).
  eexists _, b, st'. split; [exact Hrun |].
  simpl in Hd, Hnn.
  assert (Hdst : dst b = (sz * Z.of_nat (length (out b)))%Z) by lia.
  split; [exact Hdst |]. split; [| lia].
  rewrite Hdst, Z.mul_comm. apply Z_mod_mult.
Qed.

(** With room for the whole registry and the cursor at or beyond [off],
    the loop copies every record. *)
Lemma lockstat_read_loop_all l m off : forall b n cur,
  (0 < sz)%Z -> (off <= cur)%Z -> (0 <= cur)%Z ->
  (cur + Z.of_nat (length l) * sz < 2 ^ 32)%Z ->
  (Z.of_nat (length l) * sz <= n < 2 ^ 32)%Z ->
  (forall p, p ∈ l -> is_Some (m !! p)) ->
  exists b' n', lockstat_read_loop l m off b n cur
      = Done (b', n', (cur + Z.of_nat (length l) * sz)%Z)
    /\ dst b' = (dst b + Z.of_nat (length l) * sz)%Z.
Proof.
  induction l as [|p l IH]; intros b n cur Hsz Hoff Hcur Hfit Hn Hlive.
  { exists b, n. simpl. split; [f_equal; f_equal; lia | lia]. }
  simpl. simpl length in Hfit, Hn.
  destruct (Z.ltb_spec n sz) as [Hlt|Hge]; [nia |].
  destruct (Z.leb_spec off cur) as [_|Hgt]; [| lia].
  destruct (Hlive p) as [r Hr]; [left |]. rewrite Hr.
  rewrite (u32_small (n - sz)), (u32_small (cur + sz)) by nia.
  destruct (IH (mk_rdbuf (dst b + sz) (out b ++ [s r])) (n - sz)%Z (cur + sz)%Z)
    as (b' & n' & Hrun & Hd); try lia.
  { intros q Hq. apply Hlive. by right. }
  exists b', n'. rewrite Hrun. simpl in Hd.
  split; [f_equal; f_equal; lia | lia].
Qed.

(** A read of the whole registry from offset 0 copies all of it and
    returns its size converted to [int]. *)
Lemma lockstat_read_whole_registry fuel c st :
  (0 < sz)%Z -> registry_idle st ->
  (forall p, p ∈ lockstat_list st -> is_Some (kmem st !! p)) ->
  (sz <= registry_bytes st < 2 ^ 32)%Z ->
  exists b st', lockstat_read (S fuel) c 0 (registry_bytes st) st
      = Done (to_int (registry_bytes st), b, st')
    /\ dst b = registry_bytes st.
Proof.
  intros Hsz Hidle Hlive Hfit. unfold registry_bytes in *.
  destruct (lockstat_read_loop_all (lockstat_list st) (kmem st) 0 (mk_rdbuf 0 [])
              (Z.of_nat (length (lockstat_list st)) * sz) 0)
    as (b & n' & Hloop & Hd); try done; try lia.
  destruct (lockstat_read_accepts fuel c 0 _ st b n' _ (Z.mod_0_l sz ltac:(lia))
              (proj1 Hfit) Hidle Hloop) as (st' & Hrun & _).
  exists b, st'. rewrite Hrun. simpl in Hd. split; [| lia].
  destruct (Z.leb_spec 0 (0 + Z.of_nat (length (lockstat_list st)) * sz)); [| lia].
  rewrite Z.sub_0_r, Z.add_0_l. unfold to_int.
  by rewrite (u32_small (u32 _)), u32_small by (rewrite ?u32_small; lia).
Qed.

(** *** [lockstat_write] *)

(** C3 (as amended): the command is the first byte minus the character
    '0'.  The byte '0' switches collection on and the byte '1' switches
    it off, and neither touches a record, a counter or the registry; the
    byte '2' runs [lockstat_clear]; each of the three returns [n]
    converted to [int], which is [n] itself below 2^31.  Every other
    first byte returns -1 and leaves the state alone. *)
Theorem lockstat_write_commands (fuel : nat) (c : cpuid) (b0 : Z)
    (rest : list Z) (off n : Z) (st : kstate) :
  (b0 = ascii_zero + LOCKSTAT_START ->
     lockstat_write fuel c (b0 :: rest) off n st = Done (to_int n, set_enable 1 st))%Z
  /\ (b0 = ascii_zero + LOCKSTAT_STOP ->
     lockstat_write fuel c (b0 :: rest) off n st = Done (to_int n, set_enable 0 st))%Z
  /\ (b0 = ascii_zero + LOCKSTAT_CLEAR ->
     forall st', lockstat_clear fuel c st = Done st' ->
     lockstat_write fuel c (b0 :: rest) off n st = Done (to_int n, st'))%Z
  /\ (b0 <> ascii_zero + LOCKSTAT_START -> b0 <> ascii_zero + LOCKSTAT_STOP ->
      b0 <> ascii_zero + LOCKSTAT_CLEAR ->
     lockstat_write fuel c (b0 :: rest) off n st = Done ((-1), st))%Z
  /\ ((0 <= n < 2 ^ 31)%Z -> to_int n = n).
Proof.
  unfold lockstat_write, ascii_zero, LOCKSTAT_START, LOCKSTAT_STOP, LOCKSTAT_CLEAR.
  split; [| split; [| split; [| split]]].
  - intros ->. reflexivity.
  - intros ->. reflexivity.
  - intros -> st' Hclear. simpl. by rewrite Hclear.
  - intros H0 H1 H2.
    destruct (Z.eqb_spec (b0 - 48) 0); [lia |].
    destruct (Z.eqb_spec (b0 - 48) 1); [lia |].
    destruct (Z.eqb_spec (b0 - 48) 2); [lia |]. reflexivity.
  - intros Hn. unfold to_int. rewrite u32_small by lia.
    destruct (Z.ltb_spec n (2 ^ 31)); lia.
Qed.

(** *** The registry invariant

    [registry_wf] holds of the empty registry and is kept by every
    function of the file that returns, so it holds between any two
    calls of a sequential run.  Only [lockstat_init] needs a condition:
    [kmalloc] must not hand out a block that is still in use. *)

Lemma registry_wf_st0 : registry_wf st0.
Proof.
  split; [by split |]. split; [apply NoDup_nil_2 |].
  intros p Hp. by apply elem_of_nil in Hp.
Qed.

Lemma registry_wf_same_stats st st' :
  registry_wf st -> same_stats st st' -> registry_idle st' -> registry_wf st'.
Proof.
  intros (_ & Hnd & Hlive) (Hm & Hl & _) Hidle.
  split; [exact Hidle |]. rewrite Hl, Hm. by split.
Qed.

Lemma locked_wf c lk st lk' st' :
  locked c lk st = Done (lk', st') -> registry_wf st -> registry_wf st'.
Proof.
  unfold locked. intros Hrun Hwf.
  destruct (negb (lockstat_enable st =? 0)%Z); [| by injection Hrun as _ <-].
  destruct (lk_stat _) as [p|]; [| by injection Hrun as _ <-].
  unfold count_acquire in Hrun.
  destruct (kmem st !! p) as [k|] eqn:Hk; [| discriminate].
  destruct (ls_cpu (s k) !! c) as [e|]; [| discriminate].
  cbn [mbind outcome_mbind bind] in Hrun. injection Hrun as _ <-.
  destruct Hwf as (Hidle & Hnd & Hlive).
  split; [exact Hidle |]. split; [exact Hnd |].
  intros q Hq. simpl. apply lookup_insert_is_Some'. right. by apply Hlive.
Qed.

Lemma popcli_wf c st st' :
  popcli c st = Done st' -> registry_wf st -> registry_wf st'.
Proof.
  unfold popcli. destruct (ncli (cpus st c)); [discriminate |].
  intros [= <-] Hwf. exact Hwf.
Qed.

Lemma acquire_wf fuel c lk st lk' st' :
  acquire fuel c lk st = Done (lk', st') -> registry_wf st -> registry_wf st'.
Proof.
  intros Hrun Hwf. apply acquire_Done_inv in Hrun as (_ & _ & Hl).
  apply (locked_wf _ _ _ _ _ Hl). exact Hwf.
Qed.

Lemma tryacquire_wf c lk st r lk' st' :
  tryacquire c lk st = Done (r, lk', st') -> registry_wf st -> registry_wf st'.
Proof.
  unfold tryacquire. intros Hrun Hwf.
  destruct (locking c lk) as [[]| | |]; try discriminate.
  cbn [mbind outcome_mbind bind xchg32] in Hrun.
  destruct (negb (lk_locked lk =? 0)%Z).
  - destruct (popcli c _) as [st3| | |] eqn:Hp; try discriminate.
    cbn [mbind outcome_mbind bind] in Hrun. injection Hrun as _ _ <-.
    apply (popcli_wf _ _ _ Hp). exact Hwf.
  - destruct (locked c _ _) as [[lk2 st3]| | |] eqn:Hl; try discriminate.
    cbn [mbind outcome_mbind bind] in Hrun. injection Hrun as _ _ <-.
    apply (locked_wf _ _ _ _ _ Hl). exact Hwf.
Qed.

Lemma release_wf c lk st lk' st' :
  release c lk st = Done (lk', st') -> registry_wf st -> registry_wf st'.
Proof.
  unfold release. intros Hrun Hwf.
  destruct (releasing c lk) as [lk1| | |]; try discriminate.
  cbn [mbind outcome_mbind bind xchg32] in Hrun.
  destruct (popcli c _) as [st2| | |] eqn:Hp; try discriminate.
  cbn [mbind outcome_mbind bind] in Hrun. injection Hrun as _ <-.
  apply (popcli_wf _ _ _ Hp). exact Hwf.
Qed.

Lemma lockstat_stop_wf lk st lk' st' :
  lockstat_stop lk st = Done (lk', st') -> registry_wf st -> registry_wf st'.
Proof.
  unfold lockstat_stop. intros Hrun Hwf.
  destruct (lk_stat lk) as [p|]; [| by injection Hrun as _ <-].
  destruct (kmem st !! p) as [k|] eqn:Hk; [| discriminate].
  injection Hrun as _ <-. destruct Hwf as (Hidle & Hnd & Hlive).
  split; [exact Hidle |]. split; [exact Hnd |].
  intros q Hq. simpl. apply lookup_insert_is_Some'. right. by apply Hlive.
Qed.

(** Without fuel [acquire] does not return. *)
Lemma registry_acquire_no_fuel c st st' :
  on_lockstat_lock (acquire 0 c) st <> Done st'.
Proof.
  unfold on_lockstat_lock, acquire.
  by destruct (locking c (lockstat_lock st)) as [[]| | |].
Qed.

Lemma lockstat_init_wf fuel c lk st lk' st' :
  (forall p, kmalloc (kmem st) = Some p -> kmem st !! p = None) ->
  lockstat_init fuel c lk st = Done (lk', st') ->
  registry_wf st -> registry_wf st'.
Proof.
  intros Hfresh Hrun Hwf.
  destruct (lk_stat lk) as [q|] eqn:Hs.
  { unfold lockstat_init in Hrun. by rewrite Hs in Hrun. }
  destruct (kmalloc (kmem st)) as [p|] eqn:Hp.
  2: { unfold lockstat_init in Hrun. rewrite Hs, Hp in Hrun. by injection Hrun as _ <-. }
  destruct fuel as [|fuel].
  { unfold lockstat_init in Hrun. rewrite Hs, Hp in Hrun.
    match type of Hrun with context [on_lockstat_lock (acquire 0 c) ?x] =>
      destruct (on_lockstat_lock (acquire 0 c) x) as [y| | |] eqn:Ha; try discriminate;
      by destruct (registry_acquire_no_fuel c x y)
    end. }
  destruct Hwf as (Hidle & Hnd & Hlive).
  destruct (lockstat_init_run fuel c lk st p Hs Hp Hidle)
    as (st'' & Hrun' & Hm & Hl & _ & Hidle').
  rewrite Hrun' in Hrun. injection Hrun as _ <-.
  split; [exact Hidle' |]. rewrite Hl, Hm. split.
  - apply NoDup_cons. split; [| exact Hnd].
    intros Hin. destruct (Hlive p Hin) as [k Hk].
    rewrite (Hfresh p eq_refl) in Hk. discriminate.
  - intros q Hq. apply lookup_insert_is_Some'.
    apply elem_of_cons in Hq as [->|Hq]; [by left | right; by apply Hlive].
Qed.

Lemma lockstat_clear_wf fuel c st st' :
  lockstat_clear fuel c st = Done st' -> registry_wf st -> registry_wf st'.
Proof.
  intros Hrun Hwf. destruct fuel as [|fuel].
  { unfold lockstat_clear in Hrun.
    destruct (on_lockstat_lock (acquire 0 c) st) as [y| | |] eqn:Ha; try discriminate.
    by destruct (registry_acquire_no_fuel c st y). }
  destruct (lockstat_clear_run fuel c st Hwf) as (st'' & Hrun' & _ & _ & _ & Hwf' & _).
  rewrite Hrun' in Hrun. by injection Hrun as <-.
Qed.

Lemma lockstat_read_wf fuel c off n st r b st' :
  lockstat_read fuel c off n st = Done (r, b, st') ->
  registry_wf st -> registry_wf st'.
Proof.
  intros Hrun Hwf.
  destruct (decide (off mod sz = 0 /\ sz <= n)%Z) as [[Hal Hlen]|Hbad].
  2: { unfold lockstat_read in Hrun.
       destruct (Z.eqb_spec (off mod sz) 0) as [Hal|_]; simpl in Hrun;
         [| by injection Hrun as _ _ <-].
       destruct (Z.ltb_spec n sz) as [_|Hge]; [by injection Hrun as _ _ <- | lia]. }
  destruct fuel as [|fuel].
  { unfold lockstat_read in Hrun. rewrite Hal in Hrun.
    destruct (Z.ltb_spec n sz) as [|_]; [lia |]. simpl in Hrun.
    destruct (on_lockstat_lock (acquire 0 c) st) as [y| | |] eqn:Ha; try discriminate.
    by destruct (registry_acquire_no_fuel c st y). }
  destruct (lockstat_read_loop (lockstat_list st) (kmem st) off (mk_rdbuf 0 []) n 0)
    as [[[b2 n2] cur2]| | |] eqn:Hloop.
  - destruct (lockstat_read_accepts fuel c off n st b2 n2 cur2 Hal Hlen (proj1 Hwf) Hloop)
      as (st'' & Hrun' & Hsame & Hidle' & _).
    rewrite Hrun' in Hrun. injection Hrun as _ _ <-.
    by apply (registry_wf_same_stats st).
  - unfold lockstat_read in Hrun. rewrite Hal in Hrun.
    destruct (Z.ltb_spec n sz) as [|_]; [lia |]. simpl in Hrun.
    destruct (registry_acquire fuel c st (proj1 Hwf)) as (st1 & Ha & _ & Hm1 & Hl1 & _).
    rewrite Ha in Hrun. cbn [mbind outcome_mbind bind] in Hrun.
    rewrite Hl1, Hm1, Hloop in Hrun. discriminate.
  - unfold lockstat_read in Hrun. rewrite Hal in Hrun.
    destruct (Z.ltb_spec n sz) as [|_]; [lia |]. simpl in Hrun.
    destruct (registry_acquire fuel c st (proj1 Hwf)) as (st1 & Ha & _ & Hm1 & Hl1 & _).
    rewrite Ha in Hrun. cbn [mbind outcome_mbind bind] in Hrun.
    rewrite Hl1, Hm1, Hloop in Hrun. discriminate.
  - unfold lockstat_read in Hrun. rewrite Hal in Hrun.
    destruct (Z.ltb_spec n sz) as [|_]; [lia |]. simpl in Hrun.
    destruct (registry_acquire fuel c st (proj1 Hwf)) as (st1 & Ha & _ & Hm1 & Hl1 & _).
    rewrite Ha in Hrun. cbn [mbind outcome_mbind bind] in Hrun.
    rewrite Hl1, Hm1, Hloop in Hrun. discriminate.
Qed.

Lemma lockstat_write_wf fuel c buf off n st r st' :
  lockstat_write fuel c buf off n st = Done (r, st') ->
  registry_wf st -> registry_wf st'.
Proof.
  unfold lockstat_write. intros Hrun Hwf.
  destruct buf as [|b0 rest]; [discriminate |].
  destruct (b0 - ascii_zero =? LOCKSTAT_START)%Z; [by injection Hrun as _ <- |].
  destruct (b0 - ascii_zero =? LOCKSTAT_STOP)%Z; [by injection Hrun as _ <- |].
  destruct (b0 - ascii_zero =? LOCKSTAT_CLEAR)%Z; [| by injection Hrun as _ <-].
  destruct (lockstat_clear fuel c st) as [st1| | |] eqn:Hc; try discriminate.
  cbn [mbind outcome_mbind bind] in Hrun. injection Hrun as _ <-.
  by apply (lockstat_clear_wf fuel c st).
Qed.

(** *** Gating of the counters *)

(** With collection on, winning a free lock that has a record counts
    one acquisition in it and touches no other record. *)
Lemma acquire_counts fuel c lk st p k e :
  lk_locked lk = 0%Z -> lockstat_enable st <> 0%Z ->
  lk_stat lk = Some p -> kmem st !! p = Some k -> ls_cpu (s k) !! c = Some e ->
  exists lk' st', acquire (S fuel) c lk st = Done (lk', st')
    /\ kmem st' = <[p := counted c k e]> (kmem st).
Proof.
  intros Hfree Hon Hp Hk He. unfold acquire.
  rewrite (locking_Done c lk (fun _ => holding_free c lk Hfree)).
  cbn [mbind outcome_mbind bind].
  rewrite (acquire_loop_free fuel _ _ Hfree). cbn [mbind outcome_mbind bind].
  unfold locked. simpl.
  destruct (Z.eqb_spec (lockstat_enable st) 0) as [|_]; [done |]. simpl.
  assert (Hs : forall l : spinlock, lk_stat l = Some p ->
            lk_stat (if SPINLOCK_DEBUG
                     then set_pcs (getcallerpcs c) (set_cpu (Some c) (set_locked 1 lk))
                     else set_locked 1 lk) = Some p).
  { intros _ _. destruct SPINLOCK_DEBUG; exact Hp. }
  rewrite (Hs lk Hp). unfold count_acquire. simpl. rewrite Hk, He.
  cbn [mbind outcome_mbind bind]. eexists _, _. split; reflexivity.
Qed.

(** Without collection, or without a record, [locked] changes no
    record. *)
Lemma locked_kmem c lk st lk' st' :
  locked c lk st = Done (lk', st') ->
  (lockstat_enable st = 0%Z \/ lk_stat lk = None) ->
  kmem st' = kmem st.
Proof.
  unfold locked. intros Hrun Hoff.
  destruct (Z.eqb_spec (lockstat_enable st) 0) as [He|He]; simpl in Hrun.
  { by injection Hrun as _ <-. }
  destruct Hoff as [Hoff|Hnone]; [done |].
  assert (Hs : lk_stat (if SPINLOCK_DEBUG
                        then set_pcs (getcallerpcs c) (set_cpu (Some c) lk)
                        else lk) = None).
  { by destruct SPINLOCK_DEBUG. }
  rewrite Hs in Hrun. by injection Hrun as _ <-.
Qed.

Lemma popcli_kmem c st st' : popcli c st = Done st' -> kmem st' = kmem st.
Proof.
  unfold popcli. destruct (ncli (cpus st c)); [discriminate |].
  by intros [= <-].
Qed.

(** C8: while collection is switched off, or while the lock has no
    record attached, every [acquire] that returns and every [tryacquire]
    that returns leave all records, and so every per-CPU counter, as
    they were (and on a free lock both do return).  Moreover, for a free
    lock with record [p] whose counter for the CPU holds [e]: after an
    acquisition and release with collection off, the write of the start
    command still leaves the records as they were, and the next
    acquisition sets the counter to [e + 1] (as a 64-bit value):
    counting goes on from the accumulated value, not from zero. *)
Theorem lockstat_gating (c : cpuid) (lk : spinlock) (st : kstate) :
  ((lockstat_enable st = 0%Z \/ lk_stat lk = None) ->
     (forall fuel lk' st',
        acquire fuel c lk st = Done (lk', st') -> kmem st' = kmem st)
     /\ (forall r lk' st',
        tryacquire c lk st = Done (r, lk', st') -> kmem st' = kmem st)
     /\ (lk_locked lk = 0%Z ->
         (forall fuel, exists lk' st', acquire (S fuel) c lk st = Done (lk', st'))
         /\ (exists lk' st', tryacquire c lk st = Done (1%Z, lk', st'))))
  /\ (forall fuel p k e rest off n,
      lk_locked lk = 0%Z ->
      lockstat_enable st = 0%Z ->
      lk_stat lk = Some p -> kmem st !! p = Some k -> ls_cpu (s k) !! c = Some e ->
      exists lk1 st1 lk2 st2 st3 lk4 st4,
        acquire (S fuel) c lk st = Done (lk1, st1)
        /\ kmem st1 = kmem st
        /\ release c lk1 st1 = Done (lk2, st2)
        /\ lockstat_write fuel c ((ascii_zero + LOCKSTAT_START)%Z :: rest) off n st2
           = Done (to_int n, st3)
        /\ lockstat_enable st3 = 1%Z
        /\ kmem st3 = kmem st
        /\ acquire (S fuel) c lk2 st3 = Done (lk4, st4)
        /\ kmem st4 = <[p := counted c k e]> (kmem st)).
Proof.
  split.
  - intros Hoff.
    assert (Hlive : stat_live c lk st).
    { intros Hon q Hq. destruct Hoff as [Hoff|Hnone]; [done | congruence]. }
    split; [| split].
    + intros fuel lk' st' Hrun.
      apply acquire_Done_inv in Hrun as (_ & _ & Hl).
      by rewrite (locked_kmem _ _ _ _ _ Hl).
    + intros r lk' st'. unfold tryacquire.
      destruct (locking c lk) as [[]| | |]; try discriminate.
      cbn [mbind outcome_mbind bind xchg32].
      destruct (Z.eqb_spec (lk_locked lk) 0) as [Hfree|Hheld]; simpl.
      * destruct (locked c _ _) as [[lk2 st3]| | |] eqn:Hl; try discriminate.
        cbn [mbind outcome_mbind bind]. intros [= _ _ <-].
        by rewrite (locked_kmem _ _ _ _ _ Hl).
      * destruct (popcli c _) as [st3| | |] eqn:Hp; try discriminate.
        cbn [mbind outcome_mbind bind]. intros [= _ _ <-].
        by rewrite (popcli_kmem _ _ _ Hp).
    + intros Hfree. split.
      * intros fuel.
        destruct (acquire_free fuel c lk st Hfree Hlive) as (lk' & st' & Ha & _).
        by exists lk', st'.
      * unfold tryacquire.
        rewrite (locking_Done c lk (fun _ => holding_free c lk Hfree)).
        cbn [mbind outcome_mbind bind xchg32]. rewrite Hfree. simpl.
        match goal with |- context [locked c ?l ?x] =>
          destruct (locked_Done c l x) as (lk' & st' & Hl & _)
        end.
        { intros He q Hq. apply (Hlive He q Hq). }
        exists lk', st'. by rewrite Hl.
  - intros fuel p k e rest off n Hfree Hoff Hp Hk He.
    assert (Hlive : stat_live c lk st) by (intros Hon; done).
    destruct (acquire_free fuel c lk st Hfree Hlive)
      as (lk1 & st1 & Ha & Hw1 & Hs1 & _ & Hown1 & Hn1 & _ & _ & _ & _ & Hm1).
    specialize (Hm1 (or_introl Hoff)).
    destruct (release_Done c lk1 st1 (ncli (cpus st c)))
      as (lk2 & st2 & Hr & Hw2 & Hs2 & _ & _ & _ & _ & Hm2 & _ & He2); [| exact Hn1 |].
    { intros Hd. unfold holding. rewrite Hw1, (Hown1 Hd). simpl.
      by rewrite bool_decide_eq_true_2. }
    destruct (acquire_counts fuel c lk2 (set_enable 1 st2) p k e)
      as (lk4 & st4 & Ha4 & Hm4); try done.
    { congruence. }
    { simpl. by rewrite Hm2, Hm1. }
    exists lk1, st1, lk2, st2, (set_enable 1 st2), lk4, st4.
    split; [exact Ha |]. split; [exact Hm1 |]. split; [exact Hr |].
    split; [reflexivity |]. split; [reflexivity |].
    split; [simpl; by rewrite Hm2, Hm1 |].
    split; [exact Ha4 |]. rewrite Hm4. simpl. by rewrite Hm2, Hm1.
Qed.

(** *** Mutual exclusion *)

Lemma upd_pc_same c x f : upd_pc c x f c = x.
Proof. unfold upd_pc. by rewrite Nat.eqb_refl. Qed.

Lemma upd_pc_other c c' x f : c' <> c -> upd_pc c x f c' = f c'.
Proof.
  intros Hne. unfold upd_pc.
  destruct (Nat.eqb_spec c' c) as [->|_]; [done | reflexivity].
Qed.

(** A move between two points of the same ownership changes nobody's
    ownership. *)
Lemma owns_upd_pc c x f c' :
  owns x = owns (f c) -> owns (upd_pc c x f c') = owns (f c').
Proof.
  intros Hsame. destruct (decide (c' = c)) as [->|Hne].
  - by rewrite upd_pc_same.
  - by rewrite upd_pc_other.
Qed.

Lemma locked_word c lk st lk' st' :
  locked c lk st = Done (lk', st') -> lk_locked lk' = lk_locked lk.
Proof.
  unfold locked. intros H.
  assert (Hw : lk_locked (if SPINLOCK_DEBUG
                          then set_pcs (getcallerpcs c) (set_cpu (Some c) lk)
                          else lk) = lk_locked lk).
  { by destruct SPINLOCK_DEBUG. }
  destruct (negb (lockstat_enable st =? 0)%Z).
  - destruct (lk_stat _).
    + destruct (count_acquire c p st); simpl in H; try discriminate.
      injection H as <- _. exact Hw.
    + injection H as <- _. exact Hw.
  - injection H as <- _. exact Hw.
Qed.

Lemma releasing_word c lk lk' :
  releasing c lk = Done lk' -> lk_locked lk' = lk_locked lk.
Proof.
  unfold releasing. intros H. destruct SPINLOCK_DEBUG.
  - destruct (negb (holding lk c)); [discriminate |]. by injection H as <-.
  - by injection H as <-.
Qed.

(** Steps that leave ownership alone and the lock word alone or set. *)
Lemma lock_inv_neutral lk lk' st st' f c x :
  lock_inv (mk_conf lk st f) ->
  owns x = owns (f c) ->
  (lk_locked lk <> 0%Z -> lk_locked lk' <> 0%Z) ->
  lock_inv (mk_conf lk' st' (upd_pc c x f)).
Proof.
  intros [Huniq Hword] Hsame Hkeep. split; simpl in *.
  - intros c1 c2. rewrite !owns_upd_pc by done. apply Huniq.
  - intros c1. rewrite owns_upd_pc by done. intros Hown. by apply Hkeep, (Hword c1).
Qed.

(** The exchange that reads 0 makes the CPU the only owner. *)
Lemma lock_inv_win lk lk' st st' f c x :
  lock_inv (mk_conf lk st f) ->
  lk_locked lk = 0%Z -> lk_locked lk' <> 0%Z ->
  lock_inv (mk_conf lk' st' (upd_pc c x f)).
Proof.
  intros [Huniq Hword] Hfree Hset. simpl in *.
  assert (Hnone : forall c', c' <> c -> owns (upd_pc c x f c') = true -> False).
  { intros c' Hne. rewrite upd_pc_other by done. intros Hown.
    by apply (Hword c' Hown). }
  split; simpl.
  - intros c1 c2 H1 H2.
    destruct (decide (c1 = c)) as [->|Hn1]; [| by destruct (Hnone c1)].
    destruct (decide (c2 = c)) as [->|Hn2]; [done | by destruct (Hnone c2)].
  - intros _ _. exact Hset.
Qed.

(** The exchange of [release] leaves no owner behind. *)
Lemma lock_inv_give_up lk lk' st st' f c x :
  lock_inv (mk_conf lk st f) ->
  owns (f c) = true -> owns x = false ->
  lock_inv (mk_conf lk' st' (upd_pc c x f)).
Proof.
  intros [Huniq Hword] Hown Hx. simpl in *.
  assert (Hnone : forall c', owns (upd_pc c x f c') = true -> False).
  { intros c'. destruct (decide (c' = c)) as [->|Hne].
    - rewrite upd_pc_same. congruence.
    - rewrite upd_pc_other by done. intros H'. by apply Hne, Huniq. }
  split; simpl.
  - intros c1 c2 H1. by destruct (Hnone c1).
  - intros c1 H1. by destruct (Hnone c1).
Qed.

Lemma lock_inv_initial x : initial x -> lock_inv x.
Proof.
  intros [_ Hout]. split; intros c; rewrite Hout; simpl; intros; discriminate.
Qed.

Lemma lock_inv_step x y : lock_inv x -> step x y -> lock_inv y.
Proof.
  intros Hinv Hstep. destruct Hstep as
    [c lk st f Hpc Hl | c lk st f old w st' Hpc Hx
    | c lk st f Hpc Hl | c lk st f old w st' Hpc Hx
    | c lk st f st' Hpc Hp | c lk st f lk' st' Hpc Hl
    | c lk st f lk' Hpc Hr | c lk st f old w st' Hpc Hx
    | c lk st f st' Hpc Hp].
  - apply (lock_inv_neutral lk lk st); [done | by rewrite Hpc | done].
  - unfold xchg32 in Hx. injection Hx as <- <- <-.
    destruct (Z.eqb_spec (lk_locked lk) 0) as [Hfree|Hheld]; simpl.
    + by apply (lock_inv_win lk _ st).
    + apply (lock_inv_neutral lk _ st); [done | by rewrite Hpc | done].
  - apply (lock_inv_neutral lk lk st); [done | by rewrite Hpc | done].
  - unfold xchg32 in Hx. injection Hx as <- <- <-.
    destruct (Z.eqb_spec (lk_locked lk) 0) as [Hfree|Hheld]; simpl.
    + by apply (lock_inv_win lk _ st).
    + apply (lock_inv_neutral lk _ st); [done | by rewrite Hpc | done].
  - apply (lock_inv_neutral lk lk st); [done | by rewrite Hpc | done].
  - apply (lock_inv_neutral lk lk' st); [done | by rewrite Hpc |].
    by rewrite (locked_word _ _ _ _ _ Hl).
  - apply (lock_inv_neutral lk lk' st); [done | by rewrite Hpc |].
    by rewrite (releasing_word _ _ _ Hr).
  - apply (lock_inv_give_up lk _ st); [done | by rewrite Hpc | done].
  - apply (lock_inv_neutral lk lk st); [done | by rewrite Hpc | done].
Qed.

Lemma lock_inv_reachable x : reachable x -> lock_inv x.
Proof.
  induction 1 as [x Hinit | x y _ IH Hstep].
  - by apply lock_inv_initial.
  - by apply (lock_inv_step x y).
Qed.

(** The step relation agrees with the sequential functions: a call that
    returns is a sequence of steps of the calling CPU that takes it from
    outside to its critical section ([acquire], a winning [tryacquire]),
    back outside (a losing [tryacquire]), or from its critical section
    to outside ([release]). *)
Lemma at_only_upd c x y f g : at_only c x f g -> at_only c y f (upd_pc c y g).
Proof.
  intros H c'. unfold upd_pc. destruct (Nat.eqb c' c) eqn:E; [reflexivity |].
  rewrite (H c'). by rewrite E.
Qed.

Lemma at_only_first c y f : at_only c y f (upd_pc c y f).
Proof. intros c'. reflexivity. Qed.

Lemma acquire_steps fuel c lk st lk' st' f :
  f c = Outside ->
  acquire fuel c lk st = Done (lk', st') ->
  exists g, at_only c Critical f g /\ rtc step (mk_conf lk st f) (mk_conf lk' st' g).
Proof.
  intros Hout Hrun. apply acquire_Done_inv in Hrun as (Hl & Hfree & Hd).
  eexists. split; [apply (at_only_upd c Won), (at_only_upd c AcqSpin), at_only_first |].
  eapply rtc_l; [by apply step_acquire_call |].
  eapply rtc_l.
  { eapply (step_acquire_xchg c lk (pushcli c st)); [apply upd_pc_same | reflexivity]. }
  rewrite Hfree. simpl. apply rtc_once.
  apply step_locked; [apply upd_pc_same | exact Hd].
Qed.

Lemma tryacquire_steps c lk st r lk' st' f :
  f c = Outside ->
  tryacquire c lk st = Done (r, lk', st') ->
  exists g, at_only c (if (r =? 0)%Z then Outside else Critical) f g
    /\ rtc step (mk_conf lk st f) (mk_conf lk' st' g).
Proof.
  intros Hout. unfold tryacquire.
  destruct (locking c lk) as [[]| | |] eqn:Hl; try discriminate.
  cbn [mbind outcome_mbind bind xchg32].
  destruct (Z.eqb_spec (lk_locked lk) 0) as [Hfree|Hheld]; simpl.
  - destruct (locked c _ _) as [[lk2 st3]| | |] eqn:Hd; try discriminate.
    cbn [mbind outcome_mbind bind]. intros [= <- <- <-]. simpl.
    eexists. split; [apply (at_only_upd c Won), (at_only_upd c TrySpin), at_only_first |].
    eapply rtc_l; [by apply step_try_call |].
    eapply rtc_l.
    { eapply (step_try_xchg c lk (pushcli c st)); [apply upd_pc_same | reflexivity]. }
    rewrite Hfree. simpl. apply rtc_once.
    apply step_locked; [apply upd_pc_same | exact Hd].
  - destruct (popcli c _) as [st3| | |] eqn:Hp; try discriminate.
    cbn [mbind outcome_mbind bind]. intros [= <- <- <-]. simpl.
    eexists. split;
      [apply (at_only_upd c TryFailed), (at_only_upd c TrySpin), at_only_first |].
    eapply rtc_l; [by apply step_try_call |].
    eapply rtc_l.
    { eapply (step_try_xchg c lk (pushcli c st)); [apply upd_pc_same | reflexivity]. }
    destruct (Z.eqb_spec (lk_locked lk) 0) as [|_]; [done |]. simpl.
    apply rtc_once. apply step_try_popcli; [apply upd_pc_same | exact Hp].
Qed.

Lemma release_steps c lk st lk' st' f :
  f c = Critical ->
  release c lk st = Done (lk', st') ->
  exists g, at_only c Outside f g /\ rtc step (mk_conf lk st f) (mk_conf lk' st' g).
Proof.
  intros Hcrit. unfold release.
  destruct (releasing c lk) as [lk1| | |] eqn:Hr; try discriminate.
  cbn [mbind outcome_mbind bind xchg32].
  destruct (popcli c _) as [st2| | |] eqn:Hp; try discriminate.
  cbn [mbind outcome_mbind bind]. intros [= <- <-].
  eexists. split;
    [apply (at_only_upd c RelCleared), (at_only_upd c RelChecked), at_only_first |].
  eapply rtc_l; [by apply step_release_call |].
  eapply rtc_l.
  { eapply (step_release_xchg c lk1 st); [apply upd_pc_same | reflexivity]. }
  apply rtc_once. apply step_release_popcli; [apply upd_pc_same | exact Hp].
Qed.

Lemma reachable_rtc x y : reachable x -> rtc step x y -> reachable y.
Proof.
  intros Hx Hxy. induction Hxy as [|x y z Hstep _ IH]; [done |].
  apply IH. by apply (reach_step x y).
Qed.

(** C1: in every configuration that an interleaving of [acquire],
    [tryacquire] and [release] calls by any CPUs can reach from a free
    lock, at most one CPU is between the return of its acquisition and
    the start of its release, and while there is one the lock word is
    set. *)
Theorem mutual_exclusion (x : conf) :
  reachable x ->
  (forall c1 c2, at_pc x c1 = Critical -> at_pc x c2 = Critical -> c1 = c2)
  /\ (forall c, at_pc x c = Critical -> lk_locked (the_lock x) <> 0%Z).
Proof.
  intros Hreach. destruct (lock_inv_reachable x Hreach) as [Huniq Hword]. split.
  - intros c1 c2 H1 H2. apply Huniq; [by rewrite H1 | by rewrite H2].
  - intros c Hc. apply (Hword c). by rewrite Hc.
Qed.

(** ** Further properties of the code *)

(** *** The lock *)


(** X2: [acquire] of a lock whose word is set does not return while no
    other CPU runs: a debugging build that finds the caller to be the
    holder stops in the fatal error "acquire"; in every other case the
    loop uses up any number of turns. *)
Theorem acquire_held_never_returns (c : cpuid) (lk : spinlock) (st : kstate) :
  lk_locked lk <> 0%Z ->
  forall fuel,
    acquire fuel c lk st
    = if SPINLOCK_DEBUG && holding lk c then Panic "acquire" else Spin.
Proof.
  intros Hheld fuel. unfold acquire, locking.
  destruct (SPINLOCK_DEBUG && holding lk c); [reflexivity |].
  cbn [mbind outcome_mbind bind].
  by rewrite (acquire_loop_held fuel lk _ Hheld).
Qed.

(** X3: a debugging build refuses a [release] by a CPU that does not hold
    the lock (the lock is free, or another CPU or nobody is recorded as
    its owner): the call is the fatal error "release".  The plain build
    has no such check: whoever calls [release] inside a [pushcli] region
    gets the lock word cleared and the other fields of the lock left as
    they are. *)
Theorem release_checks_owner (c : cpuid) (lk : spinlock) (st : kstate) :
  (SPINLOCK_DEBUG = true ->
   lk_locked lk = 0%Z \/ lk_cpu lk <> Some c ->
   release c lk st = Panic "release")
  /\ (SPINLOCK_DEBUG = false ->
      forall d, ncli (cpus st c) = S d ->
      exists st', release c lk st = Done (set_locked 0 lk, st')
        /\ ncli (cpus st' c) = d
        /\ same_stats st st').
Proof.
  split.
  - intros Hd Hnot. unfold release, releasing. rewrite Hd.
    assert (Hh : holding lk c = false).
    { unfold holding. destruct Hnot as [Hfree|Hother].
      - by rewrite Hfree.
      - rewrite bool_decide_eq_false_2 by done. apply andb_false_r. }
    by rewrite Hh.
  - intros Hd d Hn. unfold release, releasing. rewrite Hd.
    cbn [mbind outcome_mbind bind xchg32].
    match goal with |- context [popcli c ?x] =>
      destruct (popcli_pushed c x d) as (st' & Hpop & Hn' & _ & Hm & _ & He & Hl & _)
    end; [exact Hn |].
    rewrite Hpop. cbn [mbind outcome_mbind bind].
    exists st'. split; [reflexivity |]. split; [exact Hn' |]. by repeat split.
Qed.

(** X4: [acquire] and then [release] of a free lock by one CPU both
    return and leave the lock free again with its name and statistics
    link; the nesting depth of the CPU is what it was, the state of the
    other CPUs is untouched, two exchanges were executed, and the
    registry and the collection switch are as before.  In the plain
    build the lock is exactly what it was; in a debugging build no CPU
    is its holder. *)
Theorem acquire_release_round_trip (fuel : nat) (c : cpuid) (lk : spinlock)
    (st : kstate) :
  lk_locked lk = 0%Z -> stat_live c lk st ->
  exists lk1 st1 lk2 st2,
    acquire (S fuel) c lk st = Done (lk1, st1)
    /\ release c lk1 st1 = Done (lk2, st2)
    /\ lk_locked lk2 = 0%Z
    /\ lk_name lk2 = lk_name lk /\ lk_stat lk2 = lk_stat lk
    /\ (forall c', holding lk2 c' = false)
    /\ (SPINLOCK_DEBUG = false -> lk2 = lk)
    /\ ncli (cpus st2 c) = ncli (cpus st c)
    /\ (forall c', c' <> c -> cpus st2 c' = cpus st c')
    /\ xchgs st2 = S (S (xchgs st))
    /\ lockstat_list st2 = lockstat_list st
    /\ lockstat_enable st2 = lockstat_enable st
    /\ lockstat_lock st2 = lockstat_lock st.
Proof.
  intros Hfree Hlive. unfold acquire.
  rewrite (locking_Done c lk (fun _ => holding_free c lk Hfree)).
  cbn [mbind outcome_mbind bind].
  rewrite (acquire_loop_free fuel _ _ Hfree). cbn [mbind outcome_mbind bind].
  match goal with |- context [locked c ?l ?x] =>
    destruct (locked_Done c l x)
      as (lk1 & st1 & Hl & Hw1 & Hs1 & Hnm1 & Hown & Hcp & Hx & He & Hli & Hll & _)
  end.
  { intros Hon p Hp. apply (Hlive Hon p Hp). }
  rewrite Hl. exists lk1, st1.
  assert (Hn1 : ncli (cpus st1 c) = S (ncli (cpus st c))).
  { rewrite Hcp. simpl. by rewrite upd_cpu_same. }
  assert (Hrel : SPINLOCK_DEBUG = false -> releasing c lk1 = Done lk1).
  { intros Hd. unfold releasing. by rewrite Hd. }
  assert (Hlk1 : SPINLOCK_DEBUG = false -> lk1 = set_locked 1 lk).
  { intros Hd. unfold locked in Hl. rewrite Hd in Hl.
    destruct (negb _); [destruct (lk_stat _) |].
    - destruct (count_acquire c _ _); try discriminate.
      cbn [mbind outcome_mbind bind] in Hl. by injection Hl as <- _.
    - by injection Hl as <- _.
    - by injection Hl as <- _. }
  unfold release.
  destruct (releasing_Done c lk1) as (lk1' & Hr & Hw & Hs & Hnm).
  { intros Hd. unfold holding. rewrite Hw1, (Hown Hd). simpl.
    by rewrite bool_decide_eq_true_2. }
  rewrite Hr. cbn [mbind outcome_mbind bind xchg32].
  match goal with |- context [popcli c ?x] =>
    destruct (popcli_pushed c x (ncli (cpus st c)))
      as (st2 & Hpop & Hn2 & Hoth & _ & Hx2 & He2 & Hli2 & Hll2)
  end; [exact Hn1 |].
  rewrite Hpop. cbn [mbind outcome_mbind bind].
  eexists _, st2. split; [reflexivity |]. split; [reflexivity |].
  simpl in *.
  split; [reflexivity |]. split; [congruence |]. split; [congruence |].
  split; [intros c'; reflexivity |].
  split.
  { intros Hd. rewrite (Hrel Hd) in Hr. injection Hr as <-.
    rewrite (Hlk1 Hd). destruct lk. simpl in *. by rewrite Hfree. }
  split; [exact Hn2 |].
  split.
  { intros c' Hne. rewrite (Hoth c' Hne), Hcp. simpl. by rewrite upd_cpu_other. }
  split; [by rewrite Hx2, Hx |].
  split; [by rewrite Hli2, Hli |]. split; [by rewrite He2, He | by rewrite Hll2, Hll].
Qed.

(** X5: the owner record of a debugging build follows the calls: after
    any [acquire] that returns, the lock word is 1 and the caller, and
    no other CPU, is [holding] the lock; after any [release] that
    returns the lock word is 0 and no CPU is [holding] it. *)
Theorem holding_follows_calls (c : cpuid) (lk : spinlock) (st : kstate) :
  (forall fuel lk' st',
     acquire fuel c lk st = Done (lk', st') ->
     lk_locked lk' = 1%Z
     /\ (SPINLOCK_DEBUG = true -> forall c', holding lk' c' = bool_decide (c' = c)))
  /\ (forall lk' st',
     release c lk st = Done (lk', st') ->
     lk_locked lk' = 0%Z /\ forall c', holding lk' c' = false).
Proof.
  split.
  - intros fuel lk' st' Hrun. apply acquire_Done_inv in Hrun as (_ & _ & Hl).
    split; [by rewrite (locked_word _ _ _ _ _ Hl) |].
    intros Hd c'. unfold holding. rewrite (locked_word _ _ _ _ _ Hl). simpl.
    assert (Hcpu : lk_cpu lk' = Some c).
    { unfold locked in Hl. rewrite Hd in Hl.
      destruct (negb _); [destruct (lk_stat _) |].
      - destruct (count_acquire c _ _); try discriminate.
        cbn [mbind outcome_mbind bind] in Hl. by injection Hl as <- _.
      - by injection Hl as <- _.
      - by injection Hl as <- _. }
    rewrite Hcpu. apply bool_decide_ext. split; congruence.
  - intros lk' st'. unfold release.
    destruct (releasing c lk) as [lk1| | |]; try discriminate.
    cbn [mbind outcome_mbind bind xchg32].
    destruct (popcli c _) as [st2| | |]; try discriminate.
    cbn [mbind outcome_mbind bind]. intros [= <- _].
    split; [reflexivity |]. intros c'. reflexivity.
Qed.

(** *** Counting *)

(** One round of [acquire] and [release] on a free tracked lock while
    collection is on. *)
Lemma acquire_release_once fuel c lk st p k e :
  lk_locked lk = 0%Z -> lockstat_enable st <> 0%Z ->
  lk_stat lk = Some p -> kmem st !! p = Some k -> ls_cpu (s k) !! c = Some e ->
  exists lk1 st1 lk2 st2,
    acquire (S fuel) c lk st = Done (lk1, st1)
    /\ release c lk1 st1 = Done (lk2, st2)
    /\ lk_locked lk2 = 0%Z /\ lk_stat lk2 = Some p
    /\ lockstat_enable st2 = lockstat_enable st
    /\ lockstat_list st2 = lockstat_list st
    /\ kmem st2 = <[p := counted c k e]> (kmem st).
Proof.
  intros Hfree Hon Hp Hk He.
  assert (Hlive : stat_live c lk st).
  { intros _ q Hq. rewrite Hp in Hq. injection Hq as <-. by exists k, e. }
  destruct (acquire_free fuel c lk st Hfree Hlive)
    as (lk1 & st1 & Ha & Hw1 & Hs1 & _ & Hown1 & Hn1 & _ & He1 & Hl1 & _).
  destruct (acquire_counts fuel c lk st p k e Hfree Hon Hp Hk He)
    as (lk1' & st1' & Ha' & Hm1).
  rewrite Ha in Ha'. injection Ha' as <- <-.
  destruct (release_Done c lk1 st1 (ncli (cpus st c)))
    as (lk2 & st2 & Hr & Hw2 & Hs2 & _ & _ & _ & _ & Hm2 & Hl2 & He2); [| exact Hn1 |].
  { intros Hd. unfold holding. rewrite Hw1, (Hown1 Hd). simpl.
    by rewrite bool_decide_eq_true_2. }
  exists lk1, st1, lk2, st2.
  split; [exact Ha |]. split; [exact Hr |]. split; [exact Hw2 |].
  split; [by rewrite Hs2, Hs1 |]. split; [by rewrite He2, He1 |].
  split; [by rewrite Hl2, Hl1 | by rewrite Hm2, Hm1].
Qed.

(** X6: with collection on, [rounds] rounds of [acquire] and [release]
    of a free tracked lock by one CPU all return and add [rounds] to
    the counter of that CPU in the lock's record, as a 64-bit value; the
    flag and name of the record, the counters of the other CPUs and all
    other records are as before. *)
Theorem acquire_release_counts (rounds fuel : nat) (c : cpuid) (lk : spinlock)
    (st : kstate) (p : ptr) (k : klockstat) (e : cpulockstat) :
  lk_locked lk = 0%Z -> lockstat_enable st <> 0%Z ->
  lk_stat lk = Some p -> kmem st !! p = Some k -> ls_cpu (s k) !! c = Some e ->
  (0 <= acquires e < 2 ^ 64)%Z ->
  exists lk' st',
    acquire_release rounds (S fuel) c lk st = Done (lk', st')
    /\ lk_locked lk' = 0%Z
    /\ kmem st' =
       <[p := mk_klockstat (active k)
                (mk_lockstat (ls_name (s k))
                   (<[c := mk_cpulockstat (u64 (acquires e + Z.of_nat rounds))]>
                      (ls_cpu (s k))))]> (kmem st).
Proof.
  revert lk st k e.
  induction rounds as [|rounds IH]; intros lk st k e Hfree Hon Hp Hk He Hrange.
  - exists lk, st. split; [reflexivity |]. split; [exact Hfree |].
    rewrite Z.add_0_r. unfold u64. rewrite Z.mod_small by exact Hrange.
    assert (Hl : <[c := mk_cpulockstat (acquires e)]> (ls_cpu (s k)) = ls_cpu (s k)).
    { apply list_insert_id. transitivity (Some e); [exact He | by destruct e]. }
    rewrite Hl.
    symmetry. apply insert_id. rewrite Hk. by destruct k as [? []].
  - destruct (acquire_release_once fuel c lk st p k e Hfree Hon Hp Hk He)
      as (lk1 & st1 & lk2 & st2 & Ha & Hr & Hw2 & Hs2 & He2 & _ & Hm2).
    assert (Hc : c < length (ls_cpu (s k))) by (by eapply lookup_lt_Some).
    destruct (IH lk2 st2 (counted c k e) (mk_cpulockstat (u64 (acquires e + 1))))
      as (lk' & st' & Hrun & Hw' & Hm').
    + exact Hw2.
    + by rewrite He2.
    + exact Hs2.
    + rewrite Hm2. apply lookup_insert_eq.
    + unfold counted. cbn [s ls_cpu]. by apply list_lookup_insert_eq.
    + cbn [acquires]. unfold u64. apply Z.mod_pos_bound. lia.
    + exists lk', st'. cbn [acquire_release]. rewrite Ha.
      cbn [mbind outcome_mbind bind]. rewrite Hr. cbn [mbind outcome_mbind bind].
      split; [exact Hrun |]. split; [exact Hw' |].
      rewrite Hm', Hm2, insert_insert_eq. unfold counted. cbn [active s ls_name ls_cpu acquires].
      do 3 f_equal. etransitivity; [apply list_insert_insert_eq |].
      do 2 f_equal. unfold u64. rewrite Z.add_mod_idemp_l by lia. f_equal. lia.
Qed.

(** *** The life of a record *)

Lemma omap_agree {A B : Type} (f g : A -> option B) (l : list A) :
  (forall x, x ∈ l -> f x = g x) -> omap f l = omap g l.
Proof.
  induction l as [|x l IH]; intros Hfg; [reflexivity |].
  assert (Hc : forall h : A -> option B,
            omap h (x :: l)
            = match h x with Some y => y :: omap h l | None => omap h l end)
    by reflexivity.
  rewrite !Hc, (Hfg x) by left. rewrite IH; [reflexivity |].
  intros y Hy. apply Hfg. by right.
Qed.

(** The sweep leaves a record that is active and has zero counters as
    it is. *)
Lemma clear_record_zero_cpu k :
  active k <> 0%Z -> clear_record (zero_cpu k) = Some (zero_cpu k).
Proof.
  intros Hact. unfold clear_record. cbn [zero_cpu active].
  destruct (Z.eqb_spec (active k) 0) as [|_]; [done |].
  unfold zero_cpu. cbn [active s ls_name ls_cpu]. by rewrite length_replicate.
Qed.

(** X7: the life of a record.  [lockstat_init] on an untracked lock,
    with a block from [kmalloc] that is not in use, puts the new record
    (the bounded copy of the name, [NCPU] zero counters) in front of the
    records of the registry.  A [lockstat_clear] after that keeps the
    record as it was created, at the head of what the sweep leaves of
    the old registry.  A [lockstat_stop] gives the lock back as it was
    before the tracking and leaves the records a read delivers as they
    are; the [lockstat_clear] after it frees the record, and registry
    and heap are then what [lockstat_clear] alone would have made of the
    state before the tracking. *)
Theorem lockstat_record_life (fuel : nat) (c : cpuid) (lk : spinlock)
    (st : kstate) (p : ptr) :
  registry_wf st -> lk_stat lk = None ->
  kmalloc (kmem st) = Some p -> kmem st !! p = None ->
  let r := mk_klockstat 1 (mk_lockstat (safestrcpy (lk_name lk) NAMESZ)
                             (replicate NCPU (mk_cpulockstat 0))) in
  exists st1 st2 st3 st4 st5,
    lockstat_init (S fuel) c lk st = Done (set_stat (Some p) lk, st1)
    /\ registry_records st1 = s r :: registry_records st
    /\ lockstat_clear (S fuel) c st = Done st2
    /\ lockstat_clear (S fuel) c st1 = Done st3
    /\ lockstat_list st3 = p :: lockstat_list st2
    /\ kmem st3 = <[p := r]> (kmem st2)
    /\ lockstat_stop (set_stat (Some p) lk) st1 = Done (lk, st4)
    /\ registry_records st4 = registry_records st1
    /\ lockstat_clear (S fuel) c st4 = Done st5
    /\ lockstat_list st5 = lockstat_list st2
    /\ kmem st5 = kmem st2.
Proof.
  intros Hwf Hnone Hp Hfree r.
  pose proof Hwf as (Hidle & Hnd & Hlive).
  assert (Hnew : forall q, q ∈ lockstat_list st -> q <> p).
  { intros q Hq ->. destruct (Hlive p Hq) as [k Hk]. congruence. }
  destruct (lockstat_init_run fuel c lk st p Hnone Hp Hidle)
    as (st1 & Hinit & Hm1 & Hl1 & He1 & Hidle1).
  fold r in Hm1.
  assert (Hwf1 : registry_wf st1).
  { apply (lockstat_init_wf (S fuel) c lk st (set_stat (Some p) lk) st1);
      [| exact Hinit | exact Hwf].
    intros q Hq. rewrite Hp in Hq. by injection Hq as <-. }
  destruct (lockstat_clear_run fuel c st Hwf) as (st2 & Hc2 & Hl2 & Hk2 & _).
  destruct (lockstat_clear_run fuel c st1 Hwf1) as (st3 & Hc3 & Hl3 & Hk3 & _).
  set (st4 := set_kmem (<[p := mk_klockstat 0 (s r)]> (kmem st1)) st1).
  assert (Hstop : lockstat_stop (set_stat (Some p) lk) st1 = Done (lk, st4)).
  { unfold lockstat_stop. cbn [lk_stat set_stat]. rewrite Hm1, lookup_insert_eq.
    rewrite <- Hm1. subst st4. do 2 f_equal. destruct lk. simpl in *. by subst. }
  assert (Hwf4 : registry_wf st4).
  { apply (lockstat_stop_wf _ _ _ _ Hstop Hwf1). }
  destruct (lockstat_clear_run fuel c st4 Hwf4) as (st5 & Hc5 & Hl5 & Hk5 & _).
  assert (Hm4 : forall q, q <> p -> kmem st4 !! q = kmem st !! q).
  { intros q Hq. subst st4. cbn [kmem set_kmem].
    rewrite lookup_insert_ne by done. rewrite Hm1. by rewrite lookup_insert_ne. }
  assert (Hp4 : kmem st4 !! p = Some (mk_klockstat 0 (s r))).
  { subst st4. cbn [kmem set_kmem]. apply lookup_insert_eq. }
  exists st1, st2, st3, st4, st5.
  split; [exact Hinit |].
  split.
  { unfold registry_records. rewrite Hl1, Hm1. cbn [omap list_omap].
    rewrite lookup_insert_eq. cbn [fmap option_fmap option_map]. f_equal.
    apply omap_agree. intros q Hq. by rewrite lookup_insert_ne by (apply not_eq_sym, Hnew, Hq). }
  split; [exact Hc2 |]. split; [exact Hc3 |].
  split.
  { rewrite Hl3, Hl2, Hl1.
    rewrite filter_cons_True by (unfold inactive; by rewrite Hm1, lookup_insert_eq).
    f_equal. apply filter_agree. intros q Hq. unfold inactive.
    by rewrite Hm1, lookup_insert_ne by (apply not_eq_sym, Hnew, Hq). }
  split.
  { apply map_eq. intros q. rewrite Hk3, Hl1, Hm1.
    destruct (decide (q = p)) as [->|Hne].
    - rewrite decide_True by left. rewrite !lookup_insert_eq.
      cbn [mbind option_bind]. unfold clear_record, zero_cpu, r.
      cbn [active s ls_name ls_cpu Z.eqb]. by rewrite length_replicate.
    - rewrite !lookup_insert_ne by done. rewrite Hk2.
      destruct (decide (q ∈ lockstat_list st)) as [Hin|Hnin].
      + by rewrite decide_True by (by right).
      + rewrite decide_False; [done |]. intros [->|?]%elem_of_cons; done. }
  split; [exact Hstop |].
  split.
  { unfold registry_records. apply omap_agree. intros q _.
    subst st4. cbn [kmem set_kmem lockstat_list set_kmem].
    destruct (decide (q = p)) as [->|Hne].
    - by rewrite lookup_insert_eq, Hm1, lookup_insert_eq.
    - by rewrite lookup_insert_ne. }
  split; [exact Hc5 |].
  assert (Hl4 : lockstat_list st4 = p :: lockstat_list st).
  { subst st4. cbn [lockstat_list set_kmem]. exact Hl1. }
  split.
  { rewrite Hl5, Hl2, Hl4.
    rewrite filter_cons_False by (unfold inactive; by rewrite Hp4).
    apply filter_agree. intros q Hq. unfold inactive.
    by rewrite Hm4 by (apply Hnew, Hq). }
  apply map_eq. intros q. rewrite Hk5, Hk2, Hl4.
  destruct (decide (q = p)) as [->|Hne].
  - rewrite decide_True by left. rewrite Hp4.
    rewrite decide_False by (intros Hin; by apply (Hnew p Hin)).
    by rewrite Hfree.
  - rewrite Hm4 by done.
    destruct (decide (q ∈ lockstat_list st)) as [Hin|Hnin].
    + by rewrite decide_True by (by right).
    + rewrite decide_False; [done |]. intros [->|?]%elem_of_cons; done.
Qed.

(** X8: [lockstat_clear] is idempotent on a well-formed registry: a
    second sweep right after the first finds nothing to free and nothing
    to zero, so registry, heap and collection switch stay as the first
    sweep left them; every record the first sweep left in the registry
    is active and has only zero counters. *)
Theorem lockstat_clear_idempotent (fuel : nat) (c : cpuid) (st : kstate) :
  registry_wf st ->
  exists st1 st2,
    lockstat_clear (S fuel) c st = Done st1
    /\ lockstat_clear (S fuel) c st1 = Done st2
    /\ lockstat_list st2 = lockstat_list st1
    /\ kmem st2 = kmem st1
    /\ lockstat_enable st2 = lockstat_enable st1
    /\ (forall q, q ∈ lockstat_list st1 ->
          exists k, kmem st1 !! q = Some k /\ active k <> 0%Z
            /\ Forall (fun e => acquires e = 0%Z) (ls_cpu (s k))).
Proof.
  intros Hwf. pose proof Hwf as (_ & _ & Hlive).
  destruct (lockstat_clear_run fuel c st Hwf) as (st1 & Hc1 & Hl1 & Hk1 & _ & Hwf1 & _).
  destruct (lockstat_clear_run fuel c st1 Hwf1) as (st2 & Hc2 & Hl2 & Hk2 & He2 & _).
  assert (Hkept : forall q, q ∈ lockstat_list st1 ->
            exists k, kmem st !! q = Some k /\ active k <> 0%Z
              /\ kmem st1 !! q = Some (zero_cpu k)).
  { intros q Hq. rewrite Hl1 in Hq. apply list_elem_of_filter in Hq as [Hact Hin].
    destruct (Hlive q Hin) as [k Hk]. unfold inactive in Hact. rewrite Hk in Hact.
    exists k. split; [exact Hk |].
    assert (Hnz : active k <> 0%Z) by (by destruct (Z.eqb_spec (active k) 0)).
    split; [exact Hnz |].
    rewrite Hk1, decide_True, Hk by done. cbn [mbind option_bind].
    unfold clear_record. by destruct (Z.eqb_spec (active k) 0). }
  exists st1, st2. split; [exact Hc1 |]. split; [exact Hc2 |].
  split.
  { rewrite Hl2. apply filter_all_true. intros q Hq.
    destruct (Hkept q Hq) as (k & _ & Hnz & Hz). unfold inactive. rewrite Hz.
    cbn [zero_cpu active]. by destruct (Z.eqb_spec (active k) 0). }
  split.
  { apply map_eq. intros q. rewrite Hk2.
    destruct (decide (q ∈ lockstat_list st1)) as [Hq|_]; [| reflexivity].
    destruct (Hkept q Hq) as (k & _ & Hnz & Hz). rewrite Hz. cbn [mbind option_bind].
    by apply clear_record_zero_cpu. }
  split; [exact He2 |].
  intros q Hq. destruct (Hkept q Hq) as (k & _ & Hnz & Hz).
  exists (zero_cpu k). split; [exact Hz |]. split; [exact Hnz |].
  unfold zero_cpu. cbn [s ls_cpu]. apply Forall_replicate. reflexivity.
Qed.

(** *** What a read delivers *)

(** While the cursor cannot wrap, the loop of [lockstat_read] skips the
    records in front of [off] and then copies records as long as [n]
    has room for one. *)
Lemma lockstat_read_loop_window l m off : forall b n cur j k,
  (0 < sz)%Z -> (0 <= n < 2 ^ 32)%Z ->
  off = (k * sz)%Z -> cur = (j * sz)%Z -> (0 <= j)%Z ->
  (cur + Z.of_nat (length l) * sz < 2 ^ 32)%Z ->
  (forall p, p ∈ l -> is_Some (m !! p)) ->
  exists b' n' cur', lockstat_read_loop l m off b n cur = Done (b', n', cur')
    /\ out b' = out b ++ take (Z.to_nat (n / sz))
                           (drop (Z.to_nat (k - j)) (omap (fun p => s <$> m !! p) l)).
Proof.
  induction l as [|p l IH]; intros b n cur j k Hsz Hn Hoff Hcur Hj Hfit Hlive.
  { exists b, n, cur. split; [reflexivity |].
    change (omap (fun p => s <$> m !! p) []) with (@nil lockstat).
    by rewrite drop_nil, take_nil, app_nil_r. }
  destruct (Hlive p) as [r Hr]; [left |].
  assert (Hom : omap (fun p => s <$> m !! p) (p :: l)
                = s r :: omap (fun p => s <$> m !! p) l).
  { change (omap (fun p => s <$> m !! p) (p :: l))
      with (match s <$> m !! p with
            | Some y => y :: omap (fun p => s <$> m !! p) l
            | None => omap (fun p => s <$> m !! p) l
            end).
    by rewrite Hr. }
  rewrite Hom. simpl lockstat_read_loop. simpl length in Hfit.
  destruct (Z.ltb_spec n sz) as [Hlt|Hge].
  { exists b, n, cur. split; [reflexivity |].
    rewrite Z.div_small by lia. by rewrite take_0, app_nil_r. }
  assert (Hlive' : forall q, q ∈ l -> is_Some (m !! q)).
  { intros q Hq. apply Hlive. by right. }
  assert (Hc' : u32 (cur + sz) = (cur + sz)%Z) by (apply u32_small; nia).
  rewrite Hc'.
  destruct (Z.leb_spec off cur) as [Hle|Hgt].
  - rewrite Hr.
    assert (Hn' : u32 (n - sz) = (n - sz)%Z) by (apply u32_small; lia).
    rewrite Hn'.
    assert (Hkj : (k <= j)%Z).
    { apply (Z.mul_le_mono_pos_r _ _ sz); [done | lia]. }
    destruct (IH (mk_rdbuf (dst b + sz) (out b ++ [s r])) (n - sz)%Z (cur + sz)%Z
                (j + 1)%Z k)
      as (b' & n' & cur' & Hrun & Ho); try done; try lia.
    exists b', n', cur'. split; [exact Hrun |]. rewrite Ho. cbn [out].
    assert (Hq : (n / sz = (n - sz) / sz + 1)%Z).
    { replace n with ((n - sz) + 1 * sz)%Z at 1 by lia.
      rewrite Z.div_add by lia. reflexivity. }
    assert (Hq0 : (0 <= (n - sz) / sz)%Z) by (apply Z.div_pos; lia).
    replace (Z.to_nat (k - (j + 1))) with 0%nat by lia.
    replace (Z.to_nat (k - j)) with 0%nat by lia.
    replace (Z.to_nat (n / sz)) with (S (Z.to_nat ((n - sz) / sz))) by lia.
    rewrite <- app_assoc. reflexivity.
  - assert (Hjk : (j < k)%Z).
    { apply (Z.mul_lt_mono_pos_r sz); [done | lia]. }
    destruct (IH b n (cur + sz)%Z (j + 1)%Z k)
      as (b' & n' & cur' & Hrun & Ho); try done; try lia.
    exists b', n', cur'. split; [exact Hrun |]. rewrite Ho.
    replace (Z.to_nat (k - j)) with (S (Z.to_nat (k - (j + 1)))) by lia.
    reflexivity.
Qed.

(** A read that passes the check is the loop between [acquire] and
    [release] of the registry lock; the state it leaves does not depend
    on what the loop does. *)
Lemma lockstat_read_run fuel c off n st :
  (off mod sz = 0)%Z -> (sz <= n)%Z -> registry_idle st ->
  exists st', same_stats st st' /\ registry_idle st'
    /\ lockstat_read (S fuel) c off n st
       = '(b, _, cur) ← lockstat_read_loop (lockstat_list st) (kmem st) off
                           (mk_rdbuf 0 []) n 0%Z;
         Done (to_int (if (off <=? cur)%Z then u32 (cur - off) else 0%Z), b, st').
Proof.
  intros Hal Hlen Hidle. unfold lockstat_read.
  rewrite Hal. destruct (Z.ltb_spec n sz) as [|_]; [lia |]. simpl orb. cbv iota.
  destruct (registry_acquire fuel c st Hidle) as (st1 & Ha & Hheld & Hs1).
  rewrite Ha. cbn [mbind outcome_mbind bind].
  destruct (registry_release c (ncli (cpus st c)) st1 Hheld)
    as (st2 & Hr & Hidle2 & _ & Hs2).
  exists st2. split; [by apply (same_stats_trans st st1 st2) |].
  split; [exact Hidle2 |].
  destruct Hs1 as (Hm1 & Hl1 & _). rewrite Hl1, Hm1.
  destruct (lockstat_read_loop _ _ _ _ _ _) as [[[b n'] cur]| | |]; try reflexivity.
  cbn [mbind outcome_mbind bind]. by rewrite Hr.
Qed.

(** X9: what a read delivers.  A read that passes the check, of a
    well-formed registry whose serialization has fewer than 2^32 bytes,
    writes to the destination the records of the registry in registry
    order, starting with record number [off / sz] and stopping after
    [n / sz] records or at the end of the registry, whichever comes
    first; the registry and its records are as before. *)
Theorem lockstat_read_window (fuel : nat) (c : cpuid) (off n : Z) (st : kstate) :
  (0 < sz)%Z -> is_u32 n ->
  (off mod sz = 0)%Z -> (sz <= n)%Z ->
  registry_wf st -> (registry_bytes st < 2 ^ 32)%Z ->
  exists ret b st', lockstat_read (S fuel) c off n st = Done (ret, b, st')
    /\ out b = take (Z.to_nat (n / sz))
                 (drop (Z.to_nat (off / sz)) (registry_records st))
    /\ registry_records st' = registry_records st.
Proof.
  intros Hsz Hn Hal Hlen (Hidle & _ & Hlive) Hfit. unfold registry_bytes in Hfit.
  destruct (lockstat_read_loop_window (lockstat_list st) (kmem st) off
              (mk_rdbuf 0 []) n 0%Z 0%Z (off / sz)%Z)
    as (b & n' & cur' & Hloop & Ho); try done; try lia.
  { rewrite Z.mul_comm. apply Z.div_exact; lia. }
  destruct (lockstat_read_run fuel c off n st Hal Hlen Hidle)
    as (st' & (Hm & Hl & _) & _ & Hrun).
  rewrite Hloop in Hrun. cbn [mbind outcome_mbind bind] in Hrun.
  eexists _, b, st'. split; [exact Hrun |].
  split; [| unfold registry_records; by rewrite Hm, Hl].
  rewrite Ho. cbn [out app]. by rewrite Z.sub_0_r.
Qed.

(** The loop of [lockstat_read] looks at the [struct lockstat] part of
    the records only. *)
Lemma lockstat_read_loop_agree l m m' off : forall b n cur,
  (forall p, p ∈ l -> s <$> m !! p = s <$> m' !! p) ->
  lockstat_read_loop l m off b n cur = lockstat_read_loop l m' off b n cur.
Proof.
  induction l as [|p l IH]; intros b n cur Hag; [reflexivity |].
  assert (Hl : forall q, q ∈ l -> s <$> m !! q = s <$> m' !! q).
  { intros q Hq. apply Hag. by right. }
  simpl. destruct (n <? sz)%Z; [reflexivity |].
  destruct (off <=? cur)%Z; [| by apply IH].
  specialize (Hag p ltac:(left)).
  destruct (m !! p) as [k|], (m' !! p) as [k'|]; try discriminate; [| reflexivity].
  injection Hag as ->. by apply IH.
Qed.

(** X10: [lockstat_stop] is invisible to a reader.  The record of the
    lock stays in the registry with its name and counters, so every
    read after the call returns the value and writes the records that
    the same read before the call would have. *)
Theorem lockstat_stop_keeps_reads (lk lk' : spinlock) (st st' : kstate) :
  registry_idle st -> lockstat_stop lk st = Done (lk', st') ->
  registry_records st' = registry_records st
  /\ forall fuel c off n,
       fst <$> lockstat_read (S fuel) c off n st'
       = fst <$> lockstat_read (S fuel) c off n st.
Proof.
  intros Hidle Hstop.
  assert (Hsame : lockstat_list st' = lockstat_list st
                  /\ lockstat_lock st' = lockstat_lock st
                  /\ forall q, s <$> kmem st' !! q = s <$> kmem st !! q).
  { unfold lockstat_stop in Hstop. destruct (lk_stat lk) as [p|].
    - destruct (kmem st !! p) as [k|] eqn:Hk; [| discriminate].
      injection Hstop as _ <-. split; [reflexivity |]. split; [reflexivity |].
      intros q. cbn [kmem set_kmem]. destruct (decide (q = p)) as [->|Hne].
      + by rewrite lookup_insert_eq, Hk.
      + by rewrite lookup_insert_ne.
    - injection Hstop as _ <-. by repeat split. }
  destruct Hsame as (Hl & Hlock & Hs).
  split.
  { unfold registry_records. rewrite Hl. apply omap_agree. intros q _. apply Hs. }
  intros fuel c off n.
  destruct (decide (off mod sz = 0 /\ sz <= n)%Z) as [[Hal Hlen]|Hbad].
  - assert (Hidle' : registry_idle st').
    { unfold registry_idle. rewrite Hlock. exact Hidle. }
    destruct (lockstat_read_run fuel c off n st Hal Hlen Hidle) as (st2 & _ & _ & ->).
    destruct (lockstat_read_run fuel c off n st' Hal Hlen Hidle') as (st2' & _ & _ & ->).
    rewrite Hl.
    rewrite (lockstat_read_loop_agree (lockstat_list st) (kmem st') (kmem st) off)
      by (intros q _; apply Hs).
    by destruct (lockstat_read_loop _ _ _ _ _ _) as [[[b n'] cur]| | |].
  - unfold lockstat_read.
    destruct (Z.eqb_spec (off mod sz) 0) as [Hal|_]; [| reflexivity].
    destruct (Z.ltb_spec n sz) as [_|Hge]; [reflexivity | lia].
Qed.

(** *** Programs of calls

    A program is a list of calls on the locks of a world.  What follows
    describes the effect of one call on the statistics data and on the
    links of the locks, and then what every program keeps. *)

Lemma rec_like_refl k : rec_like k k.
Proof. by repeat split. Qed.

Lemma rec_like_trans k1 k2 k3 : rec_like k1 k2 -> rec_like k2 k3 -> rec_like k1 k3.
Proof. intros (?&?&?) (?&?&?). repeat split; congruence. Qed.

Lemma kmem_keeps_refl m : kmem_keeps m m.
Proof. intros p. destruct (m !! p); [apply rec_like_refl | done]. Qed.

Lemma same_stats_keep st st' : same_stats st st' -> stats_keep st st'.
Proof.
  intros (Hm & Hl & _). split.
  - rewrite Hm. apply kmem_keeps_refl.
  - intros q k Hq _ _. by rewrite Hl.
Qed.

(** [locked] keeps the link of the lock and the registry; in the heap it
    changes at most one counter. *)
Lemma locked_keeps c lk st lk' st' :
  locked c lk st = Done (lk', st') ->
  lk_stat lk' = lk_stat lk /\ lockstat_list st' = lockstat_list st
  /\ kmem_keeps (kmem st) (kmem st').
Proof.
  unfold locked. set (lk1 := if SPINLOCK_DEBUG then _ else lk).
  assert (Hs : lk_stat lk1 = lk_stat lk) by (subst lk1; by destruct SPINLOCK_DEBUG).
  intros Hrun.
  destruct (negb (lockstat_enable st =? 0)%Z).
  2: { injection Hrun as <- <-. split; [exact Hs |]. split; [reflexivity |].
       apply kmem_keeps_refl. }
  destruct (lk_stat lk1) as [p|] eqn:Hp.
  2: { injection Hrun as <- <-. split; [congruence |]. split; [reflexivity |].
       apply kmem_keeps_refl. }
  unfold count_acquire in Hrun.
  destruct (kmem st !! p) as [k|] eqn:Hk; [| discriminate].
  destruct (ls_cpu (s k) !! c) as [e|]; [| discriminate].
  cbn [mbind outcome_mbind bind] in Hrun. injection Hrun as <- <-.
  split; [congruence |]. split; [reflexivity |].
  intros q. cbn [kmem set_kmem]. destruct (decide (q = p)) as [->|Hne].
  - rewrite Hk, lookup_insert_eq. split; [reflexivity |]. split; [reflexivity |].
    cbn [s ls_cpu]. apply length_insert.
  - rewrite lookup_insert_ne by done.
    destruct (kmem st !! q); [apply rec_like_refl | done].
Qed.

Lemma acquire_keeps fuel c lk st lk' st' :
  acquire fuel c lk st = Done (lk', st') ->
  lk_stat lk' = lk_stat lk /\ stats_keep st st'.
Proof.
  intros Hrun. apply acquire_Done_inv in Hrun as (_ & _ & Hl).
  apply locked_keeps in Hl as (Hs & Hli & Hm).
  split; [exact Hs |]. split; [exact Hm |].
  intros q k Hq _ _. rewrite Hli. exact Hq.
Qed.

Lemma tryacquire_keeps c lk st r lk' st' :
  tryacquire c lk st = Done (r, lk', st') ->
  lk_stat lk' = lk_stat lk /\ stats_keep st st'.
Proof.
  unfold tryacquire. intros Hrun.
  destruct (locking c lk) as [[]| | |]; try discriminate.
  cbn [mbind outcome_mbind bind xchg32] in Hrun.
  destruct (negb (lk_locked lk =? 0)%Z).
  - destruct (popcli c _) as [st3| | |] eqn:Hp; try discriminate.
    cbn [mbind outcome_mbind bind] in Hrun. injection Hrun as _ <- <-.
    split; [reflexivity |]. apply same_stats_keep.
    unfold popcli in Hp. cbn [cpus set_xchgs pushcli set_cpus] in Hp.
    destruct (ncli _); [discriminate |]. injection Hp as <-. by repeat split.
  - destruct (locked c _ _) as [[lk2 st3]| | |] eqn:Hl; try discriminate.
    cbn [mbind outcome_mbind bind] in Hrun. injection Hrun as _ <- <-.
    apply locked_keeps in Hl as (Hs & Hli & Hm).
    split; [exact Hs |]. split; [exact Hm |].
    intros q k Hq _ _. rewrite Hli. exact Hq.
Qed.

Lemma release_keeps c lk st lk' st' :
  release c lk st = Done (lk', st') ->
  lk_stat lk' = lk_stat lk /\ stats_keep st st'.
Proof.
  unfold release, releasing. intros Hrun.
  assert (Hpop : forall x y, popcli c x = Done y -> same_stats x y).
  { intros x y Hp. unfold popcli in Hp. destruct (ncli _); [discriminate |].
    injection Hp as <-. by repeat split. }
  destruct SPINLOCK_DEBUG.
  - destruct (negb (holding lk c)); [discriminate |].
    cbn [mbind outcome_mbind bind xchg32] in Hrun.
    destruct (popcli c _) as [st2| | |] eqn:Hp; try discriminate.
    cbn [mbind outcome_mbind bind] in Hrun. injection Hrun as <- <-.
    split; [reflexivity |]. apply same_stats_keep.
    apply Hpop in Hp. destruct Hp as (?&?&?). by repeat split.
  - cbn [mbind outcome_mbind bind xchg32] in Hrun.
    destruct (popcli c _) as [st2| | |] eqn:Hp; try discriminate.
    cbn [mbind outcome_mbind bind] in Hrun. injection Hrun as <- <-.
    split; [reflexivity |]. apply same_stats_keep.
    apply Hpop in Hp. destruct Hp as (?&?&?). by repeat split.
Qed.

Lemma lockstat_clear_keeps fuel c st st' :
  registry_wf st -> lockstat_clear fuel c st = Done st' -> stats_keep st st'.
Proof.
  intros Hwf Hrun. destruct fuel as [|fuel].
  { unfold lockstat_clear in Hrun.
    destruct (on_lockstat_lock (acquire 0 c) st) as [y| | |] eqn:Ha; try discriminate.
    by destruct (registry_acquire_no_fuel c st y). }
  destruct (lockstat_clear_run fuel c st Hwf) as (st'' & Hrun' & Hl & Hk & _).
  rewrite Hrun' in Hrun. injection Hrun as <-.
  split.
  - intros p. rewrite Hk. destruct (decide (p ∈ lockstat_list st)) as [Hin|_].
    + destruct (kmem st !! p) as [k|]; [| done]. cbn [mbind option_bind].
      unfold clear_record. destruct (Z.eqb_spec (active k) 0) as [Hz|Hnz]; [exact Hz |].
      split; [reflexivity |]. split; [reflexivity |].
      cbn [zero_cpu s ls_cpu]. apply length_replicate.
    + destruct (kmem st !! p); [apply rec_like_refl | done].
  - intros q k Hq Hkq Hnz. rewrite Hl. apply list_elem_of_filter. split; [| exact Hq].
    unfold inactive. rewrite Hkq. by destruct (Z.eqb_spec (active k) 0).
Qed.

Lemma lockstat_read_same_stats fuel c off n st r b st' :
  registry_wf st -> lockstat_read fuel c off n st = Done (r, b, st') ->
  same_stats st st'.
Proof.
  intros Hwf Hrun.
  destruct (decide (off mod sz = 0 /\ sz <= n)%Z) as [[Hal Hlen]|Hbad].
  2: { unfold lockstat_read in Hrun.
       destruct (Z.eqb_spec (off mod sz) 0) as [Hal|_]; simpl in Hrun;
         [| injection Hrun as _ _ <-; apply same_stats_refl].
       destruct (Z.ltb_spec n sz) as [_|Hge];
         [injection Hrun as _ _ <-; apply same_stats_refl | lia]. }
  destruct fuel as [|fuel].
  { unfold lockstat_read in Hrun. rewrite Hal in Hrun.
    destruct (Z.ltb_spec n sz) as [|_]; [lia |]. simpl in Hrun.
    destruct (on_lockstat_lock (acquire 0 c) st) as [y| | |] eqn:Ha; try discriminate.
    by destruct (registry_acquire_no_fuel c st y). }
  destruct (lockstat_read_run fuel c off n st Hal Hlen (proj1 Hwf))
    as (st2 & Hsame & _ & Heq).
  rewrite Heq in Hrun.
  destruct (lockstat_read_loop _ _ _ _ _ _) as [[[b2 n2] cur2]| | |]; try discriminate.
  cbn [mbind outcome_mbind bind] in Hrun. by injection Hrun as _ _ <-.
Qed.

Lemma lockstat_write_keeps fuel c buf off n st r st' :
  registry_wf st -> lockstat_write fuel c buf off n st = Done (r, st') ->
  stats_keep st st'.
Proof.
  unfold lockstat_write. intros Hwf Hrun.
  destruct buf as [|b0 rest]; [discriminate |].
  destruct (b0 - ascii_zero =? LOCKSTAT_START)%Z.
  { injection Hrun as _ <-. split; [apply kmem_keeps_refl |]. by intros q k Hq _ _. }
  destruct (b0 - ascii_zero =? LOCKSTAT_STOP)%Z.
  { injection Hrun as _ <-. split; [apply kmem_keeps_refl |]. by intros q k Hq _ _. }
  destruct (b0 - ascii_zero =? LOCKSTAT_CLEAR)%Z.
  2: { injection Hrun as _ <-. apply same_stats_keep, same_stats_refl. }
  destruct (lockstat_clear fuel c st) as [st1| | |] eqn:Hc; try discriminate.
  cbn [mbind outcome_mbind bind] in Hrun. injection Hrun as _ <-.
  by apply (lockstat_clear_keeps fuel c st).
Qed.

(** A step of the world that keeps the statistics data and adds no link
    keeps the invariant and every active orphaned record. *)
Lemma world_keeps w w' :
  world_wf w -> registry_wf (kern w') ->
  stats_keep (kern w) (kern w') -> links_shrink w w' ->
  world_wf w'
  /\ forall p k, active k <> 0%Z -> orphaned p k w -> orphaned p k w'.
Proof.
  intros (Hwf & Hlen & Hlink & Hdist) Hwf' (Hkeep & Hlist) Hshrink.
  split; [split; [exact Hwf' | split; [| split]] |].
  - intros p k' Hk'. specialize (Hkeep p). rewrite Hk' in Hkeep.
    destruct (kmem (kern w) !! p) as [k|] eqn:Hk; [| done].
    destruct Hkeep as (_ & _ & Hlen'). rewrite Hlen'. by apply (Hlen p).
  - intros l lk' p Hl Hs.
    destruct (Hshrink l lk' p Hl Hs) as (lk & Hl0 & Hs0).
    destruct (Hlink l lk p Hl0 Hs0) as (k & Hk & Hnz).
    specialize (Hkeep p). rewrite Hk in Hkeep.
    destruct (kmem (kern w') !! p) as [k'|]; [| done].
    exists k'. split; [reflexivity |]. destruct Hkeep as (Ha & _). by rewrite Ha.
  - intros l1 l2 lk1 lk2 p Hl1 Hl2 Hs1 Hs2.
    destruct (Hshrink l1 lk1 p Hl1 Hs1) as (lk1' & Hl1' & Hs1').
    destruct (Hshrink l2 lk2 p Hl2 Hs2) as (lk2' & Hl2' & Hs2').
    by apply (Hdist l1 l2 lk1' lk2' p).
  - intros p k Hact (Hin & (k0 & Hk0 & Hlike) & Horph).
    assert (Hnz : active k0 <> 0%Z).
    { destruct Hlike as (Ha & _). by rewrite Ha. }
    split; [by apply (Hlist p k0) | split].
    + specialize (Hkeep p). rewrite Hk0 in Hkeep.
      destruct (kmem (kern w') !! p) as [k'|]; [| done].
      exists k'. split; [reflexivity |]. by apply (rec_like_trans k k0 k').
    + intros l lk' Hl Hs. destruct (Hshrink l lk' p Hl Hs) as (lk & Hl0 & Hs0).
      by apply (Horph l lk).
Qed.

(** A function that keeps the statistics data and the link of its lock
    argument (or drops the link), run on a lock of the world. *)
Lemma on_lock_keeps l f w w' :
  (forall lk lk' st', locks w !! l = Some lk -> f lk (kern w) = Done (lk', st') ->
     registry_wf st' /\ stats_keep (kern w) st'
     /\ (lk_stat lk' = lk_stat lk \/ lk_stat lk' = None)) ->
  world_wf w -> on_lock l f w = Done w' ->
  world_wf w'
  /\ forall p k, active k <> 0%Z -> orphaned p k w -> orphaned p k w'.
Proof.
  intros Hf Hw Hrun. unfold on_lock in Hrun.
  destruct (locks w !! l) as [lk|] eqn:Hl; [| discriminate].
  destruct (f lk (kern w)) as [[lk' st']| | |] eqn:Hfl; try discriminate.
  cbn [mbind outcome_mbind bind] in Hrun. injection Hrun as <-.
  destruct (Hf lk lk' st' eq_refl Hfl) as (Hwf' & Hkeep & Hs).
  apply world_keeps; [exact Hw | exact Hwf' | exact Hkeep |].
  intros l2 lk2 p. cbn [locks]. destruct (decide (l2 = l)) as [->|Hne].
  - rewrite lookup_insert_eq. intros [= <-] Hp. exists lk. split; [exact Hl |].
    destruct Hs as [Hs|Hs]; congruence.
  - rewrite lookup_insert_ne by done. intros Hl2 Hp. by exists lk2.
Qed.

Lemma on_kernel_keeps f w w' :
  (forall st', f (kern w) = Done st' ->
     registry_wf st' /\ stats_keep (kern w) st') ->
  world_wf w -> on_kernel f w = Done w' ->
  world_wf w'
  /\ forall p k, active k <> 0%Z -> orphaned p k w -> orphaned p k w'.
Proof.
  intros Hf Hw Hrun. unfold on_kernel in Hrun.
  destruct (f (kern w)) as [st'| | |] eqn:Hfl; try discriminate.
  cbn [mbind outcome_mbind bind] in Hrun. injection Hrun as <-.
  destruct (Hf st' eq_refl) as (Hwf' & Hkeep).
  apply world_keeps; [exact Hw | exact Hwf' | exact Hkeep |].
  intros l2 lk2 p Hl2 Hp. by exists lk2.
Qed.

(** [lockstat_stop] on a lock of the world: the record of the lock is
    marked inactive, and no other lock is linked to it. *)
Lemma on_lock_stop l w w' :
  world_wf w -> on_lock l lockstat_stop w = Done w' ->
  world_wf w'
  /\ forall p k, active k <> 0%Z -> orphaned p k w -> orphaned p k w'.
Proof.
  intros Hw Hrun.
  destruct (locks w !! l) as [lk|] eqn:Hl.
  2: { unfold on_lock in Hrun. by rewrite Hl in Hrun. }
  destruct (lk_stat lk) as [p|] eqn:Hp.
  2: { apply (on_lock_keeps l lockstat_stop w w'); [| exact Hw | exact Hrun].
       intros lk0 lk' st' Hl0 Hstop. rewrite Hl in Hl0. injection Hl0 as <-.
       unfold lockstat_stop in Hstop. rewrite Hp in Hstop. injection Hstop as <- <-.
       split; [exact (proj1 Hw) |].
       split; [apply same_stats_keep, same_stats_refl | by left]. }
  pose proof Hw as (Hwf & Hlen & Hlink & Hdist).
  destruct (Hlink l lk p Hl Hp) as (k & Hk & Hnz).
  unfold on_lock in Hrun. rewrite Hl in Hrun.
  destruct (lockstat_stop lk (kern w)) as [[lk' st']| | |] eqn:Hstop; try discriminate.
  cbn [mbind outcome_mbind bind] in Hrun. injection Hrun as <-.
  assert (Hwf' : registry_wf st') by (by apply (lockstat_stop_wf lk (kern w) lk' st')).
  unfold lockstat_stop in Hstop. rewrite Hp, Hk in Hstop. injection Hstop as <- <-.
  assert (Hother : forall l2 lk2 q,
            <[l := set_stat None lk]> (locks w) !! l2 = Some lk2 ->
            lk_stat lk2 = Some q ->
            l2 <> l /\ locks w !! l2 = Some lk2 /\ q <> p).
  { intros l2 lk2 q Hl2 Hq. destruct (decide (l2 = l)) as [->|Hne].
    - rewrite lookup_insert_eq in Hl2. injection Hl2 as <-. discriminate.
    - rewrite lookup_insert_ne in Hl2 by done. split; [exact Hne |].
      split; [exact Hl2 |]. intros ->. apply Hne. by apply (Hdist l2 l lk2 lk p). }
  split; [split; [exact Hwf' | split; [| split]] |]; cbn [locks kern kmem set_kmem].
  - intros q k'. destruct (decide (q = p)) as [->|Hne].
    + rewrite lookup_insert_eq. intros [= <-]. cbn [s]. by apply (Hlen p).
    + rewrite lookup_insert_ne by done. apply Hlen.
  - intros l2 lk2 q Hl2 Hq. destruct (Hother l2 lk2 q Hl2 Hq) as (_ & Hl2' & Hne).
    rewrite lookup_insert_ne by done. by apply (Hlink l2 lk2).
  - intros l1 l2 lk1 lk2 q Hl1 Hl2 Hq1 Hq2.
    destruct (Hother l1 lk1 q Hl1 Hq1) as (_ & Hl1' & _).
    destruct (Hother l2 lk2 q Hl2 Hq2) as (_ & Hl2' & _).
    by apply (Hdist l1 l2 lk1 lk2 q).
  - intros q k0 Hact (Hin & (k1 & Hk1 & Hlike) & Horph).
    assert (Hne : q <> p) by (intros ->; by apply (Horph l lk)).
    split; [exact Hin | split]; cbn [locks kern kmem set_kmem lockstat_list].
    + exists k1. by rewrite lookup_insert_ne.
    + intros l2 lk2 Hl2 Hq. destruct (Hother l2 lk2 q Hl2 Hq) as (_ & Hl2' & _).
      by apply (Horph l2 lk2).
Qed.

(** [lockstat_init] on a lock of the world, with an allocator that hands
    out unused blocks: the new record is live, active, has [NCPU]
    counters and is linked by this lock only. *)
Lemma on_lock_init fuel c l w w' :
  kmalloc_unused -> world_wf w -> on_lock l (lockstat_init fuel c) w = Done w' ->
  world_wf w'
  /\ forall p k, active k <> 0%Z -> orphaned p k w -> orphaned p k w'.
Proof.
  intros Hunused Hw Hrun.
  destruct (locks w !! l) as [lk|] eqn:Hl.
  2: { unfold on_lock in Hrun. by rewrite Hl in Hrun. }
  destruct (lk_stat lk) as [q0|] eqn:Hs.
  { unfold on_lock, lockstat_init in Hrun. by rewrite Hl, Hs in Hrun. }
  destruct (kmalloc (kmem (kern w))) as [p|] eqn:Hp.
  2: { apply (on_lock_keeps l (lockstat_init fuel c) w w'); [| exact Hw | exact Hrun].
       intros lk0 lk' st' Hl0 Hinit. rewrite Hl in Hl0. injection Hl0 as <-.
       unfold lockstat_init in Hinit. rewrite Hs, Hp in Hinit. injection Hinit as <- <-.
       split; [exact (proj1 Hw) |].
       split; [apply same_stats_keep, same_stats_refl | by right]. }
  pose proof Hw as (Hwf & Hlen & Hlink & Hdist).
  assert (Hfree : kmem (kern w) !! p = None) by (by apply Hunused).
  unfold on_lock in Hrun. rewrite Hl in Hrun.
  destruct (lockstat_init fuel c lk (kern w)) as [[lk' st']| | |] eqn:Hinit;
    try discriminate.
  cbn [mbind outcome_mbind bind] in Hrun. injection Hrun as <-.
  assert (Hwf' : registry_wf st').
  { apply (lockstat_init_wf fuel c lk (kern w) lk' st'); [| exact Hinit | exact Hwf].
    intros q Hq. by apply Hunused. }
  destruct fuel as [|fuel].
  { unfold lockstat_init in Hinit. rewrite Hs, Hp in Hinit.
    match type of Hinit with context [on_lockstat_lock (acquire 0 c) ?x] =>
      destruct (on_lockstat_lock (acquire 0 c) x) as [y| | |] eqn:Ha; try discriminate;
      by destruct (registry_acquire_no_fuel c x y)
    end. }
  destruct (lockstat_init_run fuel c lk (kern w) p Hs Hp (proj1 Hwf))
    as (st'' & Hinit' & Hm & Hli & _).
  rewrite Hinit' in Hinit. injection Hinit as <- <-.
  assert (Hother : forall l2 lk2 q,
            <[l := set_stat (Some p) lk]> (locks w) !! l2 = Some lk2 ->
            lk_stat lk2 = Some q ->
            (l2 = l /\ q = p) \/ (l2 <> l /\ locks w !! l2 = Some lk2 /\ q <> p)).
  { intros l2 lk2 q Hl2 Hq. destruct (decide (l2 = l)) as [->|Hne].
    - rewrite lookup_insert_eq in Hl2. injection Hl2 as <-. cbn [lk_stat set_stat] in Hq.
      left. split; [reflexivity | congruence].
    - rewrite lookup_insert_ne in Hl2 by done. right. split; [exact Hne |].
      split; [exact Hl2 |]. intros ->.
      destruct (Hlink l2 lk2 p Hl2 Hq) as (k & Hk & _). congruence. }
  split; [split; [exact Hwf' | split; [| split]] |]; cbn [locks kern].
  - intros q k'. rewrite Hm. destruct (decide (q = p)) as [->|Hne].
    + rewrite lookup_insert_eq. intros [= <-]. cbn [s ls_cpu]. apply length_replicate.
    + rewrite lookup_insert_ne by done. apply Hlen.
  - intros l2 lk2 q Hl2 Hq. rewrite Hm.
    destruct (Hother l2 lk2 q Hl2 Hq) as [(-> & ->)|(_ & Hl2' & Hne)].
    + rewrite lookup_insert_eq. eexists. split; [reflexivity |]. done.
    + rewrite lookup_insert_ne by done. by apply (Hlink l2 lk2).
  - intros l1 l2 lk1 lk2 q Hl1 Hl2 Hq1 Hq2.
    destruct (Hother l1 lk1 q Hl1 Hq1) as [(Ha1 & Hqp1)|(_ & Hl1' & Hne1)];
      destruct (Hother l2 lk2 q Hl2 Hq2) as [(Ha2 & Hqp2)|(_ & Hl2' & Hne2)];
      try done.
    + by rewrite Ha1, Ha2.
    + by apply (Hdist l1 l2 lk1 lk2 q).
  - intros q k0 Hact (Hin & (k1 & Hk1 & Hlike) & Horph).
    assert (Hne : q <> p) by (intros ->; congruence).
    split; [| split]; cbn [locks kern].
    + rewrite Hli. by right.
    + exists k1. rewrite Hm. by rewrite lookup_insert_ne.
    + intros l2 lk2 Hl2 Hq.
      destruct (Hother l2 lk2 q Hl2 Hq) as [(_ & Hqp)|(_ & Hl2' & _)]; [done |].
      by apply (Horph l2 lk2).
Qed.

(** The effect of one call: the invariant of the world is kept, and so
    is every active record that no lock is linked to. *)
Lemma do_call_effect k w w' :
  kmalloc_unused -> world_wf w -> do_call k w = Done w' ->
  world_wf w'
  /\ forall p k0, active k0 <> 0%Z -> orphaned p k0 w -> orphaned p k0 w'.
Proof.
  intros Hunused Hw Hrun. pose proof (proj1 Hw) as Hwf.
  destruct k as [l name|fuel c l|c l|c l|fuel c l|l|fuel c|fuel c off n|fuel c buf off n];
    cbn [do_call] in Hrun.
  - refine (on_lock_keeps _ _ _ _ _ Hw Hrun).
    intros lk lk' st' _ [= <- <-]. split; [exact Hwf |].
    split; [apply same_stats_keep, same_stats_refl |].
    right. by destruct (initlock_free lk name) as (_ & Hs & _).
  - refine (on_lock_keeps _ _ _ _ _ Hw Hrun).
    intros lk lk' st' _ Ha. split; [by apply (acquire_wf fuel c lk (kern w) lk') |].
    destruct (acquire_keeps _ _ _ _ _ _ Ha) as (Hs & Hkeep).
    split; [exact Hkeep | by left].
  - refine (on_lock_keeps _ _ _ _ _ Hw Hrun).
    intros lk lk' st' _ Ha.
    destruct (tryacquire c lk (kern w)) as [[[r lk2] st2]| | |] eqn:Ht; try discriminate.
    cbn [mbind outcome_mbind bind] in Ha. injection Ha as <- <-.
    split; [by apply (tryacquire_wf c lk (kern w) r lk2) |].
    destruct (tryacquire_keeps _ _ _ _ _ _ Ht) as (Hs & Hkeep).
    split; [exact Hkeep | by left].
  - refine (on_lock_keeps _ _ _ _ _ Hw Hrun).
    intros lk lk' st' _ Ha. split; [by apply (release_wf c lk (kern w) lk') |].
    destruct (release_keeps _ _ _ _ _ Ha) as (Hs & Hkeep).
    split; [exact Hkeep | by left].
  - by apply (on_lock_init fuel c l).
  - by apply (on_lock_stop l).
  - refine (on_kernel_keeps _ _ _ _ Hw Hrun).
    intros st' Hc. split; [by apply (lockstat_clear_wf fuel c (kern w)) |].
    by apply (lockstat_clear_keeps fuel c).
  - refine (on_kernel_keeps _ _ _ _ Hw Hrun).
    intros st' Hc.
    destruct (lockstat_read fuel c off n (kern w)) as [[[r b] st2]| | |] eqn:Hr;
      try discriminate.
    injection Hc as <-.
    split; [by apply (lockstat_read_wf fuel c off n (kern w) r b) |].
    apply same_stats_keep. by apply (lockstat_read_same_stats fuel c off n _ r b).
  - refine (on_kernel_keeps _ _ _ _ Hw Hrun).
    intros st' Hc.
    destruct (lockstat_write fuel c buf off n (kern w)) as [[r st2]| | |] eqn:Hwr;
      try discriminate.
    injection Hc as <-.
    split; [by apply (lockstat_write_wf fuel c buf off n (kern w) r) |].
    by apply (lockstat_write_keeps fuel c buf off n _ r).
Qed.

(** The locks of the world stay where they are. *)
Lemma do_call_locks k w w' :
  do_call k w = Done w' ->
  forall l, is_Some (locks w' !! l) <-> is_Some (locks w !! l).
Proof.
  assert (Hon : forall l f, on_lock l f w = Done w' ->
            forall l0, is_Some (locks w' !! l0) <-> is_Some (locks w !! l0)).
  { intros l f Hrun l0. unfold on_lock in Hrun.
    destruct (locks w !! l) as [lk|] eqn:Hl; [| discriminate].
    destruct (f lk (kern w)) as [[lk' st']| | |]; try discriminate.
    injection Hrun as <-. cbn [locks]. rewrite lookup_insert_is_Some.
    split.
    - intros [<-|[_ H]]; [by rewrite Hl | exact H].
    - intros H. destruct (decide (l = l0)); [by left | by right]. }
  assert (Hker : forall f, on_kernel f w = Done w' ->
            forall l0, is_Some (locks w' !! l0) <-> is_Some (locks w !! l0)).
  { intros f Hrun l0. unfold on_kernel in Hrun.
    destruct (f (kern w)) as [st'| | |]; try discriminate.
    by injection Hrun as <-. }
  destruct k; cbn [do_call]; first [apply Hon | apply Hker].
Qed.

Lemma call_ok_later k0 k w w' :
  do_call k0 w = Done w' -> call_ok w k -> call_ok w' k.
Proof.
  intros Hrun Hok. pose proof (do_call_locks k0 w w' Hrun) as Hl.
  destruct k; cbn [call_ok] in *; try exact Hok; try (by apply Hl).
  - destruct Hok as [Hok Hc]. split; [by apply Hl | exact Hc].
  - destruct Hok as [Hok Hc]. split; [by apply Hl | exact Hc].
Qed.

(** The functions dereference no dangling pointer and index no counter
    out of range, as long as their arguments are sound. *)
Lemma acquire_0 c lk st :
  acquire 0 c lk st = Panic "acquire" \/ acquire 0 c lk st = Spin.
Proof. unfold acquire, locking. destruct (_ && _); [by left | by right]. Qed.

Lemma popcli_no_fault c st : popcli c st <> Fault.
Proof. unfold popcli. by destruct (ncli _). Qed.

Lemma acquire_no_fault fuel c lk st :
  stat_live c lk st -> acquire fuel c lk st <> Fault.
Proof.
  intros Hlive. destruct fuel as [|fuel].
  { by destruct (acquire_0 c lk st) as [-> | ->]. }
  destruct (decide (lk_locked lk = 0%Z)) as [Hfree|Hheld].
  - destruct (acquire_free fuel c lk st Hfree Hlive) as (lk' & st' & -> & _). done.
  - unfold acquire, locking. destruct (_ && _); [done |].
    cbn [mbind outcome_mbind bind]. by rewrite (acquire_loop_held _ lk _ Hheld).
Qed.

Lemma tryacquire_no_fault c lk st :
  stat_live c lk st -> tryacquire c lk st <> Fault.
Proof.
  intros Hlive. unfold tryacquire, locking. destruct (_ && _); [done |].
  cbn [mbind outcome_mbind bind xchg32].
  destruct (negb (lk_locked lk =? 0)%Z).
  - match goal with |- context [popcli c ?x] =>
      pose proof (popcli_no_fault c x); by destruct (popcli c x)
    end.
  - match goal with |- context [locked c ?l ?x] =>
      destruct (locked_Done c l x) as (lk' & st' & -> & _); [| done]
    end.
    intros He p Hp. apply (Hlive He p Hp).
Qed.

Lemma release_no_fault c lk st : release c lk st <> Fault.
Proof.
  unfold release, releasing.
  destruct SPINLOCK_DEBUG; [destruct (negb _); [done |] |];
    cbn [mbind outcome_mbind bind xchg32];
    match goal with |- context [popcli c ?x] =>
      pose proof (popcli_no_fault c x); by destruct (popcli c x)
    end.
Qed.

Lemma registry_acquire_0 c st :
  on_lockstat_lock (acquire 0 c) st = Panic "acquire"
  \/ on_lockstat_lock (acquire 0 c) st = Spin.
Proof.
  unfold on_lockstat_lock.
  destruct (acquire_0 c (lockstat_lock st) st) as [-> | ->]; [by left | by right].
Qed.

Lemma lockstat_init_no_fault fuel c lk st :
  registry_idle st -> lockstat_init fuel c lk st <> Fault.
Proof.
  intros Hidle.
  destruct (lk_stat lk) as [q|] eqn:Hs.
  { unfold lockstat_init. by rewrite Hs. }
  destruct (kmalloc (kmem st)) as [p|] eqn:Hp.
  2: { unfold lockstat_init. by rewrite Hs, Hp. }
  destruct fuel as [|fuel].
  - unfold lockstat_init. rewrite Hs, Hp.
    match goal with |- context [on_lockstat_lock (acquire 0 c) ?x] =>
      by destruct (registry_acquire_0 c x) as [-> | ->]
    end.
  - destruct (lockstat_init_run fuel c lk st p Hs Hp Hidle) as (st' & -> & _). done.
Qed.

Lemma lockstat_clear_no_fault fuel c st :
  registry_wf st -> lockstat_clear fuel c st <> Fault.
Proof.
  intros Hwf. destruct fuel as [|fuel].
  - unfold lockstat_clear. by destruct (registry_acquire_0 c st) as [-> | ->].
  - destruct (lockstat_clear_run fuel c st Hwf) as (st' & -> & _). done.
Qed.

Lemma lockstat_read_loop_no_fault l m off : forall b n cur,
  (forall p, p ∈ l -> is_Some (m !! p)) ->
  exists r, lockstat_read_loop l m off b n cur = Done r.
Proof.
  induction l as [|p l IH]; intros b n cur Hlive; [by eexists |].
  assert (Hl : forall q, q ∈ l -> is_Some (m !! q)).
  { intros q Hq. apply Hlive. by right. }
  simpl. destruct (n <? sz)%Z; [by eexists |].
  destruct (off <=? cur)%Z; [| by apply IH].
  destruct (Hlive p) as [k Hk]; [left |]. rewrite Hk. by apply IH.
Qed.

Lemma lockstat_read_no_fault fuel c off n st :
  registry_wf st -> lockstat_read fuel c off n st <> Fault.
Proof.
  intros (Hidle & _ & Hlive).
  destruct (decide (off mod sz = 0 /\ sz <= n)%Z) as [[Hal Hlen]|Hbad].
  2: { unfold lockstat_read.
       destruct (Z.eqb_spec (off mod sz) 0) as [Hal|_]; [| done].
       destruct (Z.ltb_spec n sz) as [_|Hge]; [done | lia]. }
  destruct fuel as [|fuel].
  - unfold lockstat_read. rewrite Hal.
    destruct (Z.ltb_spec n sz) as [|_]; [lia |]. simpl orb. cbv iota.
    by destruct (registry_acquire_0 c st) as [-> | ->].
  - destruct (lockstat_read_run fuel c off n st Hal Hlen Hidle) as (st' & _ & _ & ->).
    destruct (lockstat_read_loop_no_fault (lockstat_list st) (kmem st) off
                (mk_rdbuf 0 []) n 0%Z Hlive) as ([[b n'] cur] & ->).
    done.
Qed.

Lemma lockstat_write_no_fault fuel c buf off n st :
  registry_wf st -> buf <> [] -> lockstat_write fuel c buf off n st <> Fault.
Proof.
  intros Hwf Hbuf. unfold lockstat_write. destruct buf as [|b0 rest]; [done |].
  destruct (b0 - ascii_zero =? LOCKSTAT_START)%Z; [done |].
  destruct (b0 - ascii_zero =? LOCKSTAT_STOP)%Z; [done |].
  destruct (b0 - ascii_zero =? LOCKSTAT_CLEAR)%Z; [| done].
  pose proof (lockstat_clear_no_fault fuel c st Hwf).
  by destruct (lockstat_clear fuel c st).
Qed.

(** The statistics link of a lock of a well-formed world is live for
    every one of the [NCPU] CPUs. *)
Lemma world_stat_live w l lk c :
  world_wf w -> locks w !! l = Some lk -> c < NCPU -> stat_live c lk (kern w).
Proof.
  intros (_ & Hlen & Hlink & _) Hl Hc _ p Hp.
  destruct (Hlink l lk p Hl Hp) as (k & Hk & _).
  destruct (lookup_lt_is_Some_2 (ls_cpu (s k)) c) as [e He].
  { by rewrite (Hlen p k Hk). }
  by exists k, e.
Qed.

Lemma do_call_no_fault k w :
  world_wf w -> call_ok w k -> do_call k w <> Fault.
Proof.
  intros Hw Hok. pose proof (proj1 Hw) as Hwf.
  assert (Hon : forall l f, is_Some (locks w !! l) ->
            (forall lk, locks w !! l = Some lk -> f lk (kern w) <> Fault) ->
            on_lock l f w <> Fault).
  { intros l f [lk Hl] Hf. unfold on_lock. rewrite Hl.
    specialize (Hf lk Hl). by destruct (f lk (kern w)) as [[lk' st']| | |]. }
  assert (Hker : forall f, f (kern w) <> Fault -> on_kernel f w <> Fault).
  { intros f Hf. unfold on_kernel. by destruct (f (kern w)). }
  destruct k as [l name|fuel c l|c l|c l|fuel c l|l|fuel c|fuel c off n|fuel c buf off n];
    cbn [do_call call_ok] in *.
  - apply Hon; [exact Hok | done].
  - destruct Hok as [Hl Hc]. apply Hon; [exact Hl |].
    intros lk Hlk. apply acquire_no_fault. by apply (world_stat_live w l).
  - destruct Hok as [Hl Hc]. apply Hon; [exact Hl |].
    intros lk Hlk.
    pose proof (tryacquire_no_fault c lk (kern w) (world_stat_live w l lk c Hw Hlk Hc)).
    by destruct (tryacquire c lk (kern w)) as [[[r lk2] st2]| | |].
  - apply Hon; [exact Hok |]. intros lk _. apply release_no_fault.
  - apply Hon; [exact Hok |]. intros lk _. apply lockstat_init_no_fault. exact (proj1 Hwf).
  - apply Hon; [exact Hok |]. intros lk Hlk. unfold lockstat_stop.
    destruct (lk_stat lk) as [p|] eqn:Hp; [| done].
    destruct Hw as (_ & _ & Hlink & _).
    destruct (Hlink l lk p Hlk Hp) as (k & -> & _). done.
  - apply Hker. by apply lockstat_clear_no_fault.
  - apply Hker. pose proof (lockstat_read_no_fault fuel c off n (kern w) Hwf).
    by destruct (lockstat_read fuel c off n (kern w)).
  - apply Hker. pose proof (lockstat_write_no_fault fuel c buf off n (kern w) Hwf Hok).
    by destruct (lockstat_write fuel c buf off n (kern w)).
Qed.

(** X11: every program keeps the world well formed.  With an allocator
    that hands out unused blocks, after any sequence of calls of the
    functions of the file that all return, on any CPUs and locks and
    with any arguments, the registry lock is free, no record is linked
    twice in the registry, every registered record is live, every
    record has [NCPU] counters, and every lock that is tracked is linked
    to a live, active record of its own. *)
Theorem do_calls_keep_world (ks : list call) (w w' : world) :
  kmalloc_unused -> world_wf w -> do_calls ks w = Done w' -> world_wf w'.
Proof.
  intros Hunused. revert w. induction ks as [|k ks IH]; intros w Hw Hrun.
  { by injection Hrun as <-. }
  cbn [do_calls] in Hrun.
  destruct (do_call k w) as [w1| | |] eqn:Hk; try discriminate.
  cbn [mbind outcome_mbind bind] in Hrun.
  apply (IH w1); [| exact Hrun].
  by destruct (do_call_effect k w w1 Hunused Hw Hk).
Qed.

(** X12: memory safety of the statistics.  With an allocator that hands
    out unused blocks, a program whose calls have sound arguments (the
    lock arguments address locks, the CPU of an acquisition is one of
    the [NCPU] CPUs, a write carries a command byte), started in a
    well-formed world, never follows a statistics link or a registry
    node to a freed record and never indexes a counter out of range:
    whatever the calls are, the run returns, stops in a fatal error or
    spins, and does not fault. *)
Theorem do_calls_memory_safe (ks : list call) (w : world) :
  kmalloc_unused -> world_wf w -> Forall (call_ok w) ks ->
  do_calls ks w <> Fault.
Proof.
  intros Hunused. revert w. induction ks as [|k ks IH]; intros w Hw Hok; [done |].
  apply Forall_cons in Hok as [Hk Hks]. cbn [do_calls].
  pose proof (do_call_no_fault k w Hw Hk) as Hnf.
  destruct (do_call k w) as [w1| | |] eqn:Hrun; try done.
  cbn [mbind outcome_mbind bind]. apply IH.
  - by destruct (do_call_effect k w w1 Hunused Hw Hrun).
  - eapply Forall_impl; [exact Hks |]. intros k'. by apply (call_ok_later k).
Qed.

(** X13: a record whose lock is gone is never freed.  If an active
    record is linked in the registry and no lock is linked to it (its
    lock was re-initialised with [initlock], or the memory of the lock
    was given up, without a [lockstat_stop]), then after any program
    that returns the record is still linked in the registry, still
    active and under the same name, and still no lock is linked to it:
    [lockstat_clear] frees inactive records only, and only
    [lockstat_stop], which needs the link, marks a record inactive. *)
Theorem orphaned_record_stays (ks : list call) (w w' : world) (p : ptr)
    (k : klockstat) :
  kmalloc_unused -> world_wf w -> active k <> 0%Z -> orphaned p k w ->
  do_calls ks w = Done w' ->
  orphaned p k w'.
Proof.
  intros Hunused Hw Hact. revert w Hw. induction ks as [|k0 ks IH]; intros w Hw Ho Hrun.
  { by injection Hrun as <-. }
  cbn [do_calls] in Hrun.
  destruct (do_call k0 w) as [w1| | |] eqn:Hk; try discriminate.
  cbn [mbind outcome_mbind bind] in Hrun.
  destruct (do_call_effect k0 w w1 Hunused Hw Hk) as (Hw1 & Horph).
  apply (IH w1 Hw1); [| exact Hrun]. by apply Horph.
Qed.

(** *** Concurrent callers: the checks and the lock word *)

Lemma locked_cpu c lk st lk' st' :
  locked c lk st = Done (lk', st') ->
  (SPINLOCK_DEBUG = true -> lk_cpu lk' = Some c) /\ cpus st' = cpus st.
Proof.
  unfold locked. intros H.
  assert (Hw : SPINLOCK_DEBUG = true ->
            lk_cpu (if SPINLOCK_DEBUG
                    then set_pcs (getcallerpcs c) (set_cpu (Some c) lk)
                    else lk) = Some c).
  { by intros ->. }
  destruct (negb (lockstat_enable st =? 0)%Z).
  - destruct (lk_stat _) as [p|].
    + unfold count_acquire in H. destruct (kmem st !! p) as [k|]; [| discriminate].
      destruct (ls_cpu (s k) !! c); [| discriminate].
      cbn [mbind outcome_mbind bind] in H. injection H as <- <-. by split.
    + injection H as <- <-. by split.
  - injection H as <- <-. by split.
Qed.

Lemma releasing_cpu c lk lk' :
  releasing c lk = Done lk' -> SPINLOCK_DEBUG = true -> lk_cpu lk' = None.
Proof.
  unfold releasing. intros H Hd. rewrite Hd in H.
  destruct (negb (holding lk c)); [discriminate |]. by injection H as <-.
Qed.

Lemma popcli_others c st st' :
  popcli c st = Done st' -> forall c', c' <> c -> cpus st' c' = cpus st c'.
Proof.
  unfold popcli. destruct (ncli (cpus st c)); [discriminate |].
  intros [= <-] c' Hne. cbn [cpus set_cpus]. by rewrite upd_cpu_other.
Qed.

(** A step of a CPU that is not in its critical section before or after
    and leaves the owner record alone. *)
Lemma owner_inv_aside lk lk' st st' f c x :
  owner_inv (mk_conf lk st f) ->
  f c <> Critical -> x <> Critical -> lk_cpu lk' = lk_cpu lk ->
  (forall c', c' <> c -> cpus st' c' = cpus st c') ->
  (x <> Outside -> ncli (cpus st' c) <> 0) ->
  owner_inv (mk_conf lk' st' (upd_pc c x f)).
Proof.
  intros [Hown Hdepth] Hpc Hx Hcpu Hoth Hmine. split; cbn [the_lock kernel at_pc] in *.
  - intros Hd c'. rewrite Hcpu. destruct (decide (c' = c)) as [->|Hne].
    + rewrite upd_pc_same. split; [| done]. intros Hc. by apply Hown in Hc.
    + rewrite upd_pc_other by done. by apply Hown.
  - intros c'. destruct (decide (c' = c)) as [->|Hne].
    + rewrite upd_pc_same. exact Hmine.
    + rewrite upd_pc_other, Hoth by done. apply Hdepth.
Qed.

Lemma owner_inv_step x y : lock_inv x -> owner_inv x -> step x y -> owner_inv y.
Proof.
  intros [Huniq _] Hinv Hstep. destruct Hstep as
    [c lk st f Hpc Hl | c lk st f old w st' Hpc Hx
    | c lk st f Hpc Hl | c lk st f old w st' Hpc Hx
    | c lk st f st' Hpc Hp | c lk st f lk' st' Hpc Hl
    | c lk st f lk' Hpc Hr | c lk st f old w st' Hpc Hx
    | c lk st f st' Hpc Hp]; cbn [the_lock kernel at_pc] in *.
  - apply (owner_inv_aside lk lk st); try done; [by rewrite Hpc | |].
    + intros c' Hne. unfold pushcli. cbn [cpus set_cpus]. by rewrite upd_cpu_other.
    + intros _. by rewrite ncli_pushcli.
  - unfold xchg32 in Hx. injection Hx as <- <- <-.
    apply (owner_inv_aside lk _ st); try done; [by rewrite Hpc | by destruct (negb _) |].
    intros _. apply (proj2 Hinv c). cbn [at_pc]. by rewrite Hpc.
  - apply (owner_inv_aside lk lk st); try done; [by rewrite Hpc | |].
    + intros c' Hne. unfold pushcli. cbn [cpus set_cpus]. by rewrite upd_cpu_other.
    + intros _. by rewrite ncli_pushcli.
  - unfold xchg32 in Hx. injection Hx as <- <- <-.
    apply (owner_inv_aside lk _ st); try done; [by rewrite Hpc | by destruct (negb _) |].
    intros _. apply (proj2 Hinv c). cbn [at_pc]. by rewrite Hpc.
  - apply (owner_inv_aside lk lk st); try done; [by rewrite Hpc |].
    by apply popcli_others.
  - destruct (locked_cpu c lk st lk' st' Hl) as [Hcpu Hcp].
    destruct Hinv as [Hown Hdepth]. cbn [the_lock kernel at_pc] in *.
    split; cbn [the_lock kernel at_pc].
    + intros Hd c'. rewrite (Hcpu Hd). destruct (decide (c' = c)) as [->|Hne].
      * by rewrite upd_pc_same.
      * rewrite upd_pc_other by done. split; [congruence |].
        intros Hc'. destruct Hne. apply Huniq; cbn [at_pc]; [by rewrite Hc' | by rewrite Hpc].
    + intros c'. rewrite Hcp. destruct (decide (c' = c)) as [->|Hne].
      * intros _. apply Hdepth. by rewrite Hpc.
      * rewrite upd_pc_other by done. apply Hdepth.
  - destruct Hinv as [Hown Hdepth]. cbn [the_lock kernel at_pc] in *.
    split; cbn [the_lock kernel at_pc].
    + intros Hd c'. rewrite (releasing_cpu c lk lk' Hr Hd).
      destruct (decide (c' = c)) as [->|Hne].
      * by rewrite upd_pc_same.
      * rewrite upd_pc_other by done. split; [done |].
        intros Hc'. destruct Hne. apply Huniq; cbn [at_pc]; [by rewrite Hc' | by rewrite Hpc].
    + intros c'. destruct (decide (c' = c)) as [->|Hne].
      * intros _. apply Hdepth. by rewrite Hpc.
      * rewrite upd_pc_other by done. apply Hdepth.
  - unfold xchg32 in Hx. injection Hx as <- <- <-.
    apply (owner_inv_aside lk _ st); try done; [by rewrite Hpc |].
    intros _. apply (proj2 Hinv c). cbn [at_pc]. by rewrite Hpc.
  - apply (owner_inv_aside lk lk st); try done; [by rewrite Hpc |].
    by apply popcli_others.
Qed.

(** X14: the checks of the file never fire on CPUs that keep to the
    protocol.  In a run of any number of CPUs that starts with the lock
    free and, in a debugging build, without a recorded owner (as
    [initlock] leaves it), in which every CPU calls [release] only after
    its own acquisition: the check of [locking] passes for every CPU
    that is outside (no fatal error "acquire"), the check of [releasing]
    passes for every CPU in its critical section (no fatal error
    "release"), and the [popcli] at the end of a failed [tryacquire] or
    of a [release] finds interrupts pushed off and returns. *)
Theorem checks_never_fire (x0 x : conf) :
  initial x0 ->
  (SPINLOCK_DEBUG = true -> lk_cpu (the_lock x0) = None) ->
  rtc step x0 x ->
  forall c,
    (at_pc x c = Outside -> locking c (the_lock x) = Done tt)
    /\ (at_pc x c = Critical -> exists lk', releasing c (the_lock x) = Done lk')
    /\ (at_pc x c = TryFailed \/ at_pc x c = RelCleared ->
        exists st', popcli c (kernel x) = Done st').
Proof.
  intros Hinit Hclean Hrun.
  assert (Hinv : lock_inv x /\ owner_inv x).
  { assert (H0 : lock_inv x0 /\ owner_inv x0).
    { split; [by apply lock_inv_initial |]. destruct Hinit as [_ Hout]. split.
      - intros Hd c. rewrite (Hclean Hd), Hout. split; discriminate.
      - intros c Hc. by destruct Hc. }
    clear Hinit Hclean. induction Hrun as [|x y z Hstep _ IH]; [exact H0 |].
    apply IH. destruct H0 as [Hl Ho].
    split; [by apply (lock_inv_step x y) | by apply (owner_inv_step x y)]. }
  destruct Hinv as [[_ Hword] [Hown Hdepth]]. intros c.
  split; [| split].
  - intros Hout. apply locking_Done. intros Hd. unfold holding.
    rewrite bool_decide_eq_false_2; [apply andb_false_r |].
    intros Hc. apply (Hown Hd) in Hc. congruence.
  - intros Hcrit.
    destruct (releasing_Done c (the_lock x)) as (lk' & Hr & _); [| by exists lk'].
    intros Hd. unfold holding. rewrite bool_decide_eq_true_2 by (by apply Hown).
    rewrite andb_true_r. apply negb_true_iff, Z.eqb_neq, (Hword c).
    by rewrite Hcrit.
  - intros Hpc.
    assert (Hn : ncli (cpus (kernel x) c) <> 0).
    { apply Hdepth. destruct Hpc as [-> | ->]; discriminate. }
    destruct (ncli (cpus (kernel x) c)) as [|d] eqn:Hd; [done |].
    destruct (popcli_pushed c (kernel x) d Hd) as (st' & Hp & _). by exists st'.
Qed.

(** X15: the lock word is set only while some CPU owns the lock.  In
    every configuration of such a run, a nonzero lock word means that
    some CPU is between its winning exchange and the exchange of its
    [release]; so when every CPU is outside, the lock is free again and
    the next [acquire] wins at its first exchange. *)
Theorem lock_word_has_owner (x0 x : conf) :
  initial x0 -> rtc step x0 x ->
  (lk_locked (the_lock x) <> 0%Z -> exists c, owns (at_pc x c) = true)
  /\ ((forall c, at_pc x c = Outside) -> lk_locked (the_lock x) = 0%Z).
Proof.
  intros Hinit Hrun.
  assert (Hinv : lk_locked (the_lock x) <> 0%Z -> exists c, owns (at_pc x c) = true).
  { assert (H0 : lk_locked (the_lock x0) <> 0%Z -> exists c, owns (at_pc x0 c) = true).
    { destruct Hinit as [Hfree _]. by rewrite Hfree. }
    clear Hinit. induction Hrun as [|x y z Hstep _ IH]; [exact H0 |].
    apply IH. clear IH.
    assert (Hstay : forall f c0 x',
              (exists c, owns (f c) = true) -> owns (f c0) = false ->
              exists c, owns (upd_pc c0 x' f c) = true).
    { intros f c0 x' [c Hc] Hc0. exists c. rewrite upd_pc_other; [exact Hc |].
      intros ->. congruence. }
    assert (Hme : forall f c0 x', owns x' = true ->
              exists c, owns (upd_pc c0 x' f c) = true).
    { intros f c0 x' Hx. exists c0. by rewrite upd_pc_same. }
    destruct Hstep as
      [c lk st f Hpc Hl | c lk st f old w st' Hpc Hx
      | c lk st f Hpc Hl | c lk st f old w st' Hpc Hx
      | c lk st f st' Hpc Hp | c lk st f lk' st' Hpc Hl
      | c lk st f lk' Hpc Hr | c lk st f old w st' Hpc Hx
      | c lk st f st' Hpc Hp]; cbn [the_lock kernel at_pc] in *.
    - intros Hw. apply Hstay; [by apply H0 | by rewrite Hpc].
    - unfold xchg32 in Hx. injection Hx as <- <- <-. intros _.
      destruct (Z.eqb_spec (lk_locked lk) 0) as [Hfree|Hheld]; cbn [negb].
      + by apply Hme.
      + apply Hstay; [by apply H0 | by rewrite Hpc].
    - intros Hw. apply Hstay; [by apply H0 | by rewrite Hpc].
    - unfold xchg32 in Hx. injection Hx as <- <- <-. intros _.
      destruct (Z.eqb_spec (lk_locked lk) 0) as [Hfree|Hheld]; cbn [negb].
      + by apply Hme.
      + apply Hstay; [by apply H0 | by rewrite Hpc].
    - intros Hw. apply Hstay; [by apply H0 | by rewrite Hpc].
    - intros _. by apply Hme.
    - intros _. by apply Hme.
    - unfold xchg32 in Hx. injection Hx as <- <- <-. intros Hw. by destruct Hw.
    - intros Hw. apply Hstay; [by apply H0 | by rewrite Hpc]. }
  split; [exact Hinv |].
  intros Hall. destruct (decide (lk_locked (the_lock x) = 0%Z)) as [|Hw]; [done |].
  destruct (Hinv Hw) as [c Hc]. rewrite Hall in Hc. discriminate.
Qed.

(** *** [initlock] *)

(** X16: [initlock] makes any lock ready.  Whatever the memory of the
    lock held before (a set lock word, a stale owner, a statistics
    link), the [acquire] that follows [initlock] wins at its first
    exchange: it returns with the lock word 1 and the CPU one nesting
    level deeper, and it counts nothing, even while collection is on,
    because [initlock] has dropped the statistics link. *)
Theorem initlock_then_acquire (fuel : nat) (c : cpuid) (lk : spinlock)
    (name : string) (st : kstate) :
  exists lk' st',
    acquire (S fuel) c (initlock lk name) st = Done (lk', st')
    /\ lk_locked lk' = 1%Z /\ lk_stat lk' = None
    /\ (SPINLOCK_DEBUG = true -> lk_name lk' = name /\ holding lk' c = true)
    /\ ncli (cpus st' c) = S (ncli (cpus st c))
    /\ kmem st' = kmem st /\ lockstat_list st' = lockstat_list st.
Proof.
  destruct (initlock_free lk name) as (Hfree & Hnone & _).
  destruct (acquire_free fuel c (initlock lk name) st Hfree)
    as (lk' & st' & Ha & Hw & Hs & Hnm & Hown & Hn & _ & _ & Hl & _ & Hm).
  { intros _ p Hp. congruence. }
  exists lk', st'. split; [exact Ha |]. split; [exact Hw |].
  split; [by rewrite Hs |].
  split.
  { intros Hd. split.
    - rewrite Hnm. unfold initlock. by rewrite Hd.
    - unfold holding. rewrite Hw, (Hown Hd). cbn [Z.eqb negb andb].
      by rewrite bool_decide_eq_true_2. }
  split; [exact Hn |]. split; [apply Hm; by right | exact Hl].
Qed.

End Spinlock.

(** ** The properties at concrete inputs *)

(** The fatal paths and the busy wait of a debugging build: CPU 0 holds
    the lock. *)
Example acquire_free_lock :
  acquire true no_pcs 1 0 free_lock st0 = Done (held_by_0, st_held).
Proof. reflexivity. Qed.

Example acquire_self_held_panics :
  acquire true no_pcs 5 0 held_by_0 st_held = Panic "acquire".
Proof. reflexivity. Qed.

Example acquire_held_spins :
  acquire true no_pcs 5 1 held_by_0 st_held = Spin.
Proof. reflexivity. Qed.

Example release_not_held_panics :
  release true 1 held_by_0 st_held = Panic "release".
Proof. reflexivity. Qed.

(** The plain build has no check: the same [tryacquire] returns 0. *)
Example tryacquire_self_held_plain :
  exists st', tryacquire false no_pcs 0 held_by_0 st_held
              = Done (0%Z, held_by_0, st')
    /\ ncli (cpus st' 0%nat) = ncli (cpus st_held 0%nat).
Proof. eexists. split; reflexivity. Qed.

Example lockstat_init_twice_panics :
  lockstat_init true 2 16 no_pcs kmalloc_3 1 0 tracked_lock st2 = Panic "initlockstat".
Proof. reflexivity. Qed.

Example lockstat_init_out_of_memory :
  lockstat_init true 2 16 no_pcs kmalloc_fail 1 0 free_lock st2 = Done (free_lock, st2).
Proof. reflexivity. Qed.

(** A name longer than the field is cut to fit it. *)
Example safestrcpy_cuts : safestrcpy "lockstat_lock" 8 = "locksta"%string.
Proof. reflexivity. Qed.

(** The run [run0] ... [run4] is a run of the debugging build. *)
Lemma run4_reachable : reachable true no_pcs run4.
Proof.
  assert (H0 : reachable true no_pcs run0).
  { apply reach_init. split; [reflexivity | intros c; reflexivity]. }
  assert (H1 : reachable true no_pcs run1).
  { apply (reach_step _ _ run0 run1 H0).
    apply (step_acquire_call true no_pcs 0 free_lock st0 (at_pc run0)); reflexivity. }
  assert (H2 : reachable true no_pcs run2).
  { apply (reach_step _ _ run1 run2 H1).
    apply (step_acquire_xchg true no_pcs 0 free_lock (kernel run1) (at_pc run1)
             0%Z 1%Z (set_xchgs 1 (kernel run1))); reflexivity. }
  assert (H3 : reachable true no_pcs run3).
  { apply (reach_step _ _ run2 run3 H2).
    apply (step_locked true no_pcs 0 (the_lock run2) (kernel run2) (at_pc run2));
      reflexivity. }
  apply (reach_step _ _ run3 run4 H3).
  apply (step_acquire_call true no_pcs 1 (the_lock run3) (kernel run3) (at_pc run3));
    reflexivity.
Qed.

(** C1 at [run4]: CPU 0 is in its critical section, CPU 1 is spinning,
    and any CPU in a critical section is CPU 0. *)
Lemma mutual_exclusion_witness :
  at_pc run4 0%nat = Critical
  /\ at_pc run4 1%nat = AcqSpin
  /\ (forall c, at_pc run4 c = Critical -> c = 0%nat).
Proof.
  split; [reflexivity |]. split; [reflexivity |].
  intros c Hc.
  exact (proj1 (mutual_exclusion true no_pcs run4 run4_reachable) c 0%nat Hc eq_refl).
Defined.

(** C2 at a lock held by CPU 0 and tried by CPU 1. *)
Lemma tryacquire_single_exchange_witness :
  exists st', tryacquire true no_pcs 1 held_by_0 st_held
      = Done (0%Z, set_locked 1 held_by_0, st')
    /\ xchgs st' = S (xchgs st_held)
    /\ ncli (cpus st' 1%nat) = ncli (cpus st_held 1%nat)
    /\ kmem st' = kmem st_held.
Proof.
  apply (proj1 (proj2 (tryacquire_single_exchange true no_pcs 1 held_by_0 st_held)
                  (fun _ => eq_refl))).
  simpl. lia.
Defined.

(** C2 as stated fails in a debugging build: after CPU 0 has acquired
    the free lock the lock word is 1, and a [tryacquire] of the same
    lock by CPU 0 neither returns 0 nor reaches the exchange: it stops
    in [panic("acquire")]. *)
Lemma tryacquire_debug_self_held :
  acquire true no_pcs 1 0 free_lock st0 = Done (held_by_0, st_held)
  /\ lk_locked held_by_0 = 1%Z
  /\ tryacquire true no_pcs 0 held_by_0 st_held = Panic "acquire".
Proof. repeat split. Qed.

(** C3 at the byte '0', and at the byte '2' on the two-record registry. *)
Lemma lockstat_write_commands_witness :
  lockstat_write true no_pcs 0 0 [48%Z] 0 1 st0 = Done (to_int 1, set_enable 1 st0)
  /\ exists st', lockstat_clear true no_pcs 1 0 st2 = Done st'
       /\ lockstat_write true no_pcs 1 0 [50%Z] 0 1 st2 = Done (to_int 1, st').
Proof.
  split.
  - apply (proj1 (lockstat_write_commands true no_pcs 0 0 48 [] 0 1 st0)).
    reflexivity.
  - eexists. split; [reflexivity |].
    apply (proj1 (proj2 (proj2 (lockstat_write_commands true no_pcs 1 0 50 [] 0 1 st2))));
      reflexivity.
Defined.

(** C3 as stated fails: the raw bytes 0 and 2 are rejected with -1 and
    change nothing, while the byte 48 (the character '0'), which is none
    of 0, 1 and 2, is accepted and switches collection on; and a count
    of 2^32 - 1 comes back as -1. *)
Lemma lockstat_write_raw_code_rejected :
  lockstat_write true no_pcs 1 0 [0%Z] 0 1 st0 = Done ((-1)%Z, st0)
  /\ lockstat_write true no_pcs 1 0 [2%Z] 0 1 st0 = Done ((-1)%Z, st0)
  /\ lockstat_write true no_pcs 1 0 [48%Z] 0 1 st0 = Done (1%Z, set_enable 1 st0)
  /\ lockstat_write true no_pcs 1 0 [48%Z] 0 (2 ^ 32 - 1) st0
     = Done ((-1)%Z, set_enable 1 st0).
Proof. repeat split. Qed.

(** C4 at an offset that is not a multiple of the record size. *)
Lemma lockstat_read_rejects_witness :
  lockstat_read true 64 no_pcs 0 0 1 64 st2 = Done ((-1)%Z, mk_rdbuf 0 [], st2).
Proof.
  apply (lockstat_read_rejects true 64 no_pcs 0 0 1 64 st2).
  left. vm_compute. discriminate.
Defined.

Lemma st2_idle : registry_idle st2.
Proof. split; reflexivity. Qed.

Lemma st2_live p : p ∈ lockstat_list st2 -> is_Some (kmem st2 !! p).
Proof.
  simpl. intros Hp. apply elem_of_cons in Hp as [->|Hp].
  { by exists rec_dead. }
  apply elem_of_cons in Hp as [->|Hp]; [by exists rec_live |].
  by apply elem_of_nil in Hp.
Qed.

Lemma st2_nodup : NoDup (lockstat_list st2).
Proof.
  simpl. apply NoDup_cons. split; [| apply NoDup_singleton].
  by intros ?%list_elem_of_singleton.
Qed.

Lemma st2_wf : registry_wf st2.
Proof. split; [exact st2_idle |]. split; [exact st2_nodup | exact st2_live]. Qed.

(** C5 at the two-record registry, read from the second record on. *)
Lemma lockstat_read_returns_copied_witness :
  exists ret b st', lockstat_read true 64 no_pcs 1 0 64 200 st2 = Done (ret, b, st')
    /\ dst b = (64 * Z.of_nat (length (out b)))%Z
    /\ ret = dst b.
Proof.
  destruct (lockstat_read_returns_copied true 64 no_pcs 0 0 64 200 st2)
    as (ret & b & st' & Hrun & Hd & Hret & _).
  - lia.
  - unfold is_u32. lia.
  - unfold is_u32. lia.
  - reflexivity.
  - lia.
  - exact st2_wf.
  - exists ret, b, st'. split; [exact Hrun |]. split; [exact Hd |].
    apply Hret. vm_compute. reflexivity.
Defined.

Lemma big_list_length : Z.of_nat (length big_list) = (2 ^ 25)%Z.
Proof.
  unfold big_list, big_count. rewrite length_fmap, length_seq.
  apply Z2Nat.id. lia.
Qed.

Lemma st_big_bytes : registry_bytes 64 st_big = (2 ^ 31)%Z.
Proof.
  unfold registry_bytes, st_big. cbn [lockstat_list].
  rewrite big_list_length. reflexivity.
Qed.

Lemma st_big_live p : p ∈ lockstat_list st_big -> is_Some (kmem st_big !! p).
Proof.
  unfold st_big. cbn [lockstat_list kmem]. intros Hp. exists rec_live.
  apply lookup_gset_to_gmap_Some. split; [| reflexivity].
  by apply elem_of_list_to_set.
Qed.

Lemma st_big_wf : registry_wf st_big.
Proof.
  split; [by split |]. split; [| exact st_big_live].
  unfold st_big, big_list. cbn [lockstat_list].
  apply NoDup_fmap_2; [| apply NoDup_seq].
  intros i j. apply SuccNat2Pos.inj.
Qed.

(** C5 as stated fails once the byte count no longer fits the [int]
    result: with records of 64 bytes and a well-formed registry of 2^25
    records, a read of 2^31 bytes from offset 0 (both values of [u32],
    the offset a multiple of 64) copies 2^31 bytes and returns -2^31. *)
Lemma lockstat_read_int_overflow :
  registry_wf st_big
  /\ exists b st', lockstat_read true 64 no_pcs 1 0 0 (2 ^ 31) st_big
        = Done ((- 2 ^ 31)%Z, b, st')
      /\ dst b = (2 ^ 31)%Z.
Proof.
  split; [exact st_big_wf |].
  destruct (lockstat_read_whole_registry true 64 no_pcs 0 0 st_big)
    as (b & st' & Hrun & Hd).
  - lia.
  - split; reflexivity.
  - exact st_big_live.
  - rewrite st_big_bytes. lia.
  - rewrite st_big_bytes in Hrun, Hd. exists b, st'. split; [exact Hrun | exact Hd].
Qed.

(** C6 at the two-record registry: the detached record at address 2 is
    unlinked and freed, the record at address 1 stays with its counters
    zeroed. *)
Lemma lockstat_clear_sweeps_witness :
  exists st', lockstat_clear true no_pcs 1 0 st2 = Done st'
    /\ lockstat_list st' = [1%positive]
    /\ kmem st' !! 2%positive = None
    /\ kmem st' !! 1%positive
       = Some (mk_klockstat 1 (mk_lockstat "cons" [mk_cpulockstat 0; mk_cpulockstat 0])).
Proof.
  destruct (lockstat_clear_sweeps true no_pcs 0 0 st2 st2_wf)
    as (st' & Hrun & Hl & Hdead & Hkeep & _).
  exists st'. split; [exact Hrun |]. split; [rewrite Hl; reflexivity |].
  split.
  - apply (Hdead 2%positive rec_dead); [left | reflexivity | reflexivity].
  - apply (Hkeep 1%positive rec_live); [right; left | reflexivity | discriminate].
Defined.

(** C7 at a free, untracked lock with an allocator that succeeds. *)
Lemma lockstat_init_cases_witness :
  exists st', lockstat_init true 2 16 no_pcs kmalloc_3 1 0 free_lock st0
      = Done (set_stat (Some 3%positive) free_lock, st')
    /\ kmem st' !! 3%positive
       = Some (mk_klockstat 1 (mk_lockstat "cons" [mk_cpulockstat 0; mk_cpulockstat 0]))
    /\ lockstat_list st' = [3%positive].
Proof.
  destruct (proj2 (proj2 (lockstat_init_cases true 2 16 no_pcs kmalloc_3 0 0 free_lock st0))
              3%positive eq_refl eq_refl (conj eq_refl eq_refl))
    as (st' & Hrun & Hrec & _ & Hl & _).
  exists st'. split; [exact Hrun |]. split; [exact Hrec | exact Hl].
Defined.

(** C8 at the tracked lock while collection is off: the acquisition
    changes no record, and after the start command the next one counts
    6 on top of the 5 acquisitions of CPU 0. *)
Lemma lockstat_gating_witness :
  (forall fuel lk' st',
     acquire true no_pcs fuel 0 tracked_lock st2 = Done (lk', st') ->
     kmem st' = kmem st2)
  /\ exists lk1 st1 lk2 st2' st3 lk4 st4,
       acquire true no_pcs 1 0 tracked_lock st2 = Done (lk1, st1)
       /\ kmem st1 = kmem st2
       /\ release true 0 lk1 st1 = Done (lk2, st2')
       /\ lockstat_write true no_pcs 0 0 [48%Z] 0 1 st2' = Done (to_int 1, st3)
       /\ lockstat_enable st3 = 1%Z
       /\ kmem st3 = kmem st2
       /\ acquire true no_pcs 1 0 lk2 st3 = Done (lk4, st4)
       /\ kmem st4 = <[1%positive := counted 0 rec_live (mk_cpulockstat 5)]> (kmem st2).
Proof.
  split.
  - exact (proj1 (proj1 (lockstat_gating true no_pcs 0 tracked_lock st2)
                    (or_introl eq_refl))).
  - exact (proj2 (lockstat_gating true no_pcs 0 tracked_lock st2)
             0%nat 1%positive rec_live (mk_cpulockstat 5) [] 0%Z 1%Z
             eq_refl eq_refl eq_refl eq_refl eq_refl).
Defined.

(** C9 at the tracked lock. *)
Lemma lockstat_stop_idempotent_witness :
  (lockstat_stop tracked_lock st2 ≫= (fun r => lockstat_stop (fst r) (snd r)))
  = lockstat_stop tracked_lock st2.
Proof. exact (proj1 (lockstat_stop_idempotent tracked_lock st2)). Defined.

(** C10 at a length that is not a multiple of the record size. *)
Lemma lockstat_read_whole_records_witness :
  exists ret b st', lockstat_read true 64 no_pcs 1 0 0 100 st2 = Done (ret, b, st')
    /\ dst b = (64 * Z.of_nat (length (out b)))%Z
    /\ (dst b mod 64 = 0)%Z
    /\ (dst b <= 100)%Z.
Proof.
  apply (lockstat_read_whole_records true 64 no_pcs 0 0 0 100 st2).
  - lia.
  - unfold is_u32. lia.
  - reflexivity.
  - lia.
  - exact st2_wf.
Defined.

(** ** The further properties at concrete inputs *)


(** X2 at the lock held by CPU 0: CPU 1 spins whatever the fuel, CPU 0
    stops in the fatal error. *)
Lemma acquire_held_never_returns_witness :
  lk_locked held_by_0 <> 0%Z
  /\ (forall fuel, acquire true no_pcs fuel 1 held_by_0 st_held = Spin)
  /\ (forall fuel, acquire true no_pcs fuel 0 held_by_0 st_held = Panic "acquire").
Proof.
  assert (Hheld : lk_locked held_by_0 <> 0%Z) by discriminate.
  split; [exact Hheld |]. split; intros fuel.
  - exact (acquire_held_never_returns true no_pcs 1 held_by_0 st_held Hheld fuel).
  - exact (acquire_held_never_returns true no_pcs 0 held_by_0 st_held Hheld fuel).
Defined.

(** X3 at the lock held by CPU 0 and released by CPU 1, which is inside
    its own [acquire]: the debugging build stops, the plain build frees
    the lock of CPU 0. *)
Lemma release_checks_owner_witness :
  release true 1 held_by_0 (kernel run4) = Panic "release"
  /\ exists st', release false 1 held_by_0 (kernel run4)
                 = Done (set_locked 0 held_by_0, st')
       /\ ncli (cpus st' 1%nat) = 0.
Proof.
  split.
  - apply (proj1 (release_checks_owner true 1 held_by_0 (kernel run4)) eq_refl).
    right. discriminate.
  - destruct (proj2 (release_checks_owner false 1 held_by_0 (kernel run4)) eq_refl 0
                eq_refl) as (st' & Hr & Hn & _).
    exists st'. split; [exact Hr | exact Hn].
Defined.

(** X4 at the free lock in the kernel at rest. *)
Lemma acquire_release_round_trip_witness :
  exists lk1 st1 lk2 st2',
    acquire true no_pcs 1 0 free_lock st0 = Done (lk1, st1)
    /\ release true 0 lk1 st1 = Done (lk2, st2')
    /\ lk_locked lk2 = 0%Z
    /\ ncli (cpus st2' 0%nat) = 0
    /\ xchgs st2' = 2.
Proof.
  destruct (acquire_release_round_trip true no_pcs 0 0 free_lock st0 eq_refl)
    as (lk1 & st1 & lk2 & st2' & Ha & Hr & Hw & _ & _ & _ & _ & Hn & _ & Hx & _).
  { intros Hon. by destruct Hon. }
  exists lk1, st1, lk2, st2'. repeat (split; [assumption |]). exact Hx.
Defined.

(** X5 at the free lock: after the [acquire] of CPU 0, CPU 0 and nobody
    else holds it. *)
Lemma holding_follows_calls_witness :
  lk_locked held_by_0 = 1%Z
  /\ forall c', holding held_by_0 c' = bool_decide (c' = 0%nat).
Proof.
  destruct (proj1 (holding_follows_calls true no_pcs 0 free_lock st0)
              1 held_by_0 st_held eq_refl) as [Hw Hh].
  split; [exact Hw | exact (Hh eq_refl)].
Defined.

(** X6 at the tracked lock with collection on: three rounds take the
    counter of CPU 0 from 5 to 8. *)
Lemma acquire_release_counts_witness :
  exists lk' st',
    acquire_release true no_pcs 3 1 0 tracked_lock st2_on = Done (lk', st')
    /\ kmem st' !! 1%positive
       = Some (mk_klockstat 1 (mk_lockstat "cons" [mk_cpulockstat 8; mk_cpulockstat 0])).
Proof.
  destruct (acquire_release_counts true no_pcs 3 0 0 tracked_lock st2_on 1%positive
              rec_live (mk_cpulockstat 5) eq_refl)
    as (lk' & st' & Hrun & _ & Hm); try reflexivity.
  - discriminate.
  - cbn [acquires]. lia.
  - exists lk', st'. split; [exact Hrun |]. rewrite Hm. apply lookup_insert_eq.
Defined.

(** X7 at the two-record registry, with a new record at address 3. *)
Lemma lockstat_record_life_witness :
  exists st1 st3 st4 st5,
    lockstat_init true 2 8 no_pcs kmalloc_3 1 0 free_lock st2
      = Done (set_stat (Some 3%positive) free_lock, st1)
    /\ lockstat_clear true no_pcs 1 0 st1 = Done st3
    /\ kmem st3 !! 3%positive
       = Some (mk_klockstat 1 (mk_lockstat "cons" [mk_cpulockstat 0; mk_cpulockstat 0]))
    /\ lockstat_stop (set_stat (Some 3%positive) free_lock) st1 = Done (free_lock, st4)
    /\ lockstat_clear true no_pcs 1 0 st4 = Done st5
    /\ kmem st5 !! 3%positive = None.
Proof.
  destruct (lockstat_record_life true 2 8 no_pcs kmalloc_3 0 0 free_lock st2 3%positive
              st2_wf eq_refl eq_refl eq_refl)
    as (st1 & st2c & st3 & st4 & st5 & Hi & _ & Hc2 & Hc3 & _ & Hm3 & Hs & _ & Hc5 & _ & Hm5).
  exists st1, st3, st4, st5.
  split; [exact Hi |]. split; [exact Hc3 |].
  split; [rewrite Hm3; apply lookup_insert_eq |].
  split; [exact Hs |]. split; [exact Hc5 |].
  rewrite Hm5.
  assert (Hc : lockstat_clear true no_pcs 1 0 st2 ≫= (fun st => Done (kmem st !! 3%positive))
               = Done None) by reflexivity.
  rewrite Hc2 in Hc. by injection Hc.
Defined.

(** X8 at the two-record registry. *)
Lemma lockstat_clear_idempotent_witness :
  exists st1 st2',
    lockstat_clear true no_pcs 1 0 st2 = Done st1
    /\ lockstat_clear true no_pcs 1 0 st1 = Done st2'
    /\ lockstat_list st2' = lockstat_list st1
    /\ kmem st2' = kmem st1.
Proof.
  destruct (lockstat_clear_idempotent true no_pcs 0 0 st2 st2_wf)
    as (st1 & st2' & H1 & H2 & Hl & Hm & _).
  by exists st1, st2'.
Defined.

(** X9 at the two-record registry: a read of 200 bytes from offset 64
    delivers the second record and nothing else. *)
Lemma lockstat_read_window_witness :
  exists ret b st', lockstat_read true 64 no_pcs 1 0 64 200 st2 = Done (ret, b, st')
    /\ out b = [mk_lockstat "cons" [mk_cpulockstat 5; mk_cpulockstat 0]].
Proof.
  destruct (lockstat_read_window true 64 no_pcs 0 0 64 200 st2)
    as (ret & b & st' & Hrun & Ho & _).
  - lia.
  - unfold is_u32. lia.
  - reflexivity.
  - lia.
  - exact st2_wf.
  - vm_compute. reflexivity.
  - exists ret, b, st'. split; [exact Hrun |]. rewrite Ho. reflexivity.
Defined.

(** X10 at the tracked lock of the two-record registry. *)
Lemma lockstat_stop_keeps_reads_witness :
  exists lk' st', lockstat_stop tracked_lock st2 = Done (lk', st')
    /\ registry_records st' = registry_records st2
    /\ fst <$> lockstat_read true 64 no_pcs 1 0 0 128 st'
       = fst <$> lockstat_read true 64 no_pcs 1 0 0 128 st2.
Proof.
  eexists _, _. split; [reflexivity |].
  destruct (lockstat_stop_keeps_reads true 64 no_pcs tracked_lock _ st2 _
              st2_idle eq_refl) as [Hrec Hread].
  split; [exact Hrec | exact (Hread 0 0%nat 0%Z 128%Z)].
Defined.

Lemma kmalloc_fresh_unused : kmalloc_unused kmalloc_fresh.
Proof.
  intros m p [= <-]. apply not_elem_of_dom. apply is_fresh.
Qed.

Lemma w0_wf : world_wf 2 w0.
Proof.
  split; [exact registry_wf_st0 |]. split; [| split].
  - intros p k Hk. change (kmem (kern w0)) with (∅ : gmap ptr klockstat) in Hk.
    by rewrite lookup_empty in Hk.
  - intros l lk p Hl Hp.
    change (locks w0) with ({[ 0%nat := free_lock ]} : gmap lockid spinlock) in Hl.
    apply lookup_singleton_Some in Hl as [_ <-]. discriminate.
  - intros l1 l2 lk1 lk2 p Hl1 _ Hp.
    change (locks w0) with ({[ 0%nat := free_lock ]} : gmap lockid spinlock) in Hl1.
    apply lookup_singleton_Some in Hl1 as [_ <-]. discriminate.
Qed.

Lemma w_orphan_wf : world_wf 2 w_orphan.
Proof.
  split; [exact st2_wf |]. split; [| split].
  - intros p k Hk.
    change (kmem (kern w_orphan))
      with (<[1%positive := rec_live]> (<[2%positive := rec_dead]> ∅)
            : gmap ptr klockstat) in Hk.
    apply lookup_insert_Some in Hk as [[_ <-]|[_ Hk]]; [reflexivity |].
    apply lookup_insert_Some in Hk as [[_ <-]|[_ Hk]]; [reflexivity |].
    by rewrite lookup_empty in Hk.
  - intros l lk p Hl Hp.
    change (locks w_orphan) with ({[ 0%nat := free_lock ]} : gmap lockid spinlock) in Hl.
    apply lookup_singleton_Some in Hl as [_ <-]. discriminate.
  - intros l1 l2 lk1 lk2 p Hl1 _ Hp.
    change (locks w_orphan) with ({[ 0%nat := free_lock ]} : gmap lockid spinlock) in Hl1.
    apply lookup_singleton_Some in Hl1 as [_ <-]. discriminate.
Qed.

Lemma session_ok : Forall (call_ok 2 w0) session.
Proof.
  assert (Hl : is_Some (locks w0 !! 0%nat)) by (by exists free_lock).
  unfold session. repeat apply Forall_cons_2; try apply Forall_nil_2;
    cbn [call_ok]; try exact Hl; try done.
  split; [exact Hl | lia].
Qed.

(** X11 at the session on the one-lock world: it returns, and the world
    it leaves is well formed, with an empty registry. *)
Lemma do_calls_keep_world_witness :
  exists w', do_calls true 2 8 64 no_pcs kmalloc_fresh session w0 = Done w'
    /\ lockstat_list (kern w') = []
    /\ world_wf 2 w'.
Proof.
  eexists. split; [vm_compute; reflexivity |]. split; [reflexivity |].
  apply (do_calls_keep_world true 2 8 64 no_pcs kmalloc_fresh session w0 _
           kmalloc_fresh_unused w0_wf).
  vm_compute. reflexivity.
Defined.

(** X12 at the same session. *)
Lemma do_calls_memory_safe_witness :
  do_calls true 2 8 64 no_pcs kmalloc_fresh session w0 <> Fault.
Proof.
  exact (do_calls_memory_safe true 2 8 64 no_pcs kmalloc_fresh session w0
           kmalloc_fresh_unused w0_wf session_ok).
Defined.

(** How a record is orphaned: the tracked lock is re-initialised.  The
    record stays in the registry through the sweep, and no lock is
    linked to it. *)
Example initlock_orphans_record :
  exists w', do_calls true 2 8 64 no_pcs kmalloc_fresh leaky_session w0 = Done w'
    /\ lockstat_list (kern w') = [1%positive]
    /\ (active <$> kmem (kern w') !! 1%positive) = Some 1%Z
    /\ (lk_stat <$> locks w' !! 0%nat) = Some None.
Proof. eexists. split; [vm_compute; reflexivity |]. repeat split. Qed.

Lemma w_orphan_orphaned : orphaned 1%positive rec_live w_orphan.
Proof.
  split; [right; left |]. split.
  - exists rec_live. split; [reflexivity | by repeat split].
  - intros l lk Hl Hp.
    change (locks w_orphan) with ({[ 0%nat := free_lock ]} : gmap lockid spinlock) in Hl.
    apply lookup_singleton_Some in Hl as [_ <-]. discriminate.
Qed.

(** X13 at the record at address 1 of the two-record registry, which no
    lock is linked to: the session, which tracks a lock, stops the
    tracking and clears, leaves it in the registry. *)
Lemma orphaned_record_stays_witness :
  exists w', do_calls true 2 8 64 no_pcs kmalloc_fresh session w_orphan = Done w'
    /\ lockstat_list (kern w') = [1%positive]
    /\ orphaned 1%positive rec_live w'.
Proof.
  eexists. split; [vm_compute; reflexivity |]. split; [reflexivity |].
  apply (orphaned_record_stays true 2 8 64 no_pcs kmalloc_fresh session w_orphan _
           1%positive rec_live kmalloc_fresh_unused w_orphan_wf).
  - discriminate.
  - exact w_orphan_orphaned.
  - vm_compute. reflexivity.
Defined.

Lemma run4_rtc : rtc (step true no_pcs) run0 run4.
Proof.
  eapply rtc_l.
  { apply (step_acquire_call true no_pcs 0 free_lock st0 (at_pc run0)); reflexivity. }
  eapply rtc_l.
  { apply (step_acquire_xchg true no_pcs 0 free_lock (kernel run1) (at_pc run1)
             0%Z 1%Z (set_xchgs 1 (kernel run1))); reflexivity. }
  eapply rtc_l.
  { apply (step_locked true no_pcs 0 (the_lock run2) (kernel run2) (at_pc run2)
             (the_lock run3) (kernel run3)); reflexivity. }
  apply rtc_once.
  apply (step_acquire_call true no_pcs 1 (the_lock run3) (kernel run3) (at_pc run3));
    reflexivity.
Qed.

Lemma run0_initial : initial run0.
Proof. split; [reflexivity | intros c; reflexivity]. Qed.

(** X14 at [run4]: CPU 0, in its critical section, passes the check of
    [releasing]; CPU 2, outside, passes the check of [locking]. *)
Lemma checks_never_fire_witness :
  (exists lk', releasing true 0 (the_lock run4) = Done lk')
  /\ locking true 2 (the_lock run4) = Done tt.
Proof.
  split.
  - exact (proj1 (proj2 (checks_never_fire true no_pcs run0 run4 run0_initial
                           (fun _ => eq_refl) run4_rtc 0%nat)) eq_refl).
  - exact (proj1 (checks_never_fire true no_pcs run0 run4 run0_initial
                    (fun _ => eq_refl) run4_rtc 2%nat) eq_refl).
Defined.

(** X15 at [run4]: the lock word is set, and there is an owner. *)
Lemma lock_word_has_owner_witness :
  lk_locked (the_lock run4) = 1%Z /\ exists c, owns (at_pc run4 c) = true.
Proof.
  split; [reflexivity |].
  apply (proj1 (lock_word_has_owner true no_pcs run0 run4 run0_initial run4_rtc)).
  discriminate.
Defined.
